(** * api/namespace.c of wireguard-nt: the private namespace and its mutexes

    A shallow embedding of [api/namespace.c] and the properties of it that
    the specification states.

    The file talks to Windows all the time.  The embedding keeps the
    program's own state (its four file-scope variables and the thread's
    last-error value) next to a small model of the system around it: the
    answers the system will give, the resources it has handed out, the
    calls it has received and the messages that were logged.  Every
    function of the source is a computation of the monad [M] over that
    state, written statement by statement in the order of the C text. *)

From Stdlib Require Import String Ascii ZArith List Bool Lia Arith.
Import ListNotations.
Local Open Scope Z_scope.

(* ================================================================== *)
(** ** Machine data *)

(** [BYTE] and [WCHAR] values are integers of 8 and 16 bits, [DWORD] and
    [NTSTATUS] of 32 bits; a [HANDLE] is an integer with [NULL] as 0. *)
Definition BYTE := Z.
Definition WCHAR := Z.
Definition DWORD := Z.
Definition NTSTATUS := Z.
Definition HANDLE := Z.
Definition NULL : HANDLE := 0.

(** [L"..."] without its terminator. *)
Definition wide (s : string) : list WCHAR :=
  map (fun c => Z.of_nat (nat_of_ascii c)) (list_ascii_of_string s).

(** The bytes of a [WCHAR] array in memory (little endian). *)
Definition wchar_bytes (c : WCHAR) : list BYTE := [c mod 256; (c / 256) mod 256].
Definition bytes_of_wchars (s : list WCHAR) : list BYTE := flat_map wchar_bytes s.

(** [wcslen]: the number of elements before the first zero one. *)
Fixpoint wcslen (mem : list WCHAR) : Z :=
  match mem with
  | [] => 0
  | c :: rest => if c =? 0 then 0 else 1 + wcslen rest
  end.

(** The C string held by an array: the elements before the first zero. *)
Fixpoint c_str (mem : list WCHAR) : list WCHAR :=
  match mem with
  | [] => []
  | c :: rest => if c =? 0 then [] else c :: c_str rest
  end.

(** The cast [(int)] of a [size_t], and the conversion of an [int] argument
    to a [ULONG] parameter. *)
Definition int_of_size_t (n : Z) : Z := (n + 2 ^ 31) mod 2 ^ 32 - 2 ^ 31.
Definition ULONG_of_int (n : Z) : Z := n mod 2 ^ 32.

(* ================================================================== *)
(** ** SHA-256

    [BCRYPT_SHA256_ALGORITHM] is SHA-256 of FIPS 180-4.  Words are integers
    below [2^32]; a message is a list of bytes. *)
Module SHA256.

Definition wrap (x : Z) : Z := x mod 2 ^ 32.
Definition add (x y : Z) : Z := wrap (x + y).
Definition rotr (n x : Z) : Z := Z.lor (Z.shiftr x n) (wrap (Z.shiftl x (32 - n))).
Definition inv (x : Z) : Z := Z.lxor x (2 ^ 32 - 1).

Definition ch (x y z : Z) : Z := Z.lxor (Z.land x y) (Z.land (inv x) z).
Definition maj (x y z : Z) : Z :=
  Z.lxor (Z.lxor (Z.land x y) (Z.land x z)) (Z.land y z).
Definition bsig0 (x : Z) : Z := Z.lxor (Z.lxor (rotr 2 x) (rotr 13 x)) (rotr 22 x).
Definition bsig1 (x : Z) : Z := Z.lxor (Z.lxor (rotr 6 x) (rotr 11 x)) (rotr 25 x).
Definition ssig0 (x : Z) : Z := Z.lxor (Z.lxor (rotr 7 x) (rotr 18 x)) (Z.shiftr x 3).
Definition ssig1 (x : Z) : Z := Z.lxor (Z.lxor (rotr 17 x) (rotr 19 x)) (Z.shiftr x 10).

(** The constants of FIPS 180-4: the first thirty-two bits of the
    fractional parts of the cube roots of the first sixty-four primes
    (section 4.2.2), and of the square roots of the first eight (section
    5.3.3). *)
Definition is_prime (n : Z) : bool :=
  forallb (fun d => negb (n mod Z.of_nat d =? 0)) (seq 2 (Z.to_nat n - 2)).

Definition primes (count : nat) : list Z :=
  firstn count (filter is_prime (map Z.of_nat (seq 2 310))).

(** The integer cube root, found bit by bit from the highest. *)
Fixpoint cube_root (bits : nat) (n r : Z) : Z :=
  match bits with
  | O => r
  | S b =>
      let c := r + 2 ^ Z.of_nat b in
      if c * c * c <=? n then cube_root b n c else cube_root b n r
  end.

Definition round_constants : list Z :=
  Eval vm_compute in map (fun p => wrap (cube_root 36 (p * 2 ^ 96) 0)) (primes 64).

Definition initial_hash : list Z :=
  Eval vm_compute in map (fun p => wrap (Z.sqrt (p * 2 ^ 64))) (primes 8).

(** Big-endian bytes of a word of [n] bytes, and back. *)
Fixpoint be_bytes (n : nat) (x : Z) : list Z :=
  match n with
  | O => []
  | S k => (x / 256 ^ Z.of_nat k) mod 256 :: be_bytes k x
  end.

Definition be_word (bs : list Z) : Z :=
  fold_left (fun acc b => acc * 256 + b mod 256) bs 0.

(** Padding: a one bit, zeros up to 56 modulo 64, then the bit length. *)
Definition pad (msg : list Z) : list Z :=
  let len := Z.of_nat (length msg) in
  let zeros := Z.to_nat ((55 - len) mod 64) in
  msg ++ [0x80] ++ repeat 0 zeros ++ be_bytes 8 (8 * len).

(** The sixteen words of a block, most recent first while the schedule
    grows: [schedule] returns W_63 ... W_0. *)
Fixpoint words (n : nat) (bs : list Z) : list Z :=
  match n with
  | O => []
  | S k => be_word (firstn 4 bs) :: words k (skipn 4 bs)
  end.

Fixpoint extend (n : nat) (rev_w : list Z) : list Z :=
  match n with
  | O => rev_w
  | S k =>
      let w2 := nth 1 rev_w 0 in
      let w7 := nth 6 rev_w 0 in
      let w15 := nth 14 rev_w 0 in
      let w16 := nth 15 rev_w 0 in
      extend k (add (add (ssig1 w2) w7) (add (ssig0 w15) w16) :: rev_w)
  end.

Definition schedule (block : list Z) : list Z :=
  rev (extend 48 (rev (words 16 block))).

Record Regs := mkRegs { ra : Z; rb : Z; rc : Z; rd : Z; re : Z; rf : Z; rg : Z; rh : Z }.

Definition round (r : Regs) (kw : Z * Z) : Regs :=
  let t1 := add (add (add (add (rh r) (bsig1 (re r))) (ch (re r) (rf r) (rg r))) (fst kw)) (snd kw) in
  let t2 := add (bsig0 (ra r)) (maj (ra r) (rb r) (rc r)) in
  mkRegs (add t1 t2) (ra r) (rb r) (rc r) (add (rd r) t1) (re r) (rf r) (rg r).

Definition regs_of (h : list Z) : Regs :=
  mkRegs (nth 0 h 0) (nth 1 h 0) (nth 2 h 0) (nth 3 h 0)
         (nth 4 h 0) (nth 5 h 0) (nth 6 h 0) (nth 7 h 0).

Definition regs_list (r : Regs) : list Z :=
  [ra r; rb r; rc r; rd r; re r; rf r; rg r; rh r].

Definition compress (h : list Z) (block : list Z) : list Z :=
  let r := fold_left round (combine round_constants (schedule block)) (regs_of h) in
  map (fun p => add (fst p) (snd p)) (combine (regs_list (regs_of h)) (regs_list r)).

Fixpoint blocks (n : nat) (h : list Z) (bs : list Z) : list Z :=
  match n with
  | O => h
  | S k => blocks k (compress h (firstn 64 bs)) (skipn 64 bs)
  end.

(** The digest: 32 bytes. *)
Definition digest (msg : list Z) : list BYTE :=
  let p := pad msg in
  flat_map (be_bytes 4) (blocks (length p / 64) initial_hash p).

End SHA256.

(* ================================================================== *)
(** ** Constants of the Windows headers *)

Definition ERROR_PATH_NOT_FOUND : DWORD := 3.
Definition ERROR_OUTOFMEMORY : DWORD := 14.
Definition ERROR_GEN_FAILURE : DWORD := 31.
Definition ERROR_INSUFFICIENT_BUFFER : DWORD := 122.
Definition ERROR_ALREADY_EXISTS : DWORD := 183.
Definition ERROR_NO_UNICODE_TRANSLATION : DWORD := 1113.

Definition WAIT_OBJECT_0 : DWORD := 0.
Definition WAIT_ABANDONED : DWORD := 0x80.
Definition WAIT_TIMEOUT : DWORD := 0x102.
Definition WAIT_FAILED : DWORD := 0xFFFFFFFF.
Definition INFINITE : DWORD := 0xFFFFFFFF.

Inductive NORM_FORM := NormalizationC | NormalizationD | NormalizationKC | NormalizationKD.
Inductive WELL_KNOWN_SID_TYPE := WinLocalSystemSid | WinBuiltinAdministratorsSid.

Definition BCRYPT_SUCCESS (Status : NTSTATUS) : bool := 0 <=? Status.

(* ================================================================== *)
(** ** The system around the program *)

(** What the build and the machine fix: the normalizer behind
    [NormalizeString] ([None] for text that is not valid UTF-16),
    [RtlNtStatusToDosError], and the flag [IsLocalSystem] of [main.h]. *)
Record Platform := mkPlatform {
  normalize : NORM_FORM -> list WCHAR -> option (list WCHAR);
  RtlNtStatusToDosError : NTSTATUS -> DWORD;
  IsLocalSystem : bool
}.

(** The system calls whose outcome the program looks at (or that may fail):
    each takes its next answer from the script. *)
Inductive Api :=
| ApiBCryptOpenAlgorithmProvider
| ApiCreateWellKnownSid
| ApiCreateBoundaryDescriptorW
| ApiAddSIDToBoundaryDescriptor
| ApiCreatePrivateNamespaceW
| ApiOpenPrivateNamespaceW
| ApiBCryptCreateHash
| ApiBCryptHashData
| ApiBCryptFinishHash
| ApiNormalizeString
| ApiAllocArray
| ApiCreateMutexW
| ApiWaitForSingleObject
| ApiReleaseMutex
| ApiCloseHandle.

Definition Api_eq_dec (a b : Api) : {a = b} + {a <> b}.
Proof. decide equality. Defined.

Definition Api_eqb (a b : Api) : bool := if Api_eq_dec a b then true else false.

(** What the system hands out and takes back. *)
Inductive Kind := KAlgorithm | KBoundary | KNamespace | KHash | KHeap | KMutex.

Definition Kind_eq_dec (a b : Kind) : {a = b} + {a <> b}.
Proof. decide equality. Defined.

Definition Resource : Type := Kind * HANDLE.

Definition Resource_eq_dec (a b : Resource) : {a = b} + {a <> b}.
Proof. decide equality; [apply Z.eq_dec | apply Kind_eq_dec]. Defined.

(** The calls the system receives, with the arguments that matter and, for
    a call that creates something, the handle it returned ([NULL] when it
    failed).  The result of a wait is not part of the call. *)
Inductive Event :=
| CallInitializeCriticalSection
| CallEnterCriticalSection
| CallLeaveCriticalSection
| CallDeleteCriticalSection
| CallBCryptOpenAlgorithmProvider (ret : HANDLE)
| CallBCryptCloseAlgorithmProvider (h : HANDLE)
| CallCreateWellKnownSid (t : WELL_KNOWN_SID_TYPE)
| CallCreateBoundaryDescriptorW (Name : list WCHAR) (ret : HANDLE)
| CallAddSIDToBoundaryDescriptor (bd : HANDLE) (t : WELL_KNOWN_SID_TYPE)
| CallDeleteBoundaryDescriptor (bd : HANDLE)
| CallCreatePrivateNamespaceW (bd : HANDLE) (Name : list WCHAR) (ret : HANDLE)
| CallOpenPrivateNamespaceW (bd : HANDLE) (Name : list WCHAR) (ret : HANDLE)
| CallClosePrivateNamespace (h : HANDLE)
| CallBCryptCreateHash (alg : HANDLE) (ret : HANDLE)
| CallBCryptHashData (h : HANDLE) (data : list BYTE)
| CallBCryptFinishHash (h : HANDLE)
| CallBCryptDestroyHash (h : HANDLE)
| CallNormalizeString (f : NORM_FORM) (Source : list WCHAR) (DstLen : Z)
| CallAllocArray (n : Z) (ret : HANDLE)
| CallFree (p : HANDLE)
| CallCreateMutexW (Name : list WCHAR) (ret : HANDLE)
| CallWaitForSingleObject (h : HANDLE) (ms : DWORD)
| CallReleaseMutex (h : HANDLE)
| CallCloseHandle (h : HANDLE)
| CallSetLastError (e : DWORD).

(** A critical section is usable between its initialization and its
    deletion; [CsReady n] is entered [n] times by the thread. *)
Inductive CriticalSection := CsRaw | CsReady (depth : nat) | CsDeleted.

Record LogEntry := mkLog {
  log_format : string;
  log_code : Z;
  log_text : list WCHAR
}.

Record State := mkState {
  (* the file-scope variables of namespace.c *)
  PrivateNamespace : HANDLE;
  BoundaryDescriptor : HANDLE;
  Initializing : CriticalSection;
  AlgProvider : HANDLE;
  (* the thread *)
  last_error : DWORD;
  (* the system *)
  script : list (Api * Z);
  answered : list (Api * Z);
  next_handle : positive;
  live : list Resource;
  hashes : list (HANDLE * list BYTE);
  calls : list Event;
  logged : list LogEntry
}.

(** [answered] keeps the answers the system has given, most recent first.

    The state when the module is loaded: the variables are zero, nothing was
    handed out, nothing was called; [answers] is what the system will say. *)
Definition boot (answers : list (Api * Z)) : State :=
  mkState NULL NULL CsRaw NULL 0 answers [] 1%positive [] [] [] [].

(** A use of a critical section outside its life time has no defined
    behaviour; a loop may use up the budget it was given. *)
Inductive FaultKind := BadCriticalSection | LoopBudget.

Inductive Res (A : Type) :=
| Ok (a : A) (st : State)
| Fault (k : FaultKind).
Arguments Ok {A} a st.
Arguments Fault {A} k.

Definition M (A : Type) : Type := State -> Res A.

Definition ret {A} (a : A) : M A := fun st => Ok a st.

Definition bind {A B} (m : M A) (f : A -> M B) : M B :=
  fun st => match m st with
            | Ok a st' => f a st'
            | Fault k => Fault k
            end.

Declare Scope m_scope.
Delimit Scope m_scope with m.
Notation "x <- m ;; k" := (bind m (fun x => k))
  (at level 100, m at next level, right associativity) : m_scope.
Notation "m ;; k" := (bind m (fun _ => k))
  (at level 100, right associativity) : m_scope.
Local Open Scope m_scope.

Definition fault {A} (k : FaultKind) : M A := fun _ => Fault k.
Definition gets {A} (f : State -> A) : M A := fun st => Ok (f st) st.
Definition modify (f : State -> State) : M unit := fun st => Ok tt (f st).

(** *** Field updates *)
Definition with_PrivateNamespace (v : HANDLE) (s : State) : State :=
  mkState v (BoundaryDescriptor s) (Initializing s) (AlgProvider s) (last_error s)
          (script s) (answered s) (next_handle s) (live s)
          (hashes s) (calls s) (logged s).
Definition with_BoundaryDescriptor (v : HANDLE) (s : State) : State :=
  mkState (PrivateNamespace s) v (Initializing s) (AlgProvider s) (last_error s)
          (script s) (answered s) (next_handle s) (live s)
          (hashes s) (calls s) (logged s).
Definition with_Initializing (v : CriticalSection) (s : State) : State :=
  mkState (PrivateNamespace s) (BoundaryDescriptor s) v (AlgProvider s) (last_error s)
          (script s) (answered s) (next_handle s) (live s)
          (hashes s) (calls s) (logged s).
Definition with_AlgProvider (v : HANDLE) (s : State) : State :=
  mkState (PrivateNamespace s) (BoundaryDescriptor s) (Initializing s) v (last_error s)
          (script s) (answered s) (next_handle s) (live s)
          (hashes s) (calls s) (logged s).
Definition with_last_error (v : DWORD) (s : State) : State :=
  mkState (PrivateNamespace s) (BoundaryDescriptor s) (Initializing s) (AlgProvider s) v
          (script s) (answered s) (next_handle s) (live s)
          (hashes s) (calls s) (logged s).
Definition with_script (v : list (Api * Z)) (s : State) : State :=
  mkState (PrivateNamespace s) (BoundaryDescriptor s) (Initializing s) (AlgProvider s) (last_error s)
          v (answered s) (next_handle s) (live s)
          (hashes s) (calls s) (logged s).
Definition with_answered (v : list (Api * Z)) (s : State) : State :=
  mkState (PrivateNamespace s) (BoundaryDescriptor s) (Initializing s) (AlgProvider s) (last_error s)
          (script s) v (next_handle s) (live s)
          (hashes s) (calls s) (logged s).
Definition with_next_handle (v : positive) (s : State) : State :=
  mkState (PrivateNamespace s) (BoundaryDescriptor s) (Initializing s) (AlgProvider s) (last_error s)
          (script s) (answered s) v (live s)
          (hashes s) (calls s) (logged s).
Definition with_live (v : list Resource) (s : State) : State :=
  mkState (PrivateNamespace s) (BoundaryDescriptor s) (Initializing s) (AlgProvider s) (last_error s)
          (script s) (answered s) (next_handle s) v
          (hashes s) (calls s) (logged s).
Definition with_hashes (v : list (HANDLE * list BYTE)) (s : State) : State :=
  mkState (PrivateNamespace s) (BoundaryDescriptor s) (Initializing s) (AlgProvider s) (last_error s)
          (script s) (answered s) (next_handle s) (live s)
          v (calls s) (logged s).
Definition with_calls (v : list Event) (s : State) : State :=
  mkState (PrivateNamespace s) (BoundaryDescriptor s) (Initializing s) (AlgProvider s) (last_error s)
          (script s) (answered s) (next_handle s) (live s)
          (hashes s) v (logged s).
Definition with_logged (v : list LogEntry) (s : State) : State :=
  mkState (PrivateNamespace s) (BoundaryDescriptor s) (Initializing s) (AlgProvider s) (last_error s)
          (script s) (answered s) (next_handle s) (live s)
          (hashes s) (calls s) v.

(** An update of a state that is given by its fields is computed. *)
Arguments with_PrivateNamespace v s /.
Arguments with_BoundaryDescriptor v s /.
Arguments with_Initializing v s /.
Arguments with_AlgProvider v s /.
Arguments with_last_error v s /.
Arguments with_script v s /.
Arguments with_answered v s /.
Arguments with_next_handle v s /.
Arguments with_live v s /.
Arguments with_hashes v s /.
Arguments with_calls v s /.
Arguments with_logged v s /.

(** *** The script of answers

    [take api s] is the first answer for [api] in [s] and the script without
    it.  A call that the script says nothing about gets the answer 0: the
    call succeeds (a status of 0, no error, a wait that ends signaled, an
    exact size). *)
Fixpoint take (api : Api) (s : list (Api * Z)) : Z * list (Api * Z) :=
  match s with
  | [] => (0, [])
  | (a, z) :: rest =>
      if Api_eqb a api then (z, rest)
      else let (z', rest') := take api rest in (z', (a, z) :: rest')
  end.

Definition ask (api : Api) : M Z :=
  fun st =>
    let (z, s') := take api (script st) in
    Ok z (with_answered ((api, z) :: answered st) (with_script s' st)).

(** The calls are kept most recent first. *)
Definition note (e : Event) : M unit := modify (fun st => with_calls (e :: calls st) st).

(** A new resource of kind [k]: its handle is not [NULL] and was never used. *)
Definition fresh (k : Kind) : M HANDLE :=
  fun st =>
    let h := Z.pos (next_handle st) in
    Ok h (with_live ((k, h) :: live st) (with_next_handle (Pos.succ (next_handle st)) st)).

Definition without (r : Resource) (l : list Resource) : list Resource :=
  remove Resource_eq_dec r l.

Definition discard (r : Resource) : M unit :=
  modify (fun st => with_live (without r (live st)) st).

(** A Win32 call that reports failure through the last-error value: the
    answer 0 lets it succeed, another answer is the error it fails with. *)
Definition win32 (api : Api) : M bool :=
  e <- ask api ;;
  if e =? 0 then ret true
  else (modify (with_last_error e) ;; ret false).

Definition GetLastError : M DWORD := gets last_error.

Definition SetLastError (e : DWORD) : M unit :=
  note (CallSetLastError e) ;; modify (with_last_error e).

(* ================================================================== *)
(** ** The calls of the program into the system *)

Definition InitializeCriticalSection : M unit :=
  note CallInitializeCriticalSection ;;
  modify (with_Initializing (CsReady 0)).

Definition EnterCriticalSection : M unit :=
  cs <- gets Initializing ;;
  match cs with
  | CsReady n => note CallEnterCriticalSection ;; modify (with_Initializing (CsReady (S n)))
  | _ => fault BadCriticalSection
  end.

Definition LeaveCriticalSection : M unit :=
  cs <- gets Initializing ;;
  match cs with
  | CsReady (S n) => note CallLeaveCriticalSection ;; modify (with_Initializing (CsReady n))
  | _ => fault BadCriticalSection
  end.

Definition DeleteCriticalSection : M unit :=
  cs <- gets Initializing ;;
  match cs with
  | CsReady _ => note CallDeleteCriticalSection ;; modify (with_Initializing CsDeleted)
  | _ => fault BadCriticalSection
  end.

(** [BCryptOpenAlgorithmProvider(phAlgorithm, BCRYPT_SHA256_ALGORITHM, NULL, 0)]:
    the handle is stored through [phAlgorithm] when the call succeeds. *)
Definition BCryptOpenAlgorithmProvider (phAlgorithm : HANDLE -> State -> State) : M NTSTATUS :=
  Status <- ask ApiBCryptOpenAlgorithmProvider ;;
  if BCRYPT_SUCCESS Status then
    h <- fresh KAlgorithm ;;
    modify (phAlgorithm h) ;;
    note (CallBCryptOpenAlgorithmProvider h) ;;
    ret Status
  else
    note (CallBCryptOpenAlgorithmProvider NULL) ;;
    ret Status.

Definition BCryptCloseAlgorithmProvider (h : HANDLE) : M unit :=
  note (CallBCryptCloseAlgorithmProvider h) ;;
  discard (KAlgorithm, h).

Definition CreateWellKnownSid (t : WELL_KNOWN_SID_TYPE) : M bool :=
  note (CallCreateWellKnownSid t) ;;
  win32 ApiCreateWellKnownSid.

Definition CreateBoundaryDescriptorW (Name : list WCHAR) : M HANDLE :=
  ok <- win32 ApiCreateBoundaryDescriptorW ;;
  if ok then
    h <- fresh KBoundary ;; note (CallCreateBoundaryDescriptorW Name h) ;; ret h
  else
    note (CallCreateBoundaryDescriptorW Name NULL) ;; ret NULL.

Definition AddSIDToBoundaryDescriptor (bd : HANDLE) (Sid : WELL_KNOWN_SID_TYPE) : M bool :=
  note (CallAddSIDToBoundaryDescriptor bd Sid) ;;
  win32 ApiAddSIDToBoundaryDescriptor.

Definition DeleteBoundaryDescriptor (bd : HANDLE) : M unit :=
  note (CallDeleteBoundaryDescriptor bd) ;;
  discard (KBoundary, bd).

Definition CreatePrivateNamespaceW (bd : HANDLE) (Name : list WCHAR) : M HANDLE :=
  ok <- win32 ApiCreatePrivateNamespaceW ;;
  if ok then
    h <- fresh KNamespace ;; note (CallCreatePrivateNamespaceW bd Name h) ;; ret h
  else
    note (CallCreatePrivateNamespaceW bd Name NULL) ;; ret NULL.

Definition OpenPrivateNamespaceW (bd : HANDLE) (Name : list WCHAR) : M HANDLE :=
  ok <- win32 ApiOpenPrivateNamespaceW ;;
  if ok then
    h <- fresh KNamespace ;; note (CallOpenPrivateNamespaceW bd Name h) ;; ret h
  else
    note (CallOpenPrivateNamespaceW bd Name NULL) ;; ret NULL.

Definition ClosePrivateNamespace (h : HANDLE) : M unit :=
  note (CallClosePrivateNamespace h) ;;
  discard (KNamespace, h).

(** A hash object collects the bytes it is given. *)
Definition hash_data (h : HANDLE) (hs : list (HANDLE * list BYTE)) : list BYTE :=
  match find (fun p => fst p =? h) hs with
  | Some p => snd p
  | None => []
  end.

Definition hash_put (h : HANDLE) (d : list BYTE) (hs : list (HANDLE * list BYTE)) :=
  (h, d) :: filter (fun p => negb (fst p =? h)) hs.

Definition hash_drop (h : HANDLE) (hs : list (HANDLE * list BYTE)) :=
  filter (fun p => negb (fst p =? h)) hs.

(** [BCryptCreateHash(alg, &Hash, NULL, 0, NULL, 0, 0)]: the status and the
    value of [Hash] afterwards ([NULL], its value before, when the call
    fails). *)
Definition BCryptCreateHash (alg : HANDLE) : M (NTSTATUS * HANDLE) :=
  Status <- ask ApiBCryptCreateHash ;;
  if BCRYPT_SUCCESS Status then
    h <- fresh KHash ;;
    modify (fun st => with_hashes (hash_put h [] (hashes st)) st) ;;
    note (CallBCryptCreateHash alg h) ;;
    ret (Status, h)
  else
    note (CallBCryptCreateHash alg NULL) ;;
    ret (Status, NULL).

(** [BCryptHashData(h, pbInput, cbInput, 0)]: [mem] is the memory [pbInput]
    points to, of which the first [cbInput] bytes are read. *)
Definition BCryptHashData (h : HANDLE) (mem : list BYTE) (cbInput : Z) : M NTSTATUS :=
  let data := firstn (Z.to_nat cbInput) mem in
  note (CallBCryptHashData h data) ;;
  Status <- ask ApiBCryptHashData ;;
  if BCRYPT_SUCCESS Status then
    modify (fun st => with_hashes (hash_put h (hash_data h (hashes st) ++ data) (hashes st)) st) ;;
    ret Status
  else ret Status.

(** [BCryptFinishHash(h, Hash, sizeof(Hash), 0)]: the status and the bytes
    written to [Hash]. *)
Definition BCryptFinishHash (h : HANDLE) : M (NTSTATUS * list BYTE) :=
  note (CallBCryptFinishHash h) ;;
  Status <- ask ApiBCryptFinishHash ;;
  if BCRYPT_SUCCESS Status then
    d <- gets (fun st => hash_data h (hashes st)) ;;
    ret (Status, SHA256.digest d)
  else ret (Status, []).

Definition BCryptDestroyHash (h : HANDLE) : M unit :=
  note (CallBCryptDestroyHash h) ;;
  modify (fun st => with_hashes (hash_drop h (hashes st)) st) ;;
  discard (KHash, h).

Definition CreateMutexW (Name : list WCHAR) : M HANDLE :=
  ok <- win32 ApiCreateMutexW ;;
  if ok then
    h <- fresh KMutex ;; note (CallCreateMutexW Name h) ;; ret h
  else
    note (CallCreateMutexW Name NULL) ;; ret NULL.

Definition WaitForSingleObject (h : HANDLE) (ms : DWORD) : M DWORD :=
  note (CallWaitForSingleObject h ms) ;;
  ask ApiWaitForSingleObject.

Definition ReleaseMutex (h : HANDLE) : M bool :=
  note (CallReleaseMutex h) ;;
  win32 ApiReleaseMutex.

Definition CloseHandle (h : HANDLE) : M bool :=
  note (CallCloseHandle h) ;;
  ok <- win32 ApiCloseHandle ;;
  if ok then discard (KMutex, h) ;; discard (KNamespace, h) ;; ret true
  else ret false.

(** Modelled from the spec: the allocator of [main.h] ([AllocArray], [Free]),
    which the specification treats as an opaque service: a request either
    yields a block or fails with an error; [Free] keeps the last-error
    value. *)
Definition AllocArray (NumberOfElements SizeOfOneElement : Z) : M HANDLE :=
  ok <- win32 ApiAllocArray ;;
  if ok then
    p <- fresh KHeap ;; note (CallAllocArray NumberOfElements p) ;; ret p
  else
    note (CallAllocArray NumberOfElements NULL) ;; ret NULL.

Definition Free (p : HANDLE) : M unit :=
  note (CallFree p) ;;
  discard (KHeap, p).

(** Modelled from the spec: the logging sink of [logger.h].  [LOG] records a
    message; [LOG_ERROR] records a message for an error code;
    [LOG_LAST_ERROR] does so for the last-error value, which it returns and
    leaves as it is. *)
Definition LOG (format : string) (code : Z) (text : list WCHAR) : M unit :=
  modify (fun st => with_logged (mkLog format code text :: logged st) st).

Definition LOG_ERROR (Error : DWORD) (format : string) : M unit :=
  LOG format Error [].

Definition LOG_LAST_ERROR (format : string) (text : list WCHAR) : M DWORD :=
  e <- GetLastError ;;
  LOG format e text ;;
  ret e.

(** How many answers for [api] the script still holds. *)
Definition pending (api : Api) (s : list (Api * Z)) : nat :=
  List.length (filter (fun p => Api_eqb (fst p) api) s).

(** A loop that goes round again only after a scripted answer for [api]
    gets this many rounds, which it cannot use up. *)
Definition budget (api : Api) : M nat :=
  gets (fun st => S (S (pending api (script st)))).

(* ================================================================== *)
(** ** api/namespace.c *)

(** Arrays of the stack and of the data segment. *)
Definition sizeof_wchars (arr : list WCHAR) : Z := 2 * Z.of_nat (List.length arr).
Definition countof (arr : list WCHAR) : nat := List.length arr.

(** [arr] with [vs] written from index [i] on. *)
Fixpoint store (arr : list WCHAR) (i : nat) (vs : list WCHAR) : list WCHAR :=
  match i, arr with
  | O, _ => vs ++ skipn (List.length vs) arr
  | S k, c :: rest => c :: store rest k vs
  | S k, [] => []
  end.

(** What a stack array holds before it is written. *)
Definition indeterminate : WCHAR := 0xCCCC.

Definition hex_digit (d : Z) : WCHAR := if d <? 10 then 48 + d else 87 + d.

(** [swprintf_s(buffer, 3, L"%02x", b)] for a [BYTE] [b]: two digits and the
    terminator. *)
Definition swprintf_s_02x (b : BYTE) : list WCHAR :=
  let v := b mod 256 in [hex_digit (v / 16); hex_digit (v mod 16); 0].

Definition mutex_label : list WCHAR :=
  wide "WireGuard Adapter Name Mutex Stable Suffix v1 jason@zx2c4.com" ++ [0].

Definition MutexNamePrefix : list WCHAR :=
  wide "WireGuard\WireGuard-Name-Mutex-" ++ [0].

Definition sizeof_Hash : nat := 32.

(** Lines 162-165: the array [MutexName] after the [memcpy] and the loop. *)
Definition MutexName_of (Hash : list BYTE) : list WCHAR :=
  let MutexName := repeat indeterminate (countof MutexNamePrefix + sizeof_Hash * 2) in
  let MutexName := store MutexName 0 MutexNamePrefix in
  fold_left
    (fun MutexName i =>
       store MutexName (countof MutexNamePrefix - 1 + i * 2) (swprintf_s_02x (nth i Hash 0)))
    (seq 0 sizeof_Hash) MutexName.

Definition DriverInstallationMutexName : list WCHAR :=
  wide "WireGuard\WireGuard-Driver-Installation-Mutex".

Section Namespace.

Variable P : Platform.

(** [NormalizeString(NormForm, Source, -1, Dst, DstLen)]: the value returned
    and what was written to [Dst].  With a [Dst] that is large enough the
    normalized text and its terminator are written and their length is
    returned.  Otherwise the call returns a size to try, as it is for
    [DstLen = 0] and negated, with [ERROR_INSUFFICIENT_BUFFER], for a [Dst]
    that is too small; the size is the exact one plus the next answer of
    the script.  Text that cannot be normalized gives a value that is not
    positive and [ERROR_NO_UNICODE_TRANSLATION]. *)
Definition NormalizeString (NormForm : NORM_FORM) (Source : list WCHAR) (DstLen : Z)
  : M (Z * list WCHAR) :=
  note (CallNormalizeString NormForm Source DstLen) ;;
  match normalize P NormForm Source with
  | None =>
      z <- ask ApiNormalizeString ;;
      modify (with_last_error ERROR_NO_UNICODE_TRANSLATION) ;;
      ret (- Z.abs z, [])
  | Some n =>
      let needed := Z.of_nat (List.length n) + 1 in
      if needed <=? DstLen then ret (needed, n ++ [0])
      else
        z <- ask ApiNormalizeString ;;
        let estimate := Z.max 1 (needed + z) in
        if DstLen =? 0 then ret (estimate, [])
        else (modify (with_last_error ERROR_INSUFFICIENT_BUFFER) ;; ret (- estimate, []))
  end.

(** Lines 29-44.  [Some (Str, mem)]: the block and what it holds. *)
Fixpoint NormalizeStringAlloc_loop (fuel : nat) (NormForm : NORM_FORM)
    (Source : list WCHAR) (Len : Z) : M (option (HANDLE * list WCHAR)) :=
  match fuel with
  | O => fault LoopBudget
  | S fuel' =>
      Str <- AllocArray Len 2 ;;
      if Str =? NULL then ret None
      else
        r <- NormalizeString NormForm Source Len ;;
        let Len := fst r in
        if 0 <? Len then ret (Some (Str, snd r))
        else
          Free Str ;;
          e <- GetLastError ;;
          if negb (e =? ERROR_INSUFFICIENT_BUFFER) then
            LOG_LAST_ERROR "Failed: %s" Source ;;
            ret None
          else NormalizeStringAlloc_loop fuel' NormForm Source (- Len)
  end.

Definition NormalizeStringAlloc (NormForm : NORM_FORM) (Source : list WCHAR)
  : M (option (HANDLE * list WCHAR)) :=
  r <- NormalizeString NormForm Source 0 ;;
  fuel <- budget ApiNormalizeString ;;
  NormalizeStringAlloc_loop fuel NormForm Source (fst r).

(** The labels at the end of [NamespaceRuntimeInit]; each falls through to
    the next. *)
Definition cleanupLeaveCriticalSection (LastError : DWORD) : M bool :=
  LeaveCriticalSection ;;
  SetLastError LastError ;;
  ret false.

Definition cleanupBCryptCloseAlgorithmProvider (LastError : DWORD) : M bool :=
  alg <- gets AlgProvider ;;
  BCryptCloseAlgorithmProvider alg ;;
  cleanupLeaveCriticalSection LastError.

Definition cleanupBoundaryDescriptor (LastError : DWORD) : M bool :=
  bd <- gets BoundaryDescriptor ;;
  DeleteBoundaryDescriptor bd ;;
  cleanupBCryptCloseAlgorithmProvider LastError.

(** Lines 87-102.  [None]: the loop was left by [break]; [Some LastError]:
    by [goto cleanupBoundaryDescriptor]. *)
Fixpoint PrivateNamespace_loop (fuel : nat) : M (option DWORD) :=
  match fuel with
  | O => fault LoopBudget
  | S fuel' =>
      bd <- gets BoundaryDescriptor ;;
      h <- CreatePrivateNamespaceW bd (wide "WireGuard") ;;
      modify (with_PrivateNamespace h) ;;
      if negb (h =? NULL) then ret None
      else
        LastError <- GetLastError ;;
        if LastError =? ERROR_ALREADY_EXISTS then
          bd <- gets BoundaryDescriptor ;;
          h <- OpenPrivateNamespaceW bd (wide "WireGuard") ;;
          modify (with_PrivateNamespace h) ;;
          if negb (h =? NULL) then ret None
          else
            LastError <- GetLastError ;;
            if LastError =? ERROR_PATH_NOT_FOUND then PrivateNamespace_loop fuel'
            else
              LOG_ERROR LastError "Failed to open private namespace" ;;
              ret (Some LastError)
        else
          LOG_ERROR LastError "Failed to create private namespace" ;;
          ret (Some LastError)
  end.

Definition NamespaceRuntimeInit : M bool :=
  EnterCriticalSection ;;
  ns <- gets PrivateNamespace ;;
  if negb (ns =? NULL) then
    LeaveCriticalSection ;;
    ret true
  else
    Status <- BCryptOpenAlgorithmProvider with_AlgProvider ;;
    if negb (BCRYPT_SUCCESS Status) then
      LOG "Failed to open algorithm provider (status: 0x%x)" Status [] ;;
      cleanupLeaveCriticalSection (RtlNtStatusToDosError P Status)
    else
      let Sid := if IsLocalSystem P then WinLocalSystemSid else WinBuiltinAdministratorsSid in
      ok <- CreateWellKnownSid Sid ;;
      if negb ok then
        LastError <- LOG_LAST_ERROR "Failed to create SID" [] ;;
        cleanupBCryptCloseAlgorithmProvider LastError
      else
        bd <- CreateBoundaryDescriptorW (wide "WireGuard") ;;
        modify (with_BoundaryDescriptor bd) ;;
        if bd =? NULL then
          LastError <- LOG_LAST_ERROR "Failed to create boundary descriptor" [] ;;
          cleanupBCryptCloseAlgorithmProvider LastError
        else
          ok <- AddSIDToBoundaryDescriptor bd Sid ;;
          if negb ok then
            LastError <- LOG_LAST_ERROR "Failed to add SID to boundary descriptor" [] ;;
            cleanupBoundaryDescriptor LastError
          else
            fuel <- budget ApiOpenPrivateNamespaceW ;;
            r <- PrivateNamespace_loop fuel ;;
            match r with
            | None =>
                LeaveCriticalSection ;;
                ret true
            | Some LastError => cleanupBoundaryDescriptor LastError
            end.

(** The labels at the end of [NamespaceTakePoolMutex]. *)
Definition cleanupSha256 (Sha256 : HANDLE) (LastError : DWORD) : M HANDLE :=
  BCryptDestroyHash Sha256 ;;
  SetLastError LastError ;;
  ret NULL.

Definition cleanupPoolNorm (PoolNorm Sha256 : HANDLE) (LastError : DWORD) : M HANDLE :=
  Free PoolNorm ;;
  cleanupSha256 Sha256 LastError.

Definition NamespaceTakePoolMutex (Pool : list WCHAR) : M HANDLE :=
  ok <- NamespaceRuntimeInit ;;
  if negb ok then ret NULL
  else
    alg <- gets AlgProvider ;;
    r <- BCryptCreateHash alg ;;
    let Status := fst r in
    let Sha256 := snd r in
    if negb (BCRYPT_SUCCESS Status) then
      LOG "Failed to create hash (status: 0x%x)" Status [] ;;
      SetLastError (RtlNtStatusToDosError P Status) ;;
      ret NULL
    else
      Status <- BCryptHashData Sha256 (bytes_of_wchars mutex_label) (sizeof_wchars mutex_label) ;;
      if negb (BCRYPT_SUCCESS Status) then
        LOG "Failed to hash data (status: 0x%x)" Status [] ;;
        cleanupSha256 Sha256 (RtlNtStatusToDosError P Status)
      else
        r <- NormalizeStringAlloc NormalizationC Pool ;;
        match r with
        | None =>
            LastError <- GetLastError ;;
            cleanupSha256 Sha256 LastError
        | Some (PoolNorm, mem) =>
            Status <- BCryptHashData Sha256 (bytes_of_wchars mem)
                        (ULONG_of_int (int_of_size_t (wcslen mem) + 2)) ;;
            if negb (BCRYPT_SUCCESS Status) then
              LOG "Failed to hash data (status: 0x%x)" Status [] ;;
              cleanupPoolNorm PoolNorm Sha256 (RtlNtStatusToDosError P Status)
            else
              r <- BCryptFinishHash Sha256 ;;
              let Status := fst r in
              let Hash := snd r in
              if negb (BCRYPT_SUCCESS Status) then
                LOG "Failed to calculate hash (status: 0x%x)" Status [] ;;
                cleanupPoolNorm PoolNorm Sha256 (RtlNtStatusToDosError P Status)
              else
                let MutexName := MutexName_of Hash in
                Mutex <- CreateMutexW (c_str MutexName) ;;
                if Mutex =? NULL then
                  LastError <- LOG_LAST_ERROR "Failed to create mutex %s" (c_str MutexName) ;;
                  cleanupPoolNorm PoolNorm Sha256 LastError
                else
                  Result <- WaitForSingleObject Mutex INFINITE ;;
                  if (Result =? WAIT_OBJECT_0) || (Result =? WAIT_ABANDONED) then
                    Free PoolNorm ;;
                    BCryptDestroyHash Sha256 ;;
                    ret Mutex
                  else
                    LOG "Failed to get mutex %s (status: 0x%x)" Result (c_str MutexName) ;;
                    CloseHandle Mutex ;;
                    cleanupPoolNorm PoolNorm Sha256 ERROR_GEN_FAILURE
        end.

Definition NamespaceTakeDriverInstallationMutex : M HANDLE :=
  ok <- NamespaceRuntimeInit ;;
  if negb ok then ret NULL
  else
    Mutex <- CreateMutexW DriverInstallationMutexName ;;
    if Mutex =? NULL then
      LOG_LAST_ERROR "Failed to create mutex" [] ;;
      ret NULL
    else
      Result <- WaitForSingleObject Mutex INFINITE ;;
      if (Result =? WAIT_OBJECT_0) || (Result =? WAIT_ABANDONED) then ret Mutex
      else
        LOG "Failed to get mutex (status: 0x%x)" Result [] ;;
        CloseHandle Mutex ;;
        SetLastError ERROR_GEN_FAILURE ;;
        ret NULL.

Definition NamespaceReleaseMutex (Mutex : HANDLE) : M unit :=
  ReleaseMutex Mutex ;;
  CloseHandle Mutex ;;
  ret tt.

Definition NamespaceInit : M unit :=
  InitializeCriticalSection.

Definition NamespaceDone : M unit :=
  EnterCriticalSection ;;
  ns <- gets PrivateNamespace ;;
  (if negb (ns =? NULL) then
     alg <- gets AlgProvider ;;
     BCryptCloseAlgorithmProvider alg ;;
     ClosePrivateNamespace ns ;;
     bd <- gets BoundaryDescriptor ;;
     DeleteBoundaryDescriptor bd ;;
     modify (with_PrivateNamespace NULL)
   else ret tt) ;;
  LeaveCriticalSection ;;
  DeleteCriticalSection.

End Namespace.

(** A platform for running the model on names that need no Unicode tables:
    ASCII text is its own normal form, and the few pairs of [compose_table]
    compose; anything else is reported as not translatable. *)
Definition compose_table : list ((WCHAR * WCHAR) * WCHAR) :=
  [ ((0x41, 0x30A), 0xC5);   (* A + ring above *)
    ((0x65, 0x301), 0xE9);   (* e + acute *)
    ((0x6E, 0x303), 0xF1) ]. (* n + tilde *)

Definition composed (c m : WCHAR) : option WCHAR :=
  match find (fun p => (fst (fst p) =? c) && (snd (fst p) =? m)) compose_table with
  | Some p => Some (snd p)
  | None => None
  end.

Fixpoint sample_normalize (s : list WCHAR) : option (list WCHAR) :=
  match s with
  | [] => Some []
  | c :: rest =>
      match sample_normalize rest with
      | None => None
      | Some n =>
          if (0 <? c) && (c <? 0x80) then
            match n with
            | m :: n' =>
                match composed c m with
                | Some x => Some (x :: n')
                | None => Some (c :: n)
                end
            | [] => Some [c]
            end
          else if existsb (fun p => snd p =? c) compose_table then Some (c :: n)
          else if existsb (fun p => snd (fst p) =? c) compose_table then Some (c :: n)
          else None
      end
  end.

Definition sample_platform : Platform :=
  mkPlatform (fun _ => sample_normalize) (fun Status => Status mod 2 ^ 16) true.

(* ================================================================== *)
(** ** Reading a run *)

(** The calls made between two states, most recent first. *)
Definition calls_since (st st' : State) : list Event :=
  firstn (List.length (calls st') - List.length (calls st)) (calls st').

(** The answers given between two states, in the order they were given. *)
Definition answers_since (st st' : State) : list (Api * Z) :=
  rev (firstn (List.length (answered st') - List.length (answered st)) (answered st')).

(** The resource a call hands out, and the one a call gives back. *)
Definition acquired_by (e : Event) : option Resource :=
  match e with
  | CallBCryptOpenAlgorithmProvider h => if h =? NULL then None else Some (KAlgorithm, h)
  | CallCreateBoundaryDescriptorW _ h => if h =? NULL then None else Some (KBoundary, h)
  | CallCreatePrivateNamespaceW _ _ h => if h =? NULL then None else Some (KNamespace, h)
  | CallOpenPrivateNamespaceW _ _ h => if h =? NULL then None else Some (KNamespace, h)
  | CallBCryptCreateHash _ h => if h =? NULL then None else Some (KHash, h)
  | CallAllocArray _ h => if h =? NULL then None else Some (KHeap, h)
  | CallCreateMutexW _ h => if h =? NULL then None else Some (KMutex, h)
  | _ => None
  end.

Definition released_by (e : Event) : option Resource :=
  match e with
  | CallBCryptCloseAlgorithmProvider h => Some (KAlgorithm, h)
  | CallDeleteBoundaryDescriptor h => Some (KBoundary, h)
  | CallClosePrivateNamespace h => Some (KNamespace, h)
  | CallBCryptDestroyHash h => Some (KHash, h)
  | CallFree h => Some (KHeap, h)
  | CallCloseHandle h => Some (KMutex, h)
  | _ => None
  end.

Fixpoint pick {A B} (f : A -> option B) (l : list A) : list B :=
  match l with
  | [] => []
  | x :: rest => match f x with
                 | Some y => y :: pick f rest
                 | None => pick f rest
                 end
  end.

(** The resources of the namespace context among those handed out. *)
Definition is_context_kind (r : Resource) : bool :=
  match fst r with
  | KAlgorithm | KBoundary | KNamespace => true
  | _ => false
  end.

Definition context_live (st : State) : list Resource :=
  filter is_context_kind (live st).

(** The context is whole or absent: with a namespace handle the system
    holds exactly the namespace, the boundary descriptor and the algorithm
    provider that the variables name; without one it holds none of the
    three kinds.  Handles in use are below the next one to be given out. *)
Definition context_consistent (st : State) : Prop :=
  (forall r, In r (live st) -> snd r < Z.pos (next_handle st)) /\
  (if PrivateNamespace st =? NULL
   then context_live st = []
   else context_live st =
          [ (KNamespace, PrivateNamespace st);
            (KBoundary, BoundaryDescriptor st);
            (KAlgorithm, AlgProvider st) ]).

(** What the caller and the system can tell of a state; the script and the
    record of answers are the system's own. *)
Definition observable {A} (r : Res A) :=
  match r with
  | Ok a st =>
      Some (a, (PrivateNamespace st, BoundaryDescriptor st, Initializing st, AlgProvider st),
            last_error st, (next_handle st, live st, hashes st), calls st, logged st)
  | Fault _ => None
  end.

(** [st] with [z] as the next answer for [api]. *)
Definition answering (api : Api) (z : Z) (st : State) : State :=
  with_script ((api, z) :: script st) st.

(** The rounds of the loop that creates or opens the namespace, as the
    specification words them: a creation that finds the namespace existing
    is followed by an opening, an opening that finds it gone by a new round;
    the rounds end with a success or with another error. *)
Inductive namespace_rounds : list (Api * Z) -> option DWORD -> Prop :=
| round_created :
    namespace_rounds [(ApiCreatePrivateNamespaceW, 0)] None
| round_opened :
    namespace_rounds [(ApiCreatePrivateNamespaceW, ERROR_ALREADY_EXISTS);
                      (ApiOpenPrivateNamespaceW, 0)] None
| round_create_failed e :
    e <> 0 -> e <> ERROR_ALREADY_EXISTS ->
    namespace_rounds [(ApiCreatePrivateNamespaceW, e)] (Some e)
| round_open_failed e :
    e <> 0 -> e <> ERROR_PATH_NOT_FOUND ->
    namespace_rounds [(ApiCreatePrivateNamespaceW, ERROR_ALREADY_EXISTS);
                      (ApiOpenPrivateNamespaceW, e)] (Some e)
| round_again j r :
    namespace_rounds j r ->
    namespace_rounds ((ApiCreatePrivateNamespaceW, ERROR_ALREADY_EXISTS)
                      :: (ApiOpenPrivateNamespaceW, ERROR_PATH_NOT_FOUND) :: j) r.

(** The name a pool gets, by the specification: the prefix and the 64
    hexadecimal digits of the digest. *)
Definition hex_of (Hash : list BYTE) : list WCHAR :=
  flat_map (fun b => [hex_digit ((b mod 256) / 16); hex_digit ((b mod 256) mod 16)]) Hash.

Definition is_lower_hex (c : WCHAR) : bool :=
  ((48 <=? c) && (c <=? 57)) || ((97 <=? c) && (c <=? 102)).

(** What [NamespaceTakePoolMutex] gives to the hash object for a normalized
    name [n] (the block holds [n] and a terminator), and the name of the
    mutex that comes of it. *)
Definition name_bytes_hashed (n : list WCHAR) : list BYTE :=
  firstn (Z.to_nat (ULONG_of_int (int_of_size_t (wcslen (n ++ [0])) + 2)))
         (bytes_of_wchars (n ++ [0])).

Definition label_bytes_hashed : list BYTE :=
  firstn (Z.to_nat (sizeof_wchars mutex_label)) (bytes_of_wchars mutex_label).

Definition pool_mutex_name (n : list WCHAR) : list WCHAR :=
  c_str (MutexName_of (SHA256.digest (label_bytes_hashed ++ name_bytes_hashed n))).

Arguments SHA256.digest : simpl never.
Arguments without : simpl never.
Arguments MutexName_of : simpl never.
Arguments pool_mutex_name : simpl never.
Arguments name_bytes_hashed : simpl never.
Arguments label_bytes_hashed : simpl never.
Arguments bytes_of_wchars : simpl never.
Arguments wide : simpl never.

(* ================================================================== *)
(** ** Statements

    What the lemmas and theorems below say of runs. *)

Definition failed_attempt (bd : HANDLE) (e : Event) : Prop :=
  e = CallCreatePrivateNamespaceW bd (wide "WireGuard") NULL \/
  e = CallOpenPrivateNamespaceW bd (wide "WireGuard") NULL.

Definition successful_attempt (bd h : HANDLE) (e : Event) : Prop :=
  e = CallCreatePrivateNamespaceW bd (wide "WireGuard") h \/
  e = CallOpenPrivateNamespaceW bd (wide "WireGuard") h.

(** What the loop of lines 87-102 leaves behind. *)
Definition namespace_loop_post (st : State) (r : option DWORD) (st' : State) : Prop :=
  BoundaryDescriptor st' = BoundaryDescriptor st /\
  Initializing st' = Initializing st /\
  AlgProvider st' = AlgProvider st /\
  hashes st' = hashes st /\
  (exists j, answered st' = j ++ answered st /\ namespace_rounds (rev j) r /\
             Forall (fun a => fst a = ApiCreatePrivateNamespaceW \/
                              fst a = ApiOpenPrivateNamespaceW) j) /\
  match r with
  | None =>
      PrivateNamespace st' = Z.pos (next_handle st) /\
      next_handle st' = Pos.succ (next_handle st) /\
      live st' = (KNamespace, PrivateNamespace st') :: live st /\
      logged st' = logged st /\
      exists e old, calls st' = e :: old ++ calls st /\
                    successful_attempt (BoundaryDescriptor st) (PrivateNamespace st') e /\
                    Forall (failed_attempt (BoundaryDescriptor st)) old
  | Some e =>
      PrivateNamespace st' = NULL /\
      next_handle st' = next_handle st /\
      live st' = live st /\
      last_error st' = e /\
      (exists msg, logged st' = mkLog msg e [] :: logged st) /\
      exists old, calls st' = old ++ calls st /\
                  Forall (failed_attempt (BoundaryDescriptor st)) old
  end.

(** The calls [NamespaceRuntimeInit] makes. *)
Definition is_init_call (e : Event) : bool :=
  match e with
  | CallEnterCriticalSection | CallLeaveCriticalSection
  | CallBCryptOpenAlgorithmProvider _ | CallBCryptCloseAlgorithmProvider _
  | CallCreateWellKnownSid _ | CallCreateBoundaryDescriptorW _ _
  | CallAddSIDToBoundaryDescriptor _ _ | CallDeleteBoundaryDescriptor _
  | CallCreatePrivateNamespaceW _ _ _ | CallOpenPrivateNamespaceW _ _ _
  | CallSetLastError _ => true
  | _ => false
  end.

Definition is_namespace_api (a : Api * Z) : bool :=
  match fst a with
  | ApiCreatePrivateNamespaceW | ApiOpenPrivateNamespaceW => true
  | _ => false
  end.

(** The error code that a failed call of [NamespaceRuntimeInit] leaves. *)
Definition surfaced (P : Platform) (a : Api * Z) : DWORD :=
  match fst a with
  | ApiBCryptOpenAlgorithmProvider => RtlNtStatusToDosError P (snd a)
  | _ => snd a
  end.

Definition call_failed (a : Api * Z) : Prop :=
  match fst a with
  | ApiBCryptOpenAlgorithmProvider => snd a < 0
  | _ => snd a <> 0
  end.

(** The three ways [NamespaceRuntimeInit] ends. *)
Definition init_fast (st : State) (b : bool) (st' : State) : Prop :=
  PrivateNamespace st <> NULL /\ b = true /\
  st' = with_calls (CallLeaveCriticalSection :: CallEnterCriticalSection :: calls st) st.

Definition init_done (st : State) (b : bool) (st' : State) : Prop :=
  PrivateNamespace st = NULL /\ b = true /\
  AlgProvider st' = Z.pos (next_handle st) /\
  BoundaryDescriptor st' = Z.pos (Pos.succ (next_handle st)) /\
  PrivateNamespace st' = Z.pos (Pos.succ (Pos.succ (next_handle st))) /\
  next_handle st' = Pos.succ (Pos.succ (Pos.succ (next_handle st))) /\
  live st' = (KNamespace, PrivateNamespace st') :: (KBoundary, BoundaryDescriptor st')
             :: (KAlgorithm, AlgProvider st') :: live st /\
  logged st' = logged st /\
  exists body j,
    calls st' = CallLeaveCriticalSection :: body ++ CallEnterCriticalSection :: calls st /\
    Forall (fun c => released_by c = None /\ is_init_call c = true) body /\
    pick acquired_by body = [ (KNamespace, PrivateNamespace st');
                              (KBoundary, BoundaryDescriptor st');
                              (KAlgorithm, AlgProvider st') ] /\
    answered st' = j ++ answered st /\
    namespace_rounds (filter is_namespace_api (rev j)) None.

Definition init_failed (P : Platform) (st : State) (b : bool) (st' : State) : Prop :=
  PrivateNamespace st = NULL /\ b = false /\
  PrivateNamespace st' = NULL /\
  incl (live st') (live st) /\
  (next_handle st <= next_handle st')%positive /\
  (exists msg code, logged st' = mkLog msg code [] :: logged st) /\
  exists releases body a j,
    calls st' = CallSetLastError (last_error st') :: CallLeaveCriticalSection
                :: releases ++ body ++ CallEnterCriticalSection :: calls st /\
    Forall (fun c => released_by c <> None /\ is_init_call c = true) releases /\
    Forall (fun c => released_by c = None /\ is_init_call c = true) body /\
    pick released_by releases = rev (pick acquired_by body) /\
    (forall r, In r (pick acquired_by body) -> ~ In r (live st')) /\
    answered st' = a :: j ++ answered st /\
    call_failed a /\
    last_error st' = surfaced P a /\
    (filter is_namespace_api (rev (a :: j)) = [] \/
     namespace_rounds (filter is_namespace_api (rev (a :: j))) (Some (last_error st'))).

Definition init_post (P : Platform) (st : State) (b : bool) (st' : State) : Prop :=
  Initializing st' = Initializing st /\
  hashes st' = hashes st /\
  (init_fast st b st' \/ init_done st b st' \/ init_failed P st b st').

(** [st] and the result of a run from it, both with [z] as the next answer
    to a wait. *)
Definition awaiting (z : Z) (st : State) : State :=
  answering ApiWaitForSingleObject z st.

Definition then_awaiting {A} (z : Z) (r : Res A) : Res A :=
  match r with
  | Ok a st => Ok a (awaiting z st)
  | Fault k => Fault k
  end.

(** A change of the state that leaves the namespace context alone: the
    variables keep their values, the resources of the context stay as they
    are, and what else is held was held before or is new. *)
Definition quiet_change (st st' : State) : Prop :=
  PrivateNamespace st' = PrivateNamespace st /\
  BoundaryDescriptor st' = BoundaryDescriptor st /\
  Initializing st' = Initializing st /\
  AlgProvider st' = AlgProvider st /\
  (next_handle st <= next_handle st')%positive /\
  context_live st' = context_live st /\
  (forall r, In r (live st') ->
             In r (live st) \/ Z.pos (next_handle st) <= snd r < Z.pos (next_handle st')).

Definition is_normalize_call (e : Event) : bool :=
  match e with
  | CallNormalizeString _ _ _ | CallAllocArray _ _ | CallFree _ => true
  | _ => false
  end.

Section NormalizePost.

Variable P : Platform.

(** What [NormalizeStringAlloc] leaves behind: a block with the normalized
    text and its terminator, or nothing. *)
Definition normalize_post (NormForm : NORM_FORM) (Source : list WCHAR)
    (st : State) (r : option (HANDLE * list WCHAR)) (st' : State) : Prop :=
  quiet_change st st' /\
  hashes st' = hashes st /\
  (exists new, calls st' = new ++ calls st /\
               Forall (fun c => is_normalize_call c = true) new) /\
  match r with
  | Some (Str, mem) =>
      exists n, normalize P NormForm Source = Some n /\ mem = n ++ [0] /\
                Str <> NULL /\ Str < Z.pos (next_handle st')
  | None => True
  end.

End NormalizePost.

(** The names of the mutexes that were created, the data that was hashed,
    and the handles that were waited for, most recent first. *)
Definition mutex_names (l : list Event) : list (list WCHAR) :=
  pick (fun e => match e with CallCreateMutexW Name _ => Some Name | _ => None end) l.

Definition hashed (l : list Event) : list (list BYTE) :=
  pick (fun e => match e with CallBCryptHashData _ d => Some d | _ => None end) l.

Definition waited (l : list Event) : list HANDLE :=
  pick (fun e => match e with CallWaitForSingleObject h _ => Some h | _ => None end) l.

Definition released (l : list Event) : list HANDLE :=
  pick (fun e => match e with CallReleaseMutex h => Some h | _ => None end) l.

Section AcquirePost.

Variable P : Platform.

(** What the part of an acquisition after the initialization leaves behind;
    [about] says what its calls are. *)
Definition acquire_post (about : list Event -> Prop)
    (st1 : State) (ret : HANDLE) (st' : State) : Prop :=
  PrivateNamespace st' = PrivateNamespace st1 /\
  BoundaryDescriptor st' = BoundaryDescriptor st1 /\
  Initializing st' = Initializing st1 /\
  AlgProvider st' = AlgProvider st1 /\
  (next_handle st1 <= next_handle st')%positive /\
  ((forall r, In r (live st1) -> snd r < Z.pos (next_handle st1)) ->
   context_live st' = context_live st1) /\
  (forall r, In r (live st') ->
             In r (live st1) \/ Z.pos (next_handle st1) <= snd r < Z.pos (next_handle st')) /\
  exists new,
    calls st' = new ++ calls st1 /\
    released new = [] /\
    about new.

(** The calls of [NamespaceTakePoolMutex]: no mutex, or one whose name is
    made of the digest of the label and of the normalized name. *)
Definition pool_calls (Pool : list WCHAR) (new : list Event) : Prop :=
  mutex_names new = [] \/
  exists n, normalize P NormalizationC Pool = Some n /\
            mutex_names new = [pool_mutex_name n] /\
            hashed new = [name_bytes_hashed n; label_bytes_hashed].

(** The calls of [NamespaceTakeDriverInstallationMutex]: nothing is hashed,
    and the only name is the fixed one. *)
Definition installation_calls (new : list Event) : Prop :=
  hashed new = [] /\
  (mutex_names new = [] \/ mutex_names new = [DriverInstallationMutexName]).

Definition pool_post (Pool : list WCHAR) := acquire_post (pool_calls Pool).

Definition installation_post := acquire_post installation_calls.

End AcquirePost.

(** What an acquisition does with the answer [r] to its wait: without a
    wait it has failed before; with one, it returns the handle it waited
    for when [r] is [WAIT_OBJECT_0] or [WAIT_ABANDONED], and otherwise closes
    that handle, sets [ERROR_GEN_FAILURE] and returns [NULL].  It never
    calls [ReleaseMutex]. *)
Definition wait_outcome (r : DWORD) (st : State) (ret : HANDLE) (st' : State) : Prop :=
  let new := calls_since st st' in
  released new = [] /\
  match waited new with
  | [] => ret = NULL
  | h :: more =>
      more = [] /\ h <> NULL /\
      if (r =? WAIT_OBJECT_0) || (r =? WAIT_ABANDONED)
      then ret = h /\ In (KMutex, h) (live st') /\ ~ In (CallCloseHandle h) new
      else ret = NULL /\ last_error st' = ERROR_GEN_FAILURE /\
           exists after before,
             new = CallSetLastError ERROR_GEN_FAILURE
                   :: after ++ CallCloseHandle h
                   :: CallWaitForSingleObject h INFINITE :: before
  end.

(** Runs on the sample platform, from the start of the process: the module
    is set up by [NamespaceInit], then the function is called. *)
Definition set_up (answers : list (Api * Z)) : State :=
  with_Initializing (CsReady 0)
    (with_calls [CallInitializeCriticalSection] (boot answers)).

Definition run_pool (answers : list (Api * Z)) (Pool : list WCHAR) : Res HANDLE :=
  (NamespaceInit ;; NamespaceTakePoolMutex sample_platform Pool) (boot answers).

Definition run_installation (answers : list (Api * Z)) : Res HANDLE :=
  (NamespaceInit ;; NamespaceTakeDriverInstallationMutex sample_platform) (boot answers).

Definition returned {A} (r : Res A) : option A :=
  match r with Ok a _ => Some a | Fault _ => None end.

Definition calls_of {A} (r : Res A) : list Event :=
  match r with Ok _ st => calls st | Fault _ => [] end.

Definition last_error_of {A} (r : Res A) : option DWORD :=
  match r with Ok _ st => Some (last_error st) | Fault _ => None end.

Definition Pool1 : list WCHAR := wide "Pool1".

Definition Pool2 : list WCHAR := wide "Pool2".

(** Two spellings of one name: [e] with a combining acute accent, and the
    composed letter. *)
Definition cafe_decomposed : list WCHAR := [0x63; 0x61; 0x66; 0x65; 0x301].

Definition cafe_composed : list WCHAR := [0x63; 0x61; 0x66; 0xE9].

Definition state_of {A} (r : Res A) : State :=
  match r with Ok _ st => st | Fault _ => boot [] end.

(** The handles given to [CloseHandle]. *)
Definition closed (l : list Event) : list HANDLE :=
  pick (fun e => match e with CallCloseHandle h => Some h | _ => None end) l.

(** The form of the name of a pool's mutex: the prefix and the 64 lower
    case hexadecimal digits of the 32 bytes of the digest. *)
Definition pool_name_format (P : Platform) (Pool Name : list WCHAR) : Prop :=
  exists n digest,
    normalize P NormalizationC Pool = Some n /\
    digest = SHA256.digest (label_bytes_hashed ++ name_bytes_hashed n) /\
    List.length digest = 32%nat /\
    Name = wide "WireGuard\WireGuard-Name-Mutex-" ++ hex_of digest /\
    List.length (hex_of digest) = 64%nat /\
    forallb is_lower_hex (hex_of digest) = true.

(** How the answers to the creations and openings of the namespace in one
    call of [NamespaceRuntimeInit] end, and what the call makes of it. *)
Definition rounds_outcome (tries : list (Api * Z)) (b : bool) (st' : State) : Prop :=
  tries = [] \/
  exists r,
    namespace_rounds tries r /\
    match r with
    | None => b = true /\ PrivateNamespace st' <> NULL
    | Some e =>
        b = false /\ PrivateNamespace st' = NULL /\ last_error st' = e /\
        exists before,
          (tries = before ++ [(ApiCreatePrivateNamespaceW, e)] /\
           e <> 0 /\ e <> ERROR_ALREADY_EXISTS) \/
          (tries = before ++ [(ApiCreatePrivateNamespaceW, ERROR_ALREADY_EXISTS);
                              (ApiOpenPrivateNamespaceW, e)] /\
           e <> 0 /\ e <> ERROR_PATH_NOT_FOUND)
    end.

Definition retried (tries : list (Api * Z)) : Prop :=
  forall before after,
    tries = before ++ (ApiOpenPrivateNamespaceW, ERROR_PATH_NOT_FOUND) :: after ->
    exists z rest, after = (ApiCreatePrivateNamespaceW, z) :: rest.

(** What a failed [NamespaceRuntimeInit] leaves: the calls that give back
    come after the calls that acquire and undo them last first, then the
    critical section is left and the error is set; the error is that of the
    last answer, which is a failure; no namespace is recorded. *)
Definition unwound (P : Platform) (st st' : State) : Prop :=
  PrivateNamespace st' = NULL /\
  Initializing st' = Initializing st /\
  incl (live st') (live st) /\
  (exists releases body,
     calls_since st st' =
       CallSetLastError (last_error st') :: CallLeaveCriticalSection
       :: releases ++ body ++ [CallEnterCriticalSection] /\
     Forall (fun c => released_by c <> None) releases /\
     Forall (fun c => released_by c = None) body /\
     pick released_by releases = rev (pick acquired_by body) /\
     forall r, In r (pick acquired_by body) -> ~ In r (live st')) /\
  (exists before a,
     answers_since st st' = before ++ [a] /\
     call_failed a /\ last_error st' = surfaced P a) /\
  (forall Pool, NamespaceTakePoolMutex P Pool st = Ok NULL st') /\
  NamespaceTakeDriverInstallationMutex P st = Ok NULL st'.

(** Every function of the module keeps the context whole. *)
Definition keeps_context (P : Platform) (st : State) : Prop :=
  (forall st', NamespaceInit st = Ok tt st' -> context_consistent st') /\
  (forall b st', NamespaceRuntimeInit P st = Ok b st' -> context_consistent st') /\
  (forall Pool ret st',
     NamespaceTakePoolMutex P Pool st = Ok ret st' -> context_consistent st') /\
  (forall ret st',
     NamespaceTakeDriverInstallationMutex P st = Ok ret st' -> context_consistent st') /\
  (forall Mutex st',
     Mutex <> PrivateNamespace st ->
     NamespaceReleaseMutex Mutex st = Ok tt st' -> context_consistent st') /\
  (forall st', NamespaceDone st = Ok tt st' ->
               context_consistent st' /\ context_live st' = []).

(** After [NamespaceDone] the critical section is deleted and an acquisition
    has no defined behaviour; once [NamespaceInit] has run again an
    acquisition returns, and where the system hinders nothing it
    initializes anew and returns a mutex. *)
Definition torn_down (P : Platform) (st1 : State) : Prop :=
  PrivateNamespace st1 = NULL /\
  Initializing st1 = CsDeleted /\
  (forall Pool, NamespaceTakePoolMutex P Pool st1 = Fault BadCriticalSection) /\
  NamespaceTakeDriverInstallationMutex P st1 = Fault BadCriticalSection /\
  forall st2, NamespaceInit st1 = Ok tt st2 ->
    forall Pool,
      (exists ret st3, NamespaceTakePoolMutex P Pool st2 = Ok ret st3) /\
      forall n, script st1 = [] -> normalize P NormalizationC Pool = Some n ->
        exists ret st3,
          NamespaceTakePoolMutex P Pool st2 = Ok ret st3 /\
          ret <> NULL /\ PrivateNamespace st3 <> NULL /\
          In (KMutex, ret) (live st3) /\
          mutex_names (calls_since st2 st3) = [pool_mutex_name n].

Definition open_denied : list (Api * Z) :=
  [ (ApiCreatePrivateNamespaceW, ERROR_ALREADY_EXISTS);
    (ApiOpenPrivateNamespaceW, ERROR_PATH_NOT_FOUND);
    (ApiCreatePrivateNamespaceW, ERROR_ALREADY_EXISTS);
    (ApiOpenPrivateNamespaceW, 5) ].

(** Handles in use are below the next one to be given out. *)
Definition handles_fresh (st : State) : Prop :=
  forall x, In x (live st) -> snd x < Z.pos (next_handle st).

Definition is_normalize_api (a : Api * Z) : Prop :=
  fst a = ApiAllocArray \/ fst a = ApiNormalizeString.

(** Why [NormalizeStringAlloc] returns no block: the last answer of the
    system is a failed allocation, whose error stays the last error, or
    that of a normalization of text that has no normal form, which is
    logged. *)
Definition normalize_failure (P : Platform) (NormForm : NORM_FORM) (Source : list WCHAR)
    (st st' : State) : Prop :=
  (exists e j, answered st' = (ApiAllocArray, e) :: j ++ answered st /\ e <> 0 /\
               last_error st' = e /\ logged st' = logged st) \/
  (exists z j,
     normalize P NormForm Source = None /\
     answered st' = (ApiNormalizeString, z) :: j ++ answered st /\
     last_error st' = ERROR_NO_UNICODE_TRANSLATION /\
     logged st' = mkLog "Failed: %s" ERROR_NO_UNICODE_TRANSLATION Source :: logged st).

(** What [NormalizeStringAlloc] does to the journal of answers and to what
    is held. *)
Definition normalize_yield (P : Platform) (NormForm : NORM_FORM) (Source : list WCHAR)
    (st : State) (r : option (HANDLE * list WCHAR)) (st' : State) : Prop :=
  (exists j, answered st' = j ++ answered st /\ Forall is_normalize_api j) /\
  (handles_fresh st ->
     match r with
     | Some (Str, _) => live st' = (KHeap, Str) :: live st /\ Z.pos (next_handle st) <= Str
     | None => live st' = live st
     end) /\
  (r = None -> normalize_failure P NormForm Source st st').

(** The calls on the critical section. *)
Definition is_lock_call (e : Event) : bool :=
  match e with
  | CallInitializeCriticalSection | CallEnterCriticalSection
  | CallLeaveCriticalSection | CallDeleteCriticalSection => true
  | _ => false
  end.

Definition is_namespace_call (e : Event) : bool :=
  match e with
  | CallCreatePrivateNamespaceW _ _ _ | CallOpenPrivateNamespaceW _ _ _ => true
  | _ => false
  end.

(** The answers [NamespaceRuntimeInit] asks for. *)
Definition is_init_api (a : Api * Z) : bool :=
  match fst a with
  | ApiBCryptOpenAlgorithmProvider | ApiCreateWellKnownSid
  | ApiCreateBoundaryDescriptorW | ApiAddSIDToBoundaryDescriptor
  | ApiCreatePrivateNamespaceW | ApiOpenPrivateNamespaceW => true
  | _ => false
  end.

(** What is held besides the context: hash objects, blocks, mutexes. *)
Definition is_other_kind (r : Resource) : bool := negb (is_context_kind r).

(** Line 69: the SID of the boundary. *)
Definition chosen_sid (P : Platform) : WELL_KNOWN_SID_TYPE :=
  if IsLocalSystem P then WinLocalSystemSid else WinBuiltinAdministratorsSid.

(** The arguments of the calls that build the context, for the boundary
    descriptor [bd]. *)
Definition init_call_ok (P : Platform) (bd : HANDLE) (e : Event) : Prop :=
  match e with
  | CallCreateWellKnownSid t => t = chosen_sid P
  | CallCreateBoundaryDescriptorW Name _ => Name = wide "WireGuard"
  | CallAddSIDToBoundaryDescriptor b t => b = bd /\ b <> NULL /\ t = chosen_sid P
  | CallCreatePrivateNamespaceW b Name _
  | CallOpenPrivateNamespaceW b Name _ => b = bd /\ b <> NULL /\ Name = wide "WireGuard"
  | _ => True
  end.

(** What a run of [NamespaceRuntimeInit] from [st] to [st'] has called and
    asked, and what it has left of what is held besides the context. *)
Definition init_yield (P : Platform) (st st' : State) : Prop :=
  exists new j,
    calls st' = new ++ calls st /\
    answered st' = j ++ answered st /\
    Forall (fun a => is_init_api a = true) j /\
    filter is_lock_call new = [CallLeaveCriticalSection; CallEnterCriticalSection] /\
    Forall (init_call_ok P (BoundaryDescriptor st')) new /\
    (forall after e before,
       new = after ++ e :: before -> is_namespace_call e = true ->
       In (CallAddSIDToBoundaryDescriptor (BoundaryDescriptor st') (chosen_sid P)) before) /\
    filter is_other_kind (live st') = filter is_other_kind (live st).

(** The answer that makes an acquisition fail, and the error the
    acquisition then leaves as the last error of the thread. *)
Definition acquire_failed (a : Api * Z) : Prop :=
  match fst a with
  | ApiBCryptOpenAlgorithmProvider | ApiBCryptCreateHash
  | ApiBCryptHashData | ApiBCryptFinishHash => snd a < 0
  | ApiWaitForSingleObject => snd a <> WAIT_OBJECT_0 /\ snd a <> WAIT_ABANDONED
  | ApiNormalizeString => True
  | _ => snd a <> 0
  end.

Definition acquire_surfaced (P : Platform) (a : Api * Z) : DWORD :=
  match fst a with
  | ApiBCryptOpenAlgorithmProvider | ApiBCryptCreateHash
  | ApiBCryptHashData | ApiBCryptFinishHash => RtlNtStatusToDosError P (snd a)
  | ApiWaitForSingleObject => ERROR_GEN_FAILURE
  | ApiNormalizeString => ERROR_NO_UNICODE_TRANSLATION
  | _ => snd a
  end.

(** The answers [j] of a failed acquisition, most recent first: the answer
    [a] of the step that failed, after which only [CloseHandle] is
    answered. *)
Definition failure_in (P : Platform) (j : list (Api * Z)) (st' : State) : Prop :=
  exists after a before,
    j = after ++ a :: before /\
    Forall (fun x => fst x = ApiCloseHandle) after /\
    acquire_failed a /\
    last_error st' = acquire_surfaced P a.

(** What is held after the part of an acquisition that follows the
    initialization: the mutex that is returned and what was held before;
    after a failure what was held before, and a mutex only if [CloseHandle]
    failed on it. *)
Definition held_after (st1 : State) (j : list (Api * Z)) (ret : HANDLE) (st' : State) : Prop :=
  if ret =? NULL then
    live st' = live st1 \/
    exists m e, live st' = (KMutex, m) :: live st1 /\ In (ApiCloseHandle, e) j /\ e <> 0
  else
    live st' = (KMutex, ret) :: live st1 /\ Z.pos (next_handle st1) <= ret.

(** A call of [NamespaceTakePoolMutex] after the initialization: none on
    the critical section, and the hash object is made with the algorithm
    provider [alg]. *)
Definition pool_call_ok (alg : HANDLE) (e : Event) : Prop :=
  is_lock_call e = false /\
  match e with
  | CallBCryptCreateHash a _ => a = alg
  | _ => True
  end.

(** What the part of [NamespaceTakePoolMutex] after the initialization has
    called and asked, what it has left held, and how it has failed. *)
Definition pool_yield (P : Platform) (st1 : State) (ret : HANDLE) (st' : State) : Prop :=
  exists new j,
    calls st' = new ++ calls st1 /\
    answered st' = j ++ answered st1 /\
    Forall (pool_call_ok (AlgProvider st1)) new /\
    (handles_fresh st1 -> held_after st1 j ret st') /\
    (ret = NULL ->
       failure_in P j st' /\
       exists rest, new = CallSetLastError (last_error st') :: rest) /\
    (ret <> NULL -> exists Name, In (CallCreateMutexW Name ret) new).

(** The same for [NamespaceTakeDriverInstallationMutex], with the two ways
    it fails after the initialization: the mutex cannot be created, and the
    last error is left as the system has set it; or the wait fails, the
    handle is closed and [ERROR_GEN_FAILURE] is set. *)
Definition installation_failure (st1 : State) (new : list Event) (j : list (Api * Z))
    (st' : State) : Prop :=
  (exists e,
     j = [(ApiCreateMutexW, e)] /\ e <> 0 /\ last_error st' = e /\
     new = [CallCreateMutexW DriverInstallationMutexName NULL] /\
     logged st' = mkLog "Failed to create mutex" e [] :: logged st1) \/
  (exists r c m,
     j = [(ApiCloseHandle, c); (ApiWaitForSingleObject, r); (ApiCreateMutexW, 0)] /\
     r <> WAIT_OBJECT_0 /\ r <> WAIT_ABANDONED /\
     last_error st' = ERROR_GEN_FAILURE /\ m <> NULL /\
     new = [CallSetLastError ERROR_GEN_FAILURE; CallCloseHandle m;
            CallWaitForSingleObject m INFINITE;
            CallCreateMutexW DriverInstallationMutexName m]).

Definition installation_yield (st1 : State) (ret : HANDLE) (st' : State) : Prop :=
  exists new j,
    calls st' = new ++ calls st1 /\
    answered st' = j ++ answered st1 /\
    Forall (fun e => is_lock_call e = false) new /\
    (handles_fresh st1 -> held_after st1 j ret st') /\
    (ret = NULL -> installation_failure st1 new j st') /\
    (ret <> NULL -> In (CallCreateMutexW DriverInstallationMutexName ret) new).

(** What a call uses and gives back before it returns: hash objects and
    blocks of memory. *)
Definition is_scratch_kind (r : Resource) : bool :=
  match fst r with
  | KHash | KHeap => true
  | _ => false
  end.

(** The calls that make a mutex or wait for one. *)
Definition is_mutex_call (e : Event) : bool :=
  match e with
  | CallCreateMutexW _ _ | CallWaitForSingleObject _ _ => true
  | _ => false
  end.

(** A 16-bit code unit, a byte. *)
Definition is_wchar (c : WCHAR) : Prop := 0 <= c < 65536.
Definition is_byte (b : BYTE) : Prop := 0 <= b < 256.

(** A normalized name as the program can hold it: code units that are not
    zero, and a length that an [int] can take. *)
Definition is_name (n : list WCHAR) : Prop :=
  Forall (fun c => c <> 0) n /\ Z.of_nat (List.length n) + 2 < 2 ^ 31.

(** The two invariants as tests, for states that are given in full. *)
Definition handles_freshb (st : State) : bool :=
  forallb (fun x => snd x <? Z.pos (next_handle st)) (live st).

Definition context_consistentb (st : State) : bool :=
  handles_freshb st &&
  if PrivateNamespace st =? NULL
  then (if list_eq_dec Resource_eq_dec (context_live st) [] then true else false)
  else (if list_eq_dec Resource_eq_dec (context_live st)
             [ (KNamespace, PrivateNamespace st);
               (KBoundary, BoundaryDescriptor st);
               (KAlgorithm, AlgProvider st) ]
        then true else false).

(* ================================================================== *)
(** ** Lemmas on the model *)

Lemma Api_eqb_eq a b : Api_eqb a b = true <-> a = b.
Proof. unfold Api_eqb. destruct (Api_eq_dec a b); split; congruence. Qed.

Lemma Api_eqb_refl a : Api_eqb a a = true.
Proof. apply Api_eqb_eq. reflexivity. Qed.

Lemma Api_eqb_neq a b : a <> b -> Api_eqb a b = false.
Proof. unfold Api_eqb. destruct (Api_eq_dec a b); congruence. Qed.

Lemma pending_cons api a z s :
  pending api ((a, z) :: s) = ((if Api_eqb a api then 1 else 0) + pending api s)%nat.
Proof. unfold pending. simpl. destruct (Api_eqb a api); reflexivity. Qed.

Lemma take_cons api a z s :
  take api ((a, z) :: s) =
  if Api_eqb a api then (z, s) else (fst (take api s), (a, z) :: snd (take api s)).
Proof. simpl. destruct (Api_eqb a api); [reflexivity|]. destruct (take api s); reflexivity. Qed.

Lemma take_pending_other api api' s :
  api <> api' -> pending api (snd (take api' s)) = pending api s.
Proof.
  intros Hne. induction s as [|[a z] s IH]; [reflexivity|].
  rewrite take_cons. destruct (Api_eqb a api') eqn:E; simpl.
  - apply Api_eqb_eq in E. subst a. rewrite pending_cons, Api_eqb_neq by congruence.
    reflexivity.
  - rewrite !pending_cons, IH. reflexivity.
Qed.

Lemma take_pending_le api api' s :
  (pending api (snd (take api' s)) <= pending api s)%nat.
Proof.
  induction s as [|[a z] s IH]; [apply Nat.le_refl|].
  rewrite take_cons. destruct (Api_eqb a api') eqn:E; simpl.
  - rewrite pending_cons. lia.
  - rewrite !pending_cons. lia.
Qed.

Lemma take_pending_lt api s :
  fst (take api s) <> 0 -> (pending api (snd (take api s)) < pending api s)%nat.
Proof.
  induction s as [|[a z] s IH]; [simpl; congruence|].
  rewrite take_cons. destruct (Api_eqb a api) eqn:E; simpl.
  - intros _. rewrite pending_cons, E. lia.
  - intros Hz. rewrite !pending_cons, E. specialize (IH Hz). lia.
Qed.

Lemma calls_since_app st st' new :
  calls st' = new ++ calls st -> calls_since st st' = new.
Proof.
  intros H. unfold calls_since. rewrite H, length_app.
  replace (List.length new + List.length (calls st) - List.length (calls st))%nat
    with (List.length new) by lia.
  rewrite firstn_app, firstn_all, Nat.sub_diag. simpl. apply app_nil_r.
Qed.

Lemma answers_since_app st st' j :
  answered st' = j ++ answered st -> answers_since st st' = rev j.
Proof.
  intros H. unfold answers_since. rewrite H, length_app.
  replace (List.length j + List.length (answered st) - List.length (answered st))%nat
    with (List.length j) by lia.
  rewrite firstn_app, firstn_all, Nat.sub_diag. simpl. rewrite app_nil_r. reflexivity.
Qed.

Lemma hex_digit_lower d : 0 <= d < 16 -> is_lower_hex (hex_digit d) = true.
Proof.
  intros H. unfold is_lower_hex, hex_digit.
  destruct (d <? 10) eqn:E; [apply Z.ltb_lt in E | apply Z.ltb_ge in E].
  - apply orb_true_iff. left. apply andb_true_iff. split; apply Z.leb_le; lia.
  - apply orb_true_iff. right. apply andb_true_iff. split; apply Z.leb_le; lia.
Qed.

Lemma hex_digit_nonzero d : 0 <= d -> hex_digit d <> 0.
Proof.
  intros H. unfold hex_digit. destruct (d <? 10) eqn:E; lia.
Qed.

Lemma c_str_terminated l r : Forall (fun c => c <> 0) l -> c_str (l ++ 0 :: r) = l.
Proof.
  induction 1 as [|c l Hc Hl IH]; simpl; [reflexivity|].
  destruct (c =? 0) eqn:E; [apply Z.eqb_eq in E; contradiction|].
  rewrite IH. reflexivity.
Qed.

Lemma hex_of_length Hash : List.length (hex_of Hash) = (2 * List.length Hash)%nat.
Proof. induction Hash as [|b Hash IH]; simpl; lia. Qed.

Lemma hex_of_lower Hash : forallb is_lower_hex (hex_of Hash) = true.
Proof.
  induction Hash as [|b Hash IH]; simpl; [reflexivity|].
  rewrite !hex_digit_lower, IH; [reflexivity| |].
  - apply Z.mod_pos_bound. lia.
  - pose proof (Z.mod_pos_bound b 256 ltac:(lia)).
    split; [apply Z.div_pos; lia | apply Z.div_lt_upper_bound; lia].
Qed.

Lemma hex_of_nonzero Hash : Forall (fun c => c <> 0) (hex_of Hash).
Proof.
  induction Hash as [|b Hash IH]; simpl; [constructor|].
  pose proof (Z.mod_pos_bound b 256 ltac:(lia)).
  constructor; [apply hex_digit_nonzero, Z.div_pos; lia|].
  constructor; [apply hex_digit_nonzero, Z.mod_pos_bound; lia|].
  exact IH.
Qed.

(** The array [MutexName] holds the prefix, the digits and one terminator. *)
Lemma MutexName_of_digest Hash :
  List.length Hash = 32%nat ->
  MutexName_of Hash = wide "WireGuard\WireGuard-Name-Mutex-" ++ hex_of Hash ++ [0].
Proof.
  intros Hlen.
  do 32 (destruct Hash as [|? Hash]; [discriminate Hlen|]).
  destruct Hash; [|discriminate Hlen].
  reflexivity.
Qed.

(** The constants as FIPS 180-4 prints them, and the digest of its first
    example. *)
Lemma sha256_constants :
  List.length SHA256.round_constants = 64%nat /\
  firstn 4 SHA256.round_constants = [0x428a2f98; 0x71374491; 0xb5c0fbcf; 0xe9b5dba5] /\
  skipn 60 SHA256.round_constants = [0x90befffa; 0xa4506ceb; 0xbef9a3f7; 0xc67178f2] /\
  SHA256.initial_hash = [ 0x6a09e667; 0xbb67ae85; 0x3c6ef372; 0xa54ff53a;
                          0x510e527f; 0x9b05688c; 0x1f83d9ab; 0x5be0cd19 ].
Proof. repeat split. Qed.

Lemma sha256_abc :
  hex_of (SHA256.digest (map (fun c => Z.of_nat (nat_of_ascii c)) (list_ascii_of_string "abc"))) =
  wide "ba7816bf8f01cfea414140de5dae2223b00361a396177a9cb410ff61f20015ad".
Proof. vm_compute. reflexivity. Qed.

Lemma compress_length h block : List.length (SHA256.compress h block) = 8%nat.
Proof. unfold SHA256.compress. rewrite length_map, length_combine. reflexivity. Qed.

Lemma blocks_length n : forall h bs,
  List.length h = 8%nat -> List.length (SHA256.blocks n h bs) = 8%nat.
Proof.
  induction n as [|n IH]; intros h bs Hh; simpl; [exact Hh|].
  apply IH, compress_length.
Qed.

Lemma flat_map_be_bytes_length l :
  List.length (flat_map (SHA256.be_bytes 4) l) = (4 * List.length l)%nat.
Proof. induction l as [|x l IH]; [reflexivity|]. cbn [flat_map]. rewrite length_app, IH. cbn [SHA256.be_bytes List.length]. lia. Qed.

(** A digest has 32 bytes. *)
Lemma digest_length msg : List.length (SHA256.digest msg) = 32%nat.
Proof.
  unfold SHA256.digest. rewrite flat_map_be_bytes_length, blocks_length; reflexivity.
Qed.

Lemma pool_mutex_name_format n :
  pool_mutex_name n =
  wide "WireGuard\WireGuard-Name-Mutex-"
  ++ hex_of (SHA256.digest (label_bytes_hashed ++ name_bytes_hashed n)).
Proof.
  unfold pool_mutex_name. rewrite MutexName_of_digest by apply digest_length.
  rewrite app_assoc. apply c_str_terminated.
  apply Forall_app. split; [|apply hex_of_nonzero].
  apply Forall_forall. intros c Hc. vm_compute in Hc.
  repeat (destruct Hc as [<-|Hc]; [discriminate|]). destruct Hc.
Qed.

(** Unfolding the monad and the calls into the system. *)
Ltac unfold_calls :=
  unfold InitializeCriticalSection, EnterCriticalSection, LeaveCriticalSection,
    DeleteCriticalSection, BCryptOpenAlgorithmProvider, BCryptCloseAlgorithmProvider,
    CreateWellKnownSid, CreateBoundaryDescriptorW, AddSIDToBoundaryDescriptor,
    DeleteBoundaryDescriptor, CreatePrivateNamespaceW, OpenPrivateNamespaceW,
    ClosePrivateNamespace, BCryptCreateHash, BCryptHashData, BCryptFinishHash,
    BCryptDestroyHash, CreateMutexW, WaitForSingleObject, ReleaseMutex, CloseHandle,
    AllocArray, Free, LOG_LAST_ERROR, LOG_ERROR, LOG, GetLastError, SetLastError,
    budget, win32, ask, note, fresh, discard, fault, gets, modify, bind, ret in *.

(** One step of a run: name the next answer, or split on the next test. *)
Ltac next_answer :=
  match goal with
  | |- context [take ?a (script ?st)] =>
      let z := fresh "z" in let s := fresh "s" in
      let E := fresh "Etake" in
      destruct (take a (script st)) as [z s] eqn:E; cbn [fst snd] in *
  | |- context [take ?a ?s0] =>
      is_var s0;
      let z := fresh "z" in let s := fresh "s" in
      let E := fresh "Etake" in
      destruct (take a s0) as [z s] eqn:E; cbn [fst snd] in *
  end.

Arguments pending : simpl never.

Ltac forall_list :=
  repeat first [apply Forall_nil | apply Forall_cons; [cbn; auto|]].

Lemma PrivateNamespace_loop_spec fuel : forall st,
  (pending ApiOpenPrivateNamespaceW (script st) < fuel)%nat ->
  exists r st', PrivateNamespace_loop fuel st = Ok r st' /\ namespace_loop_post st r st'.
Proof.
  induction fuel as [|fuel IH]; intros st Hfuel; [lia|].
  destruct st as [ns0 bd0 cs alg0 le scr ans nh lv hs cl lg].
  cbn [PrivateNamespace_loop]. unfold_calls. cbn in Hfuel |- *.
  next_answer.
  destruct (z =? 0) eqn:Ez; cbn.
  - apply Z.eqb_eq in Ez. subst z.
    eexists None, _. split; [reflexivity|].
    unfold namespace_loop_post. cbn. repeat split.
    + exists [(ApiCreatePrivateNamespaceW, 0)]. repeat split; [constructor|]. forall_list.
    + eexists _, []. cbn. repeat split; [left; reflexivity | constructor].
  - apply Z.eqb_neq in Ez.
    destruct (z =? ERROR_ALREADY_EXISTS) eqn:Ex; cbn.
    + apply Z.eqb_eq in Ex. subst z.
      next_answer.
      destruct (z =? 0) eqn:Eo; cbn.
      * apply Z.eqb_eq in Eo. subst z.
        eexists None, _. split; [reflexivity|].
        unfold namespace_loop_post. cbn. repeat split.
        -- exists [(ApiOpenPrivateNamespaceW, 0); (ApiCreatePrivateNamespaceW, ERROR_ALREADY_EXISTS)].
           repeat split; [constructor|]. forall_list.
        -- eexists _, [_]. cbn. repeat split; [right; reflexivity|].
           constructor; [left; reflexivity | constructor].
      * apply Z.eqb_neq in Eo.
        destruct (z =? ERROR_PATH_NOT_FOUND) eqn:Ep; cbn.
        -- apply Z.eqb_eq in Ep. subst z.
           match goal with |- context [PrivateNamespace_loop fuel ?st2] =>
             destruct (IH st2) as (r & st' & Hrun & Hpost) end.
           { cbn. pose proof (take_pending_lt ApiOpenPrivateNamespaceW s) as Hlt.
             rewrite Etake0 in Hlt. cbn in Hlt.
             pose proof (take_pending_le ApiOpenPrivateNamespaceW ApiCreatePrivateNamespaceW scr) as Hle.
             rewrite Etake in Hle. cbn in Hle.
             specialize (Hlt ltac:(discriminate)). lia. }
           exists r, st'. split; [exact Hrun|].
           unfold namespace_loop_post in *. cbn in Hpost.
           destruct Hpost as (Hb & Hi & Ha & Hh & (j & Hj & Hr & Hf) & Hcase).
           repeat split; try assumption.
           ++ exists (j ++ [(ApiOpenPrivateNamespaceW, ERROR_PATH_NOT_FOUND);
                            (ApiCreatePrivateNamespaceW, ERROR_ALREADY_EXISTS)]).
              rewrite Hj, <- app_assoc. repeat split.
              ** rewrite rev_app_distr. cbn. apply round_again. exact Hr.
              ** apply Forall_app. split; [exact Hf|]. forall_list.
           ++ destruct r as [e|].
              ** destruct Hcase as (H1 & H2 & H3 & H4 & H5 & old & H6 & H7).
                 repeat split; try assumption.
                 exists (old ++ [CallOpenPrivateNamespaceW bd0 (wide "WireGuard") NULL;
                                 CallCreatePrivateNamespaceW bd0 (wide "WireGuard") NULL]).
                 rewrite H6, <- app_assoc. split; [reflexivity|].
                 apply Forall_app. split; [exact H7|].
                 constructor; [right; reflexivity|]. constructor; [left; reflexivity|constructor].
              ** destruct Hcase as (H1 & H2 & H3 & H4 & e & old & H6 & H7 & H8).
                 repeat split; try assumption.
                 exists e, (old ++ [CallOpenPrivateNamespaceW bd0 (wide "WireGuard") NULL;
                                 CallCreatePrivateNamespaceW bd0 (wide "WireGuard") NULL]).
                 rewrite H6, <- app_assoc. repeat split; try assumption.
                 apply Forall_app. split; [exact H8|].
                 constructor; [right; reflexivity|]. constructor; [left; reflexivity|constructor].
        -- apply Z.eqb_neq in Ep.
           eexists (Some z), _. split; [reflexivity|].
           unfold namespace_loop_post. cbn. repeat split.
           ++ exists [(ApiOpenPrivateNamespaceW, z); (ApiCreatePrivateNamespaceW, ERROR_ALREADY_EXISTS)].
              repeat split; [constructor; assumption|]. forall_list.
           ++ eexists. reflexivity.
           ++ eexists [_; _]. split; [reflexivity|].
              constructor; [right; reflexivity|]. constructor; [left; reflexivity|constructor].
    + apply Z.eqb_neq in Ex.
      eexists (Some z), _. split; [reflexivity|].
      unfold namespace_loop_post. cbn. repeat split.
      * exists [(ApiCreatePrivateNamespaceW, z)].
        repeat split; [constructor; assumption|]. forall_list.
      * eexists. reflexivity.
      * eexists [_]. split; [reflexivity|].
        constructor; [left; reflexivity|constructor].
Qed.

Arguments PrivateNamespace_loop : simpl never.

Lemma pick_app {A B} (f : A -> option B) l1 l2 :
  pick f (l1 ++ l2) = pick f l1 ++ pick f l2.
Proof.
  induction l1 as [|x l1 IH]; simpl; [reflexivity|].
  destruct (f x); simpl; rewrite IH; reflexivity.
Qed.

Lemma failed_attempts_quiet bd old :
  Forall (failed_attempt bd) old ->
  pick acquired_by old = [] /\
  Forall (fun c => released_by c = None /\ is_init_call c = true) old.
Proof.
  induction 1 as [|e old He Hold [IH1 IH2]]; [split; constructor|].
  destruct He as [-> | ->]; cbn; (split; [exact IH1 | constructor; [split; reflexivity | exact IH2]]).
Qed.

Lemma filter_namespace_answers j :
  Forall (fun a => fst a = ApiCreatePrivateNamespaceW \/ fst a = ApiOpenPrivateNamespaceW) j ->
  filter is_namespace_api j = j.
Proof.
  induction 1 as [|a j Ha Hj IH]; [reflexivity|].
  cbn [filter]. unfold is_namespace_api at 1. rewrite IH.
  destruct Ha as [-> | ->]; reflexivity.
Qed.

Lemma Ok_inj {A} (a b : A) (s s' : State) : Ok a s = Ok b s' -> a = b /\ s = s'.
Proof. intros H. injection H as -> ->. split; reflexivity. Qed.

(** Running a function on a state that is not known: the next answer of the
    script is named, the next test is split, a run that has ended is read. *)
Ltac run_step :=
  match goal with
  | |- Fault _ = Ok _ _ -> _ => discriminate
  | |- Ok _ _ = Ok _ _ -> _ =>
      let H := fresh "H" in
      intros H; apply Ok_inj in H; destruct H as [? ?]; subst
  | |- context [take ?a (script ?st)] =>
      let z := fresh "z" in let s := fresh "s" in let E := fresh "Etake" in
      destruct (take a (script st)) as [z s] eqn:E
  | |- context [take ?a ?s0] =>
      is_var s0;
      let z := fresh "z" in let s := fresh "s" in let E := fresh "Etake" in
      destruct (take a s0) as [z s] eqn:E
  | |- context [match Initializing ?st with _ => _ end] =>
      let E := fresh "Ecs" in destruct (Initializing st) as [|?|] eqn:E
  | |- context [match ?cs with CsRaw => _ | CsReady _ => _ | CsDeleted => _ end] =>
      is_var cs; destruct cs as [|?|]
  | H : ?c = _ |- context [if ?c then _ else _] => rewrite H
  | H : ?c = _ |- context [if negb ?c then _ else _] => rewrite H
  | |- context [if negb ?c then _ else _] =>
      let E := fresh "Eif" in destruct c eqn:E
  | |- context [if ?c then _ else _] =>
      let E := fresh "Eif" in destruct c eqn:E
  end.

Ltac run := repeat (cbn; run_step); cbn.

Lemma in_without r x l : In r (without x l) -> In r l /\ r <> x.
Proof. apply in_remove. Qed.

Lemma without_gone x l : ~ In x (without x l).
Proof. apply remove_In. Qed.

(** Goals on the resources that are left after some were given back. *)
Ltac event_list :=
  repeat first [ apply Forall_nil
               | apply Forall_cons; [cbn; split; solve [discriminate | reflexivity] |] ].

Ltac absurd_eq :=
  match goal with H : _ <> _ |- _ => solve [exfalso; apply H; reflexivity] end.

Ltac live_goal :=
  match goal with
  | |- incl _ _ =>
      let r := fresh "r" in let Hr := fresh "Hr" in
      unfold incl; intros r Hr;
      repeat (apply in_without in Hr; destruct Hr as [Hr ?]);
      cbn in Hr;
      repeat (destruct Hr as [Hr|Hr]; [subst r; absurd_eq|]);
      exact Hr
  | |- forall r, _ -> ~ _ =>
      let r := fresh "r" in let Hr := fresh "Hr" in let Hin := fresh "Hin" in
      intros r Hr Hin;
      repeat (apply in_without in Hin; destruct Hin as [Hin ?]);
      cbn in Hr;
      repeat (destruct Hr as [Hr|Hr]; [subst r; absurd_eq|]);
      try contradiction
  end.

Lemma namespace_rounds_last l r :
  namespace_rounds l r ->
  match r with
  | Some e => exists l' api, l = l' ++ [(api, e)] /\ e <> 0 /\
                             (api = ApiCreatePrivateNamespaceW \/ api = ApiOpenPrivateNamespaceW)
  | None => exists l' api, l = l' ++ [(api, 0)]
  end.
Proof.
  induction 1 as [| |e H0 Hx|e H0 Hp|j r Hj IH].
  - exists [], ApiCreatePrivateNamespaceW. reflexivity.
  - exists [(ApiCreatePrivateNamespaceW, ERROR_ALREADY_EXISTS)], ApiOpenPrivateNamespaceW.
    reflexivity.
  - exists [], ApiCreatePrivateNamespaceW. auto.
  - exists [(ApiCreatePrivateNamespaceW, ERROR_ALREADY_EXISTS)], ApiOpenPrivateNamespaceW. auto.
  - destruct r as [e|].
    + destruct IH as (l' & api & -> & He & Hapi).
      exists ((ApiCreatePrivateNamespaceW, ERROR_ALREADY_EXISTS)
              :: (ApiOpenPrivateNamespaceW, ERROR_PATH_NOT_FOUND) :: l'), api. auto.
    + destruct IH as (l' & api & ->).
      exists ((ApiCreatePrivateNamespaceW, ERROR_ALREADY_EXISTS)
              :: (ApiOpenPrivateNamespaceW, ERROR_PATH_NOT_FOUND) :: l'), api. auto.
Qed.

Lemma rev_eq_snoc {A} (j l : list A) a : rev j = l ++ [a] -> j = a :: rev l.
Proof.
  intros H. rewrite <- (rev_involutive j), H, rev_app_distr. reflexivity.
Qed.

(** The answers of the loop among those of a whole call: the calls before
    the loop are not calls for the namespace. *)
Lemma namespace_answers_of_call j before :
  Forall (fun a => fst a = ApiCreatePrivateNamespaceW \/ fst a = ApiOpenPrivateNamespaceW) j ->
  filter is_namespace_api (rev before) = [] ->
  filter is_namespace_api (rev (j ++ before)) = rev j.
Proof.
  intros Hj Hb. rewrite rev_app_distr, filter_app, Hb. cbn.
  apply filter_namespace_answers, Forall_rev, Hj.
Qed.

Section InitProofs.

Variable P : Platform.

Lemma NamespaceRuntimeInit_spec st b st' :
  NamespaceRuntimeInit P st = Ok b st' -> init_post P st b st'.
Proof.
  unfold NamespaceRuntimeInit, cleanupBoundaryDescriptor, cleanupBCryptCloseAlgorithmProvider,
    cleanupLeaveCriticalSection.
  set (Sid := if IsLocalSystem P then WinLocalSystemSid else WinBuiltinAdministratorsSid).
  unfold_calls.
  destruct st as [ns0 bd0 cs alg0 le scr ans nh lv hs cl lg].
  run.
  - (* the loop *)
    match goal with |- context [PrivateNamespace_loop ?f ?s] =>
      destruct (PrivateNamespace_loop_spec f s) as (r & st2 & Hrun & Hpost);
      [cbn; lia | rewrite Hrun; clear Hrun] end.
    unfold namespace_loop_post in Hpost.
    destruct st2 as [ns2 bd2 cs2 alg2 le2 scr2 ans2 nh2 lv2 hs2 cl2 lg2].
    cbn in Hpost.
    destruct Hpost as (Hb & Hi & Ha & Hh & (j & Hj & Hr & Hf) & Hcase).
    apply Z.eqb_eq in Eif. subst.
    destruct r as [e|]; run.
    + (* the namespace can be neither created nor opened *)
      destruct Hcase as (Hns & Hnext & Hlive & Herr & (msg & Hlog) & old & Hcalls & Hold).
      subst.
      destruct (failed_attempts_quiet _ _ Hold) as [Hq1 Hq2].
      destruct (namespace_rounds_last _ _ Hr) as (l' & api & Hl & He & Hapi).
      pose proof (namespace_answers_of_call j
        [(ApiAddSIDToBoundaryDescriptor, z2); (ApiCreateBoundaryDescriptorW, z1);
         (ApiCreateWellKnownSid, z0); (ApiBCryptOpenAlgorithmProvider, z)] Hf eq_refl) as Hfil.
      apply rev_eq_snoc in Hl. subst j.
      unfold init_post. cbn.
      split; [reflexivity|]. split; [reflexivity|]. right. right.
      unfold init_failed. cbn.
      repeat (split; [first [assumption | reflexivity | live_goal | lia | eauto]|]).
      exists [CallBCryptCloseAlgorithmProvider (Z.pos nh);
              CallDeleteBoundaryDescriptor (Z.pos (Pos.succ nh))],
             (old ++ [CallAddSIDToBoundaryDescriptor (Z.pos (Pos.succ nh)) Sid;
                      CallCreateBoundaryDescriptorW (wide "WireGuard") (Z.pos (Pos.succ nh));
                      CallCreateWellKnownSid Sid;
                      CallBCryptOpenAlgorithmProvider (Z.pos nh)]),
             (api, e),
             (rev l' ++ [(ApiAddSIDToBoundaryDescriptor, z2); (ApiCreateBoundaryDescriptorW, z1);
                         (ApiCreateWellKnownSid, z0); (ApiBCryptOpenAlgorithmProvider, z)]).
      rewrite pick_app, Hq1. cbn.
      split; [rewrite <- !app_assoc; reflexivity|].
      split; [event_list|].
      split; [apply Forall_app; split; [exact Hq2 | event_list]|].
      split; [reflexivity|].
      split; [live_goal|].
      split; [rewrite <- !app_assoc; reflexivity|].
      split; [destruct Hapi; subst api; exact He|].
      split; [destruct Hapi; subst api; reflexivity|].
      right. rewrite <- Hfil in Hr. exact Hr.
    + (* the namespace was created or opened *)
      destruct Hcase as (Hns & Hnext & Hlive & Hlog & c & old & Hcalls & Hc & Hold).
      subst.
      destruct (failed_attempts_quiet _ _ Hold) as [Hq1 Hq2].
      pose proof (namespace_answers_of_call j
        [(ApiAddSIDToBoundaryDescriptor, z2); (ApiCreateBoundaryDescriptorW, z1);
         (ApiCreateWellKnownSid, z0); (ApiBCryptOpenAlgorithmProvider, z)] Hf eq_refl) as Hfil.
      unfold init_post. cbn.
      split; [reflexivity|]. split; [reflexivity|]. right. left.
      unfold init_done. cbn.
      repeat (split; [first [assumption | reflexivity]|]).
      exists (c :: old ++
                [CallAddSIDToBoundaryDescriptor (Z.pos (Pos.succ nh)) Sid;
                 CallCreateBoundaryDescriptorW (wide "WireGuard") (Z.pos (Pos.succ nh));
                 CallCreateWellKnownSid Sid;
                 CallBCryptOpenAlgorithmProvider (Z.pos nh)]),
             (j ++ [(ApiAddSIDToBoundaryDescriptor, z2); (ApiCreateBoundaryDescriptorW, z1);
                    (ApiCreateWellKnownSid, z0); (ApiBCryptOpenAlgorithmProvider, z)]).
      split; [cbn; rewrite <- !app_assoc; reflexivity|].
      split.
      { constructor.
        - destruct Hc as [-> | ->]; split; reflexivity.
        - apply Forall_app. split; [exact Hq2 | event_list]. }
      split.
      { cbn [pick]. rewrite pick_app, Hq1.
        destruct Hc as [-> | ->]; reflexivity. }
      split; [rewrite <- !app_assoc; reflexivity|].
      rewrite Hfil. exact Hr.
  - (* the SID cannot be added to the boundary descriptor *)
    apply Z.eqb_eq in Eif. apply Z.eqb_neq in Eif3.
    unfold init_post. cbn.
    split; [reflexivity|]. split; [reflexivity|]. right. right.
    unfold init_failed. cbn.
    repeat (split; [first [assumption | reflexivity | live_goal | lia | eauto]|]).
    exists [CallBCryptCloseAlgorithmProvider (Z.pos nh);
            CallDeleteBoundaryDescriptor (Z.pos (Pos.succ nh))],
           [CallAddSIDToBoundaryDescriptor (Z.pos (Pos.succ nh)) Sid;
            CallCreateBoundaryDescriptorW (wide "WireGuard") (Z.pos (Pos.succ nh));
            CallCreateWellKnownSid Sid;
            CallBCryptOpenAlgorithmProvider (Z.pos nh)],
           (ApiAddSIDToBoundaryDescriptor, z2),
           [(ApiCreateBoundaryDescriptorW, z1); (ApiCreateWellKnownSid, z0);
            (ApiBCryptOpenAlgorithmProvider, z)].
    cbn.
    repeat (split; [first [assumption | reflexivity | live_goal | event_list]|]).
    left. reflexivity.
  - (* the boundary descriptor cannot be created *)
    apply Z.eqb_eq in Eif. apply Z.eqb_neq in Eif2.
    unfold init_post. cbn.
    split; [reflexivity|]. split; [reflexivity|]. right. right.
    unfold init_failed. cbn.
    repeat (split; [first [assumption | reflexivity | live_goal | lia | eauto]|]).
    exists [CallBCryptCloseAlgorithmProvider (Z.pos nh)],
           [CallCreateBoundaryDescriptorW (wide "WireGuard") NULL;
            CallCreateWellKnownSid Sid;
            CallBCryptOpenAlgorithmProvider (Z.pos nh)],
           (ApiCreateBoundaryDescriptorW, z1),
           [(ApiCreateWellKnownSid, z0); (ApiBCryptOpenAlgorithmProvider, z)].
    cbn.
    repeat (split; [first [assumption | reflexivity | live_goal | event_list]|]).
    left. reflexivity.
  - (* the SID cannot be made *)
    apply Z.eqb_eq in Eif. apply Z.eqb_neq in Eif1.
    unfold init_post. cbn.
    split; [reflexivity|]. split; [reflexivity|]. right. right.
    unfold init_failed. cbn.
    repeat (split; [first [assumption | reflexivity | live_goal | lia | eauto]|]).
    exists [CallBCryptCloseAlgorithmProvider (Z.pos nh)],
           [CallCreateWellKnownSid Sid;
            CallBCryptOpenAlgorithmProvider (Z.pos nh)],
           (ApiCreateWellKnownSid, z0),
           [(ApiBCryptOpenAlgorithmProvider, z)].
    cbn.
    repeat (split; [first [assumption | reflexivity | live_goal | event_list]|]).
    left. reflexivity.
  - (* the algorithm provider cannot be opened *)
    apply Z.eqb_eq in Eif. apply Z.leb_gt in Eif0.
    unfold init_post. cbn.
    split; [reflexivity|]. split; [reflexivity|]. right. right.
    unfold init_failed. cbn.
    repeat (split; [first [assumption | reflexivity | live_goal | lia | eauto]|]).
    exists [], [CallBCryptOpenAlgorithmProvider NULL], (ApiBCryptOpenAlgorithmProvider, z), [].
    cbn.
    repeat (split; [first [assumption | reflexivity | live_goal | event_list]|]).
    left. reflexivity.
  - (* the namespace is there already *)
    apply Z.eqb_neq in Eif.
    unfold init_post. cbn.
    split; [reflexivity|]. split; [reflexivity|]. left.
    unfold init_fast. repeat split. exact Eif.
Qed.

End InitProofs.

(** *** The answer to a wait is of no concern to the initialization *)

Arguments answering api z st /.
Arguments awaiting z st /.

(** The same for a goal that equates two runs. *)
Ltac run_both_step :=
  match goal with
  | |- context [take ?a ?s0] =>
      is_var s0;
      let z := fresh "z" in let s := fresh "s" in let E := fresh "Etake" in
      destruct (take a s0) as [z s] eqn:E
  | |- context [match ?cs with CsRaw => _ | CsReady _ => _ | CsDeleted => _ end] =>
      is_var cs; destruct cs as [|[|?]|]
  | H : ?c = _ |- context [if ?c then _ else _] => rewrite H
  | H : ?c = _ |- context [if negb ?c then _ else _] => rewrite H
  | |- context [if negb ?c then _ else _] =>
      let E := fresh "Eif" in destruct c eqn:E
  | |- context [if ?c then _ else _] =>
      let E := fresh "Eif" in destruct c eqn:E
  end.

Ltac run_both := repeat (cbn; run_both_step); cbn.

Lemma PrivateNamespace_loop_unfold fuel :
  PrivateNamespace_loop (S fuel) =
  (bd <- gets BoundaryDescriptor ;;
   h <- CreatePrivateNamespaceW bd (wide "WireGuard") ;;
   modify (with_PrivateNamespace h) ;;
   if negb (h =? NULL) then ret None
   else
     LastError <- GetLastError ;;
     if LastError =? ERROR_ALREADY_EXISTS then
       bd <- gets BoundaryDescriptor ;;
       h <- OpenPrivateNamespaceW bd (wide "WireGuard") ;;
       modify (with_PrivateNamespace h) ;;
       if negb (h =? NULL) then ret None
       else
         LastError <- GetLastError ;;
         if LastError =? ERROR_PATH_NOT_FOUND then PrivateNamespace_loop fuel
         else
           LOG_ERROR LastError "Failed to open private namespace" ;;
           ret (Some LastError)
     else
       LOG_ERROR LastError "Failed to create private namespace" ;;
       ret (Some LastError)).
Proof. reflexivity. Qed.

Lemma PrivateNamespace_loop_awaiting z fuel : forall st,
  PrivateNamespace_loop fuel (awaiting z st) =
  then_awaiting z (PrivateNamespace_loop fuel st).
Proof.
  induction fuel as [|fuel IH]; intros st; [reflexivity|].
  destruct st as [ns0 bd0 cs alg0 le scr ans nh lv hs cl lg].
  rewrite !PrivateNamespace_loop_unfold.
  unfold_calls. run_both; try reflexivity.
  match goal with |- PrivateNamespace_loop fuel ?a = then_awaiting z (PrivateNamespace_loop fuel ?b) =>
    rewrite <- (IH b) end.
  reflexivity.
Qed.

Section InitAwaiting.

Variable P : Platform.

Lemma NamespaceRuntimeInit_awaiting z st :
  NamespaceRuntimeInit P (awaiting z st) = then_awaiting z (NamespaceRuntimeInit P st).
Proof.
  destruct st as [ns0 bd0 cs alg0 le scr ans nh lv hs cl lg].
  unfold NamespaceRuntimeInit, cleanupBoundaryDescriptor, cleanupBCryptCloseAlgorithmProvider,
    cleanupLeaveCriticalSection.
  set (Sid := if IsLocalSystem P then WinLocalSystemSid else WinBuiltinAdministratorsSid).
  unfold_calls. run_both; try reflexivity.
  all: rewrite pending_cons; cbn.
  all: match goal with
  | |- context [then_awaiting ?w (match PrivateNamespace_loop ?f ?b with _ => _ end)] =>
      pose proof (PrivateNamespace_loop_awaiting w f b) as Hc; cbn in Hc; rewrite Hc;
      destruct (PrivateNamespace_loop f b) as [r st2|k]; [|reflexivity]
  end.
  all: destruct st2 as [ns2 bd2 cs2 alg2 le2 scr2 ans2 nh2 lv2 hs2 cl2 lg2].
  all: destruct r; run_both; reflexivity.
Qed.

End InitAwaiting.

(** *** [NormalizeStringAlloc] *)

Lemma quiet_change_refl st : quiet_change st st.
Proof. unfold quiet_change. repeat split; try reflexivity; auto. Qed.

Lemma quiet_change_trans st1 st2 st3 :
  quiet_change st1 st2 -> quiet_change st2 st3 -> quiet_change st1 st3.
Proof.
  unfold quiet_change.
  intros (A1 & A2 & A3 & A4 & A5 & A6 & A7) (B1 & B2 & B3 & B4 & B5 & B6 & B7).
  repeat split; try congruence; try lia.
  intros r Hr. destruct (B7 r Hr) as [H|H].
  - destruct (A7 r H) as [H'|H']; [left; exact H' | right; lia].
  - right. lia.
Qed.

Lemma context_live_without r l :
  is_context_kind r = false ->
  filter is_context_kind (without r l) = filter is_context_kind l.
Proof.
  intros Hr. unfold without. induction l as [|x l IH]; [reflexivity|].
  cbn [remove]. destruct (Resource_eq_dec r x) as [<-|Hne].
  - cbn [filter]. rewrite Hr. exact IH.
  - cbn [filter]. destruct (is_context_kind x); rewrite IH; reflexivity.
Qed.

Lemma quiet_change_consistent st st' :
  quiet_change st st' -> context_consistent st -> context_consistent st'.
Proof.
  unfold quiet_change, context_consistent.
  intros (A1 & A2 & A3 & A4 & A5 & A6 & A7) (B1 & B2). split.
  - intros r Hr. destruct (A7 r Hr) as [H|H]; [specialize (B1 r H); lia | lia].
  - rewrite A1, A2, A4, A6. exact B2.
Qed.

Section NormalizeProofs.

Variable P : Platform.

Lemma NormalizeStringAlloc_loop_unfold fuel NormForm Source Len :
  NormalizeStringAlloc_loop P (S fuel) NormForm Source Len =
  (Str <- AllocArray Len 2 ;;
   if Str =? NULL then ret None
   else
     r <- NormalizeString P NormForm Source Len ;;
     let Len := fst r in
     if 0 <? Len then ret (Some (Str, snd r))
     else
       Free Str ;;
       e <- GetLastError ;;
       if negb (e =? ERROR_INSUFFICIENT_BUFFER) then
         LOG_LAST_ERROR "Failed: %s" Source ;;
         ret None
       else NormalizeStringAlloc_loop P fuel NormForm Source (- Len)).
Proof. reflexivity. Qed.

End NormalizeProofs.

Arguments NormalizeStringAlloc_loop : simpl never.

Section NormalizeProofs2.

Variable P : Platform.

(** [quiet_change] between a state and one computed from it. *)
Ltac quiet_goal :=
  unfold quiet_change, context_live; cbn;
  repeat match goal with
         | |- _ /\ _ => split
         | |- _ = _ => reflexivity
         | |- (_ <= _)%positive => lia
         | |- filter _ _ = _ =>
             rewrite ?context_live_without by reflexivity; reflexivity
         | |- forall r, _ -> _ =>
             let r := fresh "r" in let Hr := fresh "Hr" in
             intros r Hr;
             repeat (apply in_without in Hr; destruct Hr as [Hr _]);
             cbn in Hr;
             repeat (destruct Hr as [Hr|Hr]; [subst r; cbn; right; lia|]);
             left; exact Hr
         end.

Lemma NormalizeStringAlloc_loop_spec NormForm Source fuel : forall st Len,
  match normalize P NormForm Source with
  | Some n =>
      1 <= Len /\
      (pending ApiNormalizeString (script st) +
       (if (Z.of_nat (List.length n) + 1 <=? Len)%Z then 0 else 1) < fuel)%nat
  | None => (0 < fuel)%nat
  end ->
  exists r st',
    NormalizeStringAlloc_loop P fuel NormForm Source Len st = Ok r st' /\
    normalize_post P NormForm Source st r st'.
Proof.
  induction fuel as [|fuel IH]; intros st Len Hpre.
  { destruct (normalize P NormForm Source); lia. }
  destruct st as [ns0 bd0 cs alg0 le scr ans nh lv hs cl lg].
  rewrite NormalizeStringAlloc_loop_unfold.
  unfold NormalizeString. unfold_calls.
  cbn in Hpre |- *.
  destruct (take ApiAllocArray scr) as [e s1] eqn:Ealloc. cbn.
  destruct (e =? 0) eqn:Ee; cbn.
  2:{ (* no memory *)
      eexists None, _. split; [reflexivity|].
      unfold normalize_post. cbn.
      split; [quiet_goal|]. split; [reflexivity|]. split; [|exact I].
      eexists [_]. split; [reflexivity|]. repeat constructor. }
  destruct (normalize P NormForm Source) as [n|] eqn:En.
  - destruct Hpre as [HLen Hfuel].
    destruct (Z.of_nat (List.length n) + 1 <=? Len) eqn:Efit; cbn.
    + (* the block is large enough *)
      replace (0 <? Z.of_nat (List.length n) + 1) with true
        by (symmetry; apply Z.ltb_lt; lia).
      cbn. eexists (Some (_, _)), _. split; [reflexivity|].
      unfold normalize_post. cbn.
      split; [quiet_goal|]. split; [reflexivity|]. split.
      * eexists [_; _]. split; [reflexivity|]. repeat constructor.
      * exists n. split; [exact En|]. split; [reflexivity|]. split; [discriminate | lia].
    + (* the block is too small *)

      destruct (take ApiNormalizeString s1) as [z s2] eqn:Enorm. cbn.
      replace (Len =? 0) with false by (symmetry; apply Z.eqb_neq; lia).
      cbn.
      replace (0 <? - Z.max 1 (Z.of_nat (List.length n) + 1 + z)) with false
        by (symmetry; apply Z.ltb_ge; lia).
      cbn. rewrite Z.opp_involutive.
      match goal with |- context [NormalizeStringAlloc_loop P fuel _ _ ?l ?s] =>
        destruct (IH s l) as (r & st' & Hrun & Hpost) end.
      { cbn. split; [lia|].
        pose proof (take_pending_le ApiNormalizeString ApiAllocArray scr) as H1.
        rewrite Ealloc in H1. cbn in H1.
        pose proof (take_pending_le ApiNormalizeString ApiNormalizeString s1) as H2.
        rewrite Enorm in H2. cbn in H2.
        destruct (Z.eq_dec z 0) as [->|Hz].
        - replace (Z.max 1 (Z.of_nat (List.length n) + 1 + 0))
            with (Z.of_nat (List.length n) + 1) by lia.
          rewrite Z.leb_refl. lia.
        - pose proof (take_pending_lt ApiNormalizeString s1) as H3.
          rewrite Enorm in H3. cbn in H3. specialize (H3 Hz).
          match goal with |- context [if ?c then _ else _] => destruct c end; lia. }
      exists r, st'. split; [exact Hrun|].
      unfold normalize_post in *. cbn in Hpost.
      destruct Hpost as (Hq & Hh & (new & Hcalls & Hnew) & Hr).
      split; [|split; [exact Hh|split]].
      * eapply quiet_change_trans; [|exact Hq]. quiet_goal.
      * eexists (new ++ [_; _; _]). rewrite Hcalls, <- app_assoc.
        split; [reflexivity|]. apply Forall_app. split; [exact Hnew|].
        repeat constructor.
      * exact Hr.
  - (* the text cannot be normalized *)
    cbn. destruct (take ApiNormalizeString s1) as [z s2] eqn:Enorm. cbn.
    replace (0 <? - Z.abs z) with false by (symmetry; apply Z.ltb_ge; lia).
    cbn. eexists None, _. split; [reflexivity|].
    unfold normalize_post. cbn.
    split; [quiet_goal|]. split; [reflexivity|]. split; [|exact I].
    eexists [_; _; _]. split; [reflexivity|]. repeat constructor.
Qed.

Lemma NormalizeStringAlloc_spec NormForm Source st :
  exists r st',
    NormalizeStringAlloc P NormForm Source st = Ok r st' /\
    normalize_post P NormForm Source st r st'.
Proof.
  destruct st as [ns0 bd0 cs alg0 le scr ans nh lv hs cl lg].
  unfold NormalizeStringAlloc, NormalizeString. unfold_calls. cbn.
  destruct (normalize P NormForm Source) as [n|] eqn:En.
  - replace (Z.of_nat (List.length n) + 1 <=? 0) with false
      by (symmetry; apply Z.leb_gt; lia).
    cbn. destruct (take ApiNormalizeString scr) as [z s1] eqn:Enorm. cbn.
    match goal with |- context [NormalizeStringAlloc_loop P ?f _ _ ?l ?s] =>
      destruct (NormalizeStringAlloc_loop_spec NormForm Source f s l)
        as (r & st' & Hrun & Hpost) end.
    { rewrite En. cbn. split; [lia|]. match goal with |- context [if ?c then _ else _] => destruct c end; lia. }
    exists r, st'. split; [exact Hrun|].
    unfold normalize_post in *. cbn in Hpost.
    destruct Hpost as (Hq & Hh & (new & Hcalls & Hnew) & Hr).
    split; [|split; [exact Hh|split]].
    + eapply quiet_change_trans; [|exact Hq]. quiet_goal.
    + eexists (new ++ [_]). rewrite Hcalls, <- app_assoc.
      split; [reflexivity|]. apply Forall_app. split; [exact Hnew|].
      repeat constructor.
    + exact Hr.
  - cbn. destruct (take ApiNormalizeString scr) as [z s1] eqn:Enorm. cbn.
    match goal with |- context [NormalizeStringAlloc_loop P ?f _ _ ?l ?s] =>
      destruct (NormalizeStringAlloc_loop_spec NormForm Source f s l)
        as (r & st' & Hrun & Hpost) end.
    { rewrite En. lia. }
    exists r, st'. split; [exact Hrun|].
    unfold normalize_post in *. cbn in Hpost.
    destruct Hpost as (Hq & Hh & (new & Hcalls & Hnew) & Hr).
    split; [|split; [exact Hh|split]].
    + eapply quiet_change_trans; [|exact Hq]. quiet_goal.
    + eexists (new ++ [_]). rewrite Hcalls, <- app_assoc.
      split; [reflexivity|]. apply Forall_app. split; [exact Hnew|].
      repeat constructor.
    + exact Hr.
Qed.

End NormalizeProofs2.

Section NormalizeAwaiting.

Variable P : Platform.

Lemma NormalizeStringAlloc_loop_awaiting z NormForm Source fuel : forall Len st,
  NormalizeStringAlloc_loop P fuel NormForm Source Len (awaiting z st) =
  then_awaiting z (NormalizeStringAlloc_loop P fuel NormForm Source Len st).
Proof.
  induction fuel as [|fuel IH]; intros Len st; [reflexivity|].
  destruct st as [ns0 bd0 cs alg0 le scr ans nh lv hs cl lg].
  rewrite !NormalizeStringAlloc_loop_unfold.
  unfold NormalizeString. unfold_calls. cbn.
  destruct (take ApiAllocArray scr) as [e s1] eqn:Ealloc. cbn.
  destruct (e =? 0); cbn; [|reflexivity].
  destruct (normalize P NormForm Source) as [n|]; cbn.
  - destruct (Z.of_nat (List.length n) + 1 <=? Len); cbn.
    + destruct (0 <? Z.of_nat (List.length n) + 1); cbn; [reflexivity|].
      destruct (le =? ERROR_INSUFFICIENT_BUFFER); cbn; [|reflexivity].
      match goal with |- _ = then_awaiting z (NormalizeStringAlloc_loop P fuel _ _ ?l ?b) =>
        rewrite <- (IH l b) end.
      reflexivity.
    + destruct (take ApiNormalizeString s1) as [z1 s2] eqn:Enorm. cbn.
      destruct (Len =? 0); cbn.
      * destruct (0 <? Z.max 1 (Z.of_nat (List.length n) + 1 + z1)); cbn; [reflexivity|].
        destruct (le =? ERROR_INSUFFICIENT_BUFFER); cbn; [|reflexivity].
        match goal with |- _ = then_awaiting z (NormalizeStringAlloc_loop P fuel _ _ ?l ?b) =>
          rewrite <- (IH l b) end.
        reflexivity.
      * destruct (0 <? - Z.max 1 (Z.of_nat (List.length n) + 1 + z1)); cbn; [reflexivity|].
        match goal with |- _ = then_awaiting z (NormalizeStringAlloc_loop P fuel _ _ ?l ?b) =>
          rewrite <- (IH l b) end.
        reflexivity.
  - destruct (take ApiNormalizeString s1) as [z1 s2] eqn:Enorm. cbn.
    destruct (0 <? - Z.abs z1); cbn; reflexivity.
Qed.

Lemma NormalizeStringAlloc_awaiting z NormForm Source st :
  NormalizeStringAlloc P NormForm Source (awaiting z st) =
  then_awaiting z (NormalizeStringAlloc P NormForm Source st).
Proof.
  destruct st as [ns0 bd0 cs alg0 le scr ans nh lv hs cl lg].
  unfold NormalizeStringAlloc, NormalizeString. unfold_calls. cbn.
  destruct (normalize P NormForm Source) as [n|]; cbn.
  - destruct (Z.of_nat (List.length n) + 1 <=? 0); cbn.
    + rewrite pending_cons. cbn.
      match goal with |- _ = then_awaiting z (NormalizeStringAlloc_loop P ?f _ _ ?l ?b) =>
        rewrite <- (NormalizeStringAlloc_loop_awaiting z NormForm Source f l b) end.
      reflexivity.
    + destruct (take ApiNormalizeString scr) as [z1 s1] eqn:Enorm. cbn.
      rewrite pending_cons. cbn.
      match goal with |- _ = then_awaiting z (NormalizeStringAlloc_loop P ?f _ _ ?l ?b) =>
        rewrite <- (NormalizeStringAlloc_loop_awaiting z NormForm Source f l b) end.
      reflexivity.
  - destruct (take ApiNormalizeString scr) as [z1 s1] eqn:Enorm. cbn.
    rewrite pending_cons. cbn.
    match goal with |- _ = then_awaiting z (NormalizeStringAlloc_loop P ?f _ _ ?l ?b) =>
      rewrite <- (NormalizeStringAlloc_loop_awaiting z NormForm Source f l b) end.
    reflexivity.
Qed.

End NormalizeAwaiting.

Arguments NamespaceRuntimeInit : simpl never.
Arguments NormalizeStringAlloc : simpl never.

(** *** [NamespaceTakePoolMutex] *)

Arguments hash_data : simpl never.
Arguments hash_put : simpl never.
Arguments hash_drop : simpl never.
Arguments sizeof_wchars : simpl never.
Arguments c_str : simpl never.

Lemma hash_data_put h d hs : hash_data h (hash_put h d hs) = d.
Proof. unfold hash_data, hash_put. cbn. rewrite Z.eqb_refl. reflexivity. Qed.

Lemma init_calls_quiet l :
  Forall (fun c => is_init_call c = true) l ->
  mutex_names l = [] /\ hashed l = [] /\ waited l = [] /\ released l = [].
Proof.
  induction 1 as [|c l Hc Hl (I1 & I2 & I3 & I4)]; [repeat split|].
  destruct c; try discriminate Hc; cbn; auto.
Qed.

Lemma normalize_calls_quiet l :
  Forall (fun c => is_normalize_call c = true) l ->
  mutex_names l = [] /\ hashed l = [] /\ waited l = [] /\ released l = [].
Proof.
  induction 1 as [|c l Hc Hl (I1 & I2 & I3 & I4)]; [repeat split|].
  destruct c; try discriminate Hc; cbn; auto.
Qed.

Lemma calls_base (base : list Event) : base = [] ++ base.
Proof. reflexivity. Qed.

Lemma calls_cons (x : Event) l w base : l = w ++ base -> x :: l = (x :: w) ++ base.
Proof. intros ->. reflexivity. Qed.

Lemma calls_app (m l w base : list Event) : l = w ++ base -> m ++ l = (m ++ w) ++ base.
Proof. intros ->. apply app_assoc. Qed.

(** The calls of a run, found as what was put before the calls of its
    start. *)
Ltac split_calls :=
  repeat first [ apply calls_base | apply calls_cons | apply calls_app ].

Lemma without_absent r l : ~ In r l -> without r l = l.
Proof. apply notin_remove. Qed.

Section PoolProofs.

Variable P : Platform.

Lemma NamespaceTakePoolMutex_spec Pool st ret st' :
  NamespaceTakePoolMutex P Pool st = Ok ret st' ->
  exists b st1,
    NamespaceRuntimeInit P st = Ok b st1 /\
    if b then pool_post P Pool st1 ret st' else ret = NULL /\ st' = st1.
Proof.
  unfold NamespaceTakePoolMutex, cleanupPoolNorm, cleanupSha256.
  unfold_calls.
  destruct (NamespaceRuntimeInit P st) as [b st1|k] eqn:Hinit; [|discriminate].
  destruct b; cbn.
  2:{ intros H. apply Ok_inj in H. destruct H as [<- <-]. exists false, st1. auto. }
  intros H. exists true, st1. split; [reflexivity|]. revert H.
  destruct st1 as [ns1 bd1 cs1 alg1 le1 scr1 ans1 nh1 lv1 hs1 cl1 lg1].
  run.
  - (* the name is normalized *)
    match goal with |- context [NormalizeStringAlloc P ?f ?src ?s] =>
      destruct (NormalizeStringAlloc_spec P f src s) as (r & st3 & Hrun & Hpost);
      rewrite Hrun; clear Hrun end.
    destruct st3 as [ns3 bd3 cs3 alg3 le3 scr3 ans3 nh3 lv3 hs3 cl3 lg3].
    unfold normalize_post, quiet_change in Hpost. cbn in Hpost.
    destruct Hpost as ((E1 & E2 & E3 & E4 & Hnh & Hctx & Hlive) & Hh & (new & Hcalls & Hnew) & Hr).
    subst ns3 bd3 cs3 alg3 hs3 cl3.
    destruct (normalize_calls_quiet _ Hnew) as (Q1 & Q2 & Q3 & Q4).
    unfold mutex_names, hashed, waited, released in *.
    assert (Hin3 : forall r, In r lv3 -> In r lv1 \/ Z.pos nh1 <= snd r < Z.pos nh3).
    { intros x Hx. destruct (Hlive x Hx) as [[<-|H]|H]; cbn; auto; right; lia. }
    clear Hlive.
    destruct r as [[PoolNorm mem]|]; run.
    all: unfold pool_post, acquire_post, pool_calls, context_live; cbn.
    all: rewrite ?hash_data_put; cbn.
    all: repeat (split; [first [reflexivity | lia]|]).
    all: try destruct Hr as (n & Hn & -> & HPoolNorm & HPoolNorm').
    all: (split; [intros Hbelow|split]).
    all: try match goal with
      | |- filter _ _ = _ =>
          rewrite ?context_live_without by reflexivity;
          try (rewrite without_absent;
               [| let Hin := fresh "Hin" in
                  intros Hin; apply in_without in Hin; destruct Hin as [Hin _];
                  destruct Hin as [Hin|Hin]; [discriminate Hin|];
                  destruct (Hin3 _ Hin) as [Hin'|Hin'];
                  [apply Hbelow in Hin'|]; cbn in Hin'; lia]);
          rewrite ?context_live_without by reflexivity;
          cbn; exact Hctx
      | |- forall r, _ -> _ =>
          let x := fresh "x" in let Hx := fresh "Hx" in
          intros x Hx;
          repeat (apply in_without in Hx; destruct Hx as [Hx _]);
          try (destruct Hx as [<-|Hx]; [right; cbn; lia|]);
          destruct (Hin3 _ Hx) as [Hx'|Hx']; [left; exact Hx' | right; lia]
      end.
    all: (eexists; split; [split_calls|]).
    all: unfold mutex_names, hashed, waited, released; cbn [pick];
         rewrite ?pick_app, ?Q1, ?Q2, ?Q3, ?Q4; cbn [pick app].
    all: (split; [reflexivity|]).
    all: try (left; reflexivity).
    all: right; exists n; split; [exact Hn|]; split; reflexivity.
  - (* the label cannot be hashed *)
    unfold pool_post, acquire_post, pool_calls, context_live; cbn.
    repeat (split; [first [reflexivity | lia]|]).
    split; [intros _; rewrite ?context_live_without by reflexivity; reflexivity|].
    split.
    { intros x Hx. repeat (apply in_without in Hx; destruct Hx as [Hx _]).
      destruct Hx as [Hx|Hx]; [subst x; right; cbn; lia | left; exact Hx]. }
    eexists; split; [split_calls|]. split; [reflexivity|]. left; reflexivity.
  - (* the hash object cannot be created *)
    unfold pool_post, acquire_post, pool_calls, context_live; cbn.
    repeat (split; [first [reflexivity | lia | (intros x Hx; left; exact Hx)]|]).
    eexists; split; [split_calls|]. split; [reflexivity|]. left; reflexivity.
Qed.

Lemma NamespaceTakeDriverInstallationMutex_spec st ret st' :
  NamespaceTakeDriverInstallationMutex P st = Ok ret st' ->
  exists b st1,
    NamespaceRuntimeInit P st = Ok b st1 /\
    if b then installation_post st1 ret st' else ret = NULL /\ st' = st1.
Proof.
  unfold NamespaceTakeDriverInstallationMutex.
  unfold_calls.
  destruct (NamespaceRuntimeInit P st) as [b st1|k] eqn:Hinit; [|discriminate].
  destruct b; cbn.
  2:{ intros H. apply Ok_inj in H. destruct H as [<- <-]. exists false, st1. auto. }
  intros H. exists true, st1. split; [reflexivity|]. revert H.
  destruct st1 as [ns1 bd1 cs1 alg1 le1 scr1 ans1 nh1 lv1 hs1 cl1 lg1].
  run.
  all: unfold installation_post, acquire_post, installation_calls, context_live; cbn.
  all: refine (conj _ (conj _ (conj _ (conj _ (conj _ (conj _ (conj _ _))))))).
  all: try reflexivity; try lia.
  all: try match goal with
    | |- _ -> filter _ _ = _ =>
        let Hbelow := fresh "Hbelow" in
        intros Hbelow;
        rewrite ?context_live_without by reflexivity;
        try (rewrite without_absent;
             [| let Hin := fresh "Hin" in
                intros Hin; apply in_without in Hin; destruct Hin as [Hin _];
                destruct Hin as [Hin|Hin]; [discriminate Hin|];
                apply Hbelow in Hin; cbn in Hin; lia]);
        rewrite ?context_live_without by reflexivity;
        reflexivity
    | |- forall r, _ -> _ \/ _ =>
        let x := fresh "x" in let Hx := fresh "Hx" in
        intros x Hx;
        repeat (apply in_without in Hx; destruct Hx as [Hx _]);
        try (destruct Hx as [Hx|Hx]; [subst x; right; cbn; lia|]);
        left; exact Hx
    end.
  all: (eexists; split; [split_calls|]).
  all: cbn; repeat split; auto.
Qed.

End PoolProofs.

(** *** The outcome of the wait *)

Lemma init_post_calls P st b st' :
  init_post P st b st' ->
  exists new, calls st' = new ++ calls st /\ Forall (fun c => is_init_call c = true) new.
Proof.
  intros (_ & _ & [Hfast | [Hdone | Hfail]]).
  - destruct Hfast as (_ & _ & ->). cbn.
    eexists [_; _]. split; [reflexivity|]. repeat constructor.
  - destruct Hdone as (_ & _ & _ & _ & _ & _ & _ & _ & body & j & Hcalls & Hbody & _).
    exists (CallLeaveCriticalSection :: body ++ [CallEnterCriticalSection]).
    rewrite Hcalls. cbn. rewrite <- app_assoc. split; [reflexivity|].
    constructor; [reflexivity|]. apply Forall_app. split; [|repeat constructor].
    eapply Forall_impl; [|exact Hbody]. intros c [_ Hc]. exact Hc.
  - destruct Hfail as (_ & _ & _ & _ & _ & _ & releases & body & a & j & Hcalls & Hrel & Hbody & _).
    exists (CallSetLastError (last_error st') :: CallLeaveCriticalSection
            :: releases ++ body ++ [CallEnterCriticalSection]).
    rewrite Hcalls. cbn. rewrite <- !app_assoc. split; [reflexivity|].
    constructor; [reflexivity|]. constructor; [reflexivity|].
    apply Forall_app. split.
    + eapply Forall_impl; [|exact Hrel]. intros c [_ Hc]. exact Hc.
    + apply Forall_app. split; [|repeat constructor].
      eapply Forall_impl; [|exact Hbody]. intros c [_ Hc]. exact Hc.
Qed.

Lemma in_without_other (r x : Resource) l : In r l -> r <> x -> In r (without x l).
Proof. intros H Hne. apply in_in_remove; assumption. Qed.

Section WaitProofs.

Variable P : Platform.

(** A call that is not among the calls of a run. *)
Ltac not_called Hin :=
  cbn in Hin;
  repeat first
    [ destruct Hin as [Hin|Hin]; [discriminate Hin|]
    | apply in_app_or in Hin; destruct Hin as [Hin|Hin];
      [eapply Forall_forall in Hin; [|eassumption]; cbn in Hin; discriminate Hin|]
    | contradiction ].

(** The two ends of the leaves of [wait_outcome]. *)
Ltac outcome_leaf :=
  match goal with
  | |- _ = _ /\ In _ _ /\ ~ In _ _ =>
      split; [reflexivity|];
      split; [cbn; repeat (apply in_without_other; [|discriminate]); left; reflexivity|];
      let Hin := fresh "Hin" in intros Hin; not_called Hin
  | |- _ = _ /\ _ = _ /\ exists _ _, _ =>
      split; [reflexivity|]; split; [reflexivity|];
      first [ exists []; eexists; reflexivity
            | eexists [_]; eexists; reflexivity
            | eexists [_; _]; eexists; reflexivity
            | eexists [_; _; _]; eexists; reflexivity ]
  end.

(** The calls of a run that began with an initialization. *)
Ltac since_calls :=
  match goal with
  | |- context [calls_since ?st ?st'] =>
      erewrite (calls_since_app st st') by (cbn; split_calls)
  end.

Lemma NamespaceTakeDriverInstallationMutex_wait r st ret st' :
  NamespaceTakeDriverInstallationMutex P (awaiting r st) = Ok ret st' ->
  wait_outcome r st ret st'.
Proof.
  unfold NamespaceTakeDriverInstallationMutex.
  unfold_calls.
  rewrite NamespaceRuntimeInit_awaiting.
  destruct (NamespaceRuntimeInit P st) as [b st1|k] eqn:Hinit; [|discriminate].
  apply NamespaceRuntimeInit_spec, init_post_calls in Hinit.
  destruct Hinit as (init & Hinit & Hquiet).
  destruct (init_calls_quiet _ Hquiet) as (Q1 & Q2 & Q3 & Q4).
  destruct st as [ns0 bd0 cs0 alg0 le0 scr0 ans0 nh0 lv0 hs0 cl0 lg0].
  destruct st1 as [ns1 bd1 cs1 alg1 le1 scr1 ans1 nh1 lv1 hs1 cl1 lg1].
  cbn in Hinit. subst cl1.
  unfold waited, released in *.
  destruct b; run.
  all: unfold wait_outcome; since_calls.
  all: unfold waited, released; cbn [pick]; rewrite ?pick_app, ?Q3, ?Q4; cbn [pick app].
  all: (split; [reflexivity|]).
  all: try reflexivity.
  all: (split; [reflexivity|]); (split; [discriminate|]).
  all: rewrite ?Eif, ?Eif0, ?Eif1.
  all: outcome_leaf.
Qed.

(** [NormalizeStringAlloc] on a state whose script begins with the answer
    to the wait. *)
Ltac normalize_awaiting :=
  match goal with
  | |- context [NormalizeStringAlloc P ?f ?src
                  (mkState ?a ?b ?c ?d ?e ((ApiWaitForSingleObject, ?r) :: ?s)
                           ?g ?h ?i ?j ?k ?l)] =>
      change (NormalizeStringAlloc P f src
                (mkState a b c d e ((ApiWaitForSingleObject, r) :: s) g h i j k l))
        with (NormalizeStringAlloc P f src (awaiting r (mkState a b c d e s g h i j k l)));
      rewrite (NormalizeStringAlloc_awaiting P r f src (mkState a b c d e s g h i j k l))
  end.

Lemma NamespaceTakePoolMutex_wait Pool r st ret st' :
  NamespaceTakePoolMutex P Pool (awaiting r st) = Ok ret st' ->
  wait_outcome r st ret st'.
Proof.
  unfold NamespaceTakePoolMutex, cleanupPoolNorm, cleanupSha256.
  unfold_calls.
  rewrite NamespaceRuntimeInit_awaiting.
  destruct (NamespaceRuntimeInit P st) as [b st1|k] eqn:Hinit; [|discriminate].
  apply NamespaceRuntimeInit_spec, init_post_calls in Hinit.
  destruct Hinit as (init & Hinit & Hquiet).
  destruct (init_calls_quiet _ Hquiet) as (Q1 & Q2 & Q3 & Q4).
  destruct st as [ns0 bd0 cs0 alg0 le0 scr0 ans0 nh0 lv0 hs0 cl0 lg0].
  destruct st1 as [ns1 bd1 cs1 alg1 le1 scr1 ans1 nh1 lv1 hs1 cl1 lg1].
  cbn in Hinit. subst cl1.
  unfold waited, released in *.
  destruct b; run.
  1:{ normalize_awaiting.
      match goal with |- context [NormalizeStringAlloc P ?f ?src ?s] =>
        destruct (NormalizeStringAlloc_spec P f src s) as (x & st3 & Hrun & Hpost);
        rewrite Hrun; clear Hrun end.
      destruct st3 as [ns3 bd3 cs3 alg3 le3 scr3 ans3 nh3 lv3 hs3 cl3 lg3].
      unfold normalize_post, quiet_change in Hpost. cbn in Hpost.
      destruct Hpost as (_ & _ & (new & Hcalls & Hnew) & Hx).
      subst cl3.
      destruct (normalize_calls_quiet _ Hnew) as (N1 & N2 & N3 & N4).
      unfold waited, released in *.
      destruct x as [[PoolNorm mem]|]; run.
      all: unfold wait_outcome; since_calls.
      all: unfold waited, released; cbn [pick];
           rewrite ?pick_app, ?Q3, ?Q4, ?N3, ?N4; cbn [pick app];
           rewrite ?pick_app, ?Q3, ?Q4, ?N3, ?N4; cbn [pick app].
      all: (split; [reflexivity|]).
      all: try reflexivity.
      all: (split; [reflexivity|]); (split; [discriminate|]).
      all: rewrite ?Eif, ?Eif0, ?Eif1, ?Eif2, ?Eif3, ?Eif4, ?Eif5, ?Eif6.
      all: outcome_leaf. }
  all: unfold wait_outcome; since_calls.
  all: unfold waited, released; cbn [pick]; rewrite ?pick_app, ?Q3, ?Q4; cbn [pick app].
  all: split; reflexivity.
Qed.

(** What can be told of a run is the same for a wait that ends signaled and
    for one that ends abandoned. *)
Lemma installation_abandoned_as_signaled st :
  observable (NamespaceTakeDriverInstallationMutex P (awaiting WAIT_OBJECT_0 st)) =
  observable (NamespaceTakeDriverInstallationMutex P (awaiting WAIT_ABANDONED st)).
Proof.
  unfold NamespaceTakeDriverInstallationMutex.
  unfold_calls.
  rewrite !NamespaceRuntimeInit_awaiting.
  destruct (NamespaceRuntimeInit P st) as [b st1|k]; [|reflexivity].
  destruct st1 as [ns1 bd1 cs1 alg1 le1 scr1 ans1 nh1 lv1 hs1 cl1 lg1].
  destruct b; run_both; reflexivity.
Qed.

Lemma pool_abandoned_as_signaled Pool st :
  observable (NamespaceTakePoolMutex P Pool (awaiting WAIT_OBJECT_0 st)) =
  observable (NamespaceTakePoolMutex P Pool (awaiting WAIT_ABANDONED st)).
Proof.
  unfold NamespaceTakePoolMutex, cleanupPoolNorm, cleanupSha256.
  unfold_calls.
  rewrite !NamespaceRuntimeInit_awaiting.
  destruct (NamespaceRuntimeInit P st) as [b st1|k]; [|reflexivity].
  destruct st1 as [ns1 bd1 cs1 alg1 le1 scr1 ans1 nh1 lv1 hs1 cl1 lg1].
  destruct b; run_both; try reflexivity.
  repeat normalize_awaiting.
  match goal with |- context [NormalizeStringAlloc P ?f ?src ?s] =>
    destruct (NormalizeStringAlloc P f src s) as [x st3|k]; [|reflexivity] end.
  destruct st3 as [ns3 bd3 cs3 alg3 le3 scr3 ans3 nh3 lv3 hs3 cl3 lg3].
  destruct x as [[PoolNorm mem]|]; run_both; reflexivity.
Qed.

End WaitProofs.

(** *** The functions return *)

Section Totality.

Variable P : Platform.

Lemma NamespaceRuntimeInit_returns st depth :
  Initializing st = CsReady depth ->
  exists b st', NamespaceRuntimeInit P st = Ok b st'.
Proof.
  destruct st as [ns0 bd0 cs alg0 le scr ans nh lv hs cl lg]. cbn. intros ->.
  unfold NamespaceRuntimeInit, cleanupBoundaryDescriptor, cleanupBCryptCloseAlgorithmProvider,
    cleanupLeaveCriticalSection.
  set (Sid := if IsLocalSystem P then WinLocalSystemSid else WinBuiltinAdministratorsSid).
  unfold_calls.
  run; eauto.
  match goal with |- context [PrivateNamespace_loop ?f ?s] =>
    destruct (PrivateNamespace_loop_spec f s) as (r & st2 & Hrun & Hpost);
    [cbn; lia | rewrite Hrun; clear Hrun] end.
  unfold namespace_loop_post in Hpost.
  destruct st2 as [ns2 bd2 cs2 alg2 le2 scr2 ans2 nh2 lv2 hs2 cl2 lg2].
  cbn in Hpost. destruct Hpost as (_ & -> & _).
  destruct r; run; eauto.
Qed.

Lemma NamespaceRuntimeInit_ready st b st' :
  NamespaceRuntimeInit P st = Ok b st' -> exists depth, Initializing st = CsReady depth.
Proof.
  unfold NamespaceRuntimeInit, EnterCriticalSection, bind, gets.
  destruct (Initializing st); try discriminate. eauto.
Qed.

Lemma NamespaceTakeDriverInstallationMutex_returns st depth :
  Initializing st = CsReady depth ->
  exists ret st', NamespaceTakeDriverInstallationMutex P st = Ok ret st'.
Proof.
  intros Hcs. destruct (NamespaceRuntimeInit_returns st depth Hcs) as (b & st1 & Hinit).
  unfold NamespaceTakeDriverInstallationMutex. unfold_calls. rewrite Hinit.
  destruct st1 as [ns1 bd1 cs1 alg1 le1 scr1 ans1 nh1 lv1 hs1 cl1 lg1].
  destruct b; run; eauto.
Qed.

Lemma NamespaceTakePoolMutex_returns Pool st depth :
  Initializing st = CsReady depth ->
  exists ret st', NamespaceTakePoolMutex P Pool st = Ok ret st'.
Proof.
  intros Hcs. destruct (NamespaceRuntimeInit_returns st depth Hcs) as (b & st1 & Hinit).
  unfold NamespaceTakePoolMutex, cleanupPoolNorm, cleanupSha256. unfold_calls. rewrite Hinit.
  destruct st1 as [ns1 bd1 cs1 alg1 le1 scr1 ans1 nh1 lv1 hs1 cl1 lg1].
  destruct b; run; eauto.
  match goal with |- context [NormalizeStringAlloc P ?f ?src ?s] =>
    destruct (NormalizeStringAlloc_spec P f src s) as (x & st3 & Hrun & _);
    rewrite Hrun; clear Hrun end.
  destruct st3 as [ns3 bd3 cs3 alg3 le3 scr3 ans3 nh3 lv3 hs3 cl3 lg3].
  destruct x as [[PoolNorm mem]|]; run; eauto.
Qed.

End Totality.

(** *** The context is whole or absent *)

Lemma context_live_without_comm r l :
  filter is_context_kind (without r l) = without r (filter is_context_kind l).
Proof.
  unfold without. induction l as [|x l IH]; [reflexivity|].
  cbn [remove filter]. destruct (Resource_eq_dec r x) as [<-|Hne].
  - destruct (is_context_kind r) eqn:E; [|exact IH].
    cbn [remove]. destruct (Resource_eq_dec r r); [exact IH|congruence].
  - cbn [filter]. destruct (is_context_kind x) eqn:E; [|exact IH].
    cbn [remove]. destruct (Resource_eq_dec r x); [congruence|]. rewrite IH. reflexivity.
Qed.

Lemma without_head r l : without r (r :: l) = without r l.
Proof. unfold without. cbn. destruct (Resource_eq_dec r r); [reflexivity|congruence]. Qed.

Lemma without_other r x l : r <> x -> without r (x :: l) = x :: without r l.
Proof. intros H. unfold without. cbn. destruct (Resource_eq_dec r x); [congruence|reflexivity]. Qed.

Lemma filter_incl_nil {A} (f : A -> bool) l l' :
  incl l' l -> filter f l = [] -> filter f l' = [].
Proof.
  intros Hincl Hnil. destruct (filter f l') as [|x t] eqn:E; [reflexivity|].
  assert (Hx : In x (filter f l')) by (rewrite E; left; reflexivity).
  apply filter_In in Hx. destruct Hx as [Hx Hf].
  assert (Hx' : In x (filter f l)) by (apply filter_In; split; [apply Hincl, Hx | exact Hf]).
  rewrite Hnil in Hx'. destruct Hx'.
Qed.

Section Consistency.

Variable P : Platform.

Lemma NamespaceRuntimeInit_consistent st b st' :
  NamespaceRuntimeInit P st = Ok b st' ->
  context_consistent st -> context_consistent st'.
Proof.
  intros Hrun [Hbelow Hshape]. apply NamespaceRuntimeInit_spec in Hrun.
  destruct Hrun as (_ & _ & [Hfast | [Hdone | Hfail]]).
  - destruct Hfast as (_ & _ & ->). split; [exact Hbelow | exact Hshape].
  - destruct Hdone as (Hns & _ & Ha & Hb & Hn & Hnh & Hlive & _).
    rewrite Hns in Hshape. cbn in Hshape.
    split.
    + intros r Hr. rewrite Hlive in Hr. rewrite Hnh.
      destruct Hr as [<-|[<-|[<-|Hr]]]; cbn; rewrite ?Hn, ?Hb, ?Ha; try lia.
      specialize (Hbelow r Hr). lia.
    + destruct (PrivateNamespace st' =? NULL) eqn:E; [rewrite Hn in E; discriminate E|].
      unfold context_live in *. rewrite Hlive. cbn. rewrite Hshape. reflexivity.
  - destruct Hfail as (Hns & _ & Hns' & Hincl & Hnh & _).
    rewrite Hns in Hshape. cbn in Hshape.
    split.
    + intros r Hr. specialize (Hbelow r (Hincl r Hr)). lia.
    + rewrite Hns'. cbn. eapply filter_incl_nil; [exact Hincl | exact Hshape].
Qed.

Lemma acquire_post_consistent about st1 ret st' :
  acquire_post about st1 ret st' -> context_consistent st1 -> context_consistent st'.
Proof.
  intros (E1 & E2 & E3 & E4 & Hnh & Hctx & Hlive & _) [Hbelow Hshape].
  split.
  - intros r Hr. destruct (Hlive r Hr) as [H|H]; [specialize (Hbelow r H); lia | lia].
  - rewrite E1, E2, E4, (Hctx Hbelow). exact Hshape.
Qed.

Lemma NamespaceTakePoolMutex_consistent Pool st ret st' :
  NamespaceTakePoolMutex P Pool st = Ok ret st' ->
  context_consistent st -> context_consistent st'.
Proof.
  intros Hrun Hst. apply NamespaceTakePoolMutex_spec in Hrun.
  destruct Hrun as (b & st1 & Hinit & Hpost).
  pose proof (NamespaceRuntimeInit_consistent _ _ _ Hinit Hst) as Hst1.
  destruct b.
  - unfold pool_post, installation_post in Hpost.
    exact (acquire_post_consistent _ _ _ _ Hpost Hst1).
  - destruct Hpost as [_ ->]. exact Hst1.
Qed.

Lemma NamespaceTakeDriverInstallationMutex_consistent st ret st' :
  NamespaceTakeDriverInstallationMutex P st = Ok ret st' ->
  context_consistent st -> context_consistent st'.
Proof.
  intros Hrun Hst. apply NamespaceTakeDriverInstallationMutex_spec in Hrun.
  destruct Hrun as (b & st1 & Hinit & Hpost).
  pose proof (NamespaceRuntimeInit_consistent _ _ _ Hinit Hst) as Hst1.
  destruct b.
  - unfold pool_post, installation_post in Hpost.
    exact (acquire_post_consistent _ _ _ _ Hpost Hst1).
  - destruct Hpost as [_ ->]. exact Hst1.
Qed.

End Consistency.

(** *** Release, teardown and set-up *)

Lemma NamespaceReleaseMutex_runs Mutex st :
  exists st',
    NamespaceReleaseMutex Mutex st = Ok tt st' /\
    calls st' = CallCloseHandle Mutex :: CallReleaseMutex Mutex :: calls st /\
    PrivateNamespace st' = PrivateNamespace st /\
    BoundaryDescriptor st' = BoundaryDescriptor st /\
    Initializing st' = Initializing st /\
    AlgProvider st' = AlgProvider st /\
    next_handle st' = next_handle st /\
    (live st' = live st \/
     live st' = without (KNamespace, Mutex) (without (KMutex, Mutex) (live st))).
Proof.
  destruct st as [ns0 bd0 cs alg0 le scr ans nh lv hs cl lg].
  unfold NamespaceReleaseMutex. unfold_calls.
  run; eexists; (split; [reflexivity|]); cbn; repeat split; auto.
Qed.

Lemma NamespaceReleaseMutex_consistent Mutex st st' :
  NamespaceReleaseMutex Mutex st = Ok tt st' ->
  Mutex <> PrivateNamespace st ->
  context_consistent st -> context_consistent st'.
Proof.
  intros Hrun Hne [Hbelow Hshape].
  destruct (NamespaceReleaseMutex_runs Mutex st)
    as (st2 & Hrun2 & _ & E1 & E2 & E3 & E4 & Enh & Hlive).
  rewrite Hrun in Hrun2. apply Ok_inj in Hrun2. destruct Hrun2 as [_ <-].
  unfold context_consistent, context_live in *. rewrite E1, E2, E4, Enh.
  destruct Hlive as [-> | ->]; [split; assumption|].
  split.
  - intros r Hr. repeat (apply in_without in Hr; destruct Hr as [Hr _]). auto.
  - rewrite context_live_without_comm, (context_live_without (KMutex, Mutex)) by reflexivity.
    destruct (PrivateNamespace st =? NULL).
    + rewrite Hshape. reflexivity.
    + rewrite Hshape. apply without_absent.
      intros [H|[H|[H|[]]]]; try discriminate H.
      injection H as H. congruence.
Qed.

Lemma NamespaceInit_runs st :
  NamespaceInit st =
  Ok tt (with_Initializing (CsReady 0)
           (with_calls (CallInitializeCriticalSection :: calls st) st)).
Proof. reflexivity. Qed.

Lemma NamespaceInit_consistent st st' :
  NamespaceInit st = Ok tt st' -> context_consistent st -> context_consistent st'.
Proof.
  rewrite NamespaceInit_runs. intros H. apply Ok_inj in H. destruct H as [_ <-].
  destruct st. exact (fun H => H).
Qed.

Lemma without_nil r : without r [] = [].
Proof. reflexivity. Qed.

(** [NamespaceDone] gives back what the context holds and deletes the
    critical section. *)
Lemma NamespaceDone_spec st st' :
  NamespaceDone st = Ok tt st' ->
  (exists depth, Initializing st = CsReady depth) /\
  Initializing st' = CsDeleted /\
  PrivateNamespace st' = NULL /\
  next_handle st' = next_handle st /\
  script st' = script st /\
  (if PrivateNamespace st =? NULL
   then live st' = live st /\
        calls st' = CallDeleteCriticalSection :: CallLeaveCriticalSection
                    :: CallEnterCriticalSection :: calls st
   else live st' = without (KBoundary, BoundaryDescriptor st)
                     (without (KNamespace, PrivateNamespace st)
                        (without (KAlgorithm, AlgProvider st) (live st))) /\
        calls st' = CallDeleteCriticalSection :: CallLeaveCriticalSection
                    :: CallDeleteBoundaryDescriptor (BoundaryDescriptor st)
                    :: CallClosePrivateNamespace (PrivateNamespace st)
                    :: CallBCryptCloseAlgorithmProvider (AlgProvider st)
                    :: CallEnterCriticalSection :: calls st).
Proof.
  destruct st as [ns0 bd0 cs alg0 le scr ans nh lv hs cl lg].
  unfold NamespaceDone. unfold_calls.
  run; repeat split; eauto.
  apply Z.eqb_eq; assumption.
Qed.

Lemma NamespaceDone_returns st depth :
  Initializing st = CsReady depth -> exists st', NamespaceDone st = Ok tt st'.
Proof.
  destruct st as [ns0 bd0 cs alg0 le scr ans nh lv hs cl lg]. cbn. intros ->.
  unfold NamespaceDone. unfold_calls.
  run; eauto.
Qed.

Lemma NamespaceDone_consistent st st' :
  NamespaceDone st = Ok tt st' -> context_consistent st ->
  context_consistent st' /\ context_live st' = [].
Proof.
  intros Hrun [Hbelow Hshape]. apply NamespaceDone_spec in Hrun.
  destruct Hrun as (_ & _ & Hns & Hnh & _ & Hcase).
  unfold context_consistent, context_live in *. rewrite Hns, Hnh. cbn.
  destruct (PrivateNamespace st =? NULL).
  - destruct Hcase as [-> _]. repeat split; assumption.
  - destruct Hcase as [-> _].
    assert (Hnil : filter is_context_kind
              (without (KBoundary, BoundaryDescriptor st)
                 (without (KNamespace, PrivateNamespace st)
                    (without (KAlgorithm, AlgProvider st) (live st)))) = []).
    { rewrite !context_live_without_comm, Hshape.
      repeat first [ rewrite without_head
                   | rewrite without_other by discriminate
                   | rewrite without_nil ].
      reflexivity. }
    repeat split; try assumption.
    intros r Hr. repeat (apply in_without in Hr; destruct Hr as [Hr _]). auto.
Qed.

(** *** Runs that the system does not hinder *)

Section Unhindered.
Variable P : Platform.

Lemma NamespaceRuntimeInit_again st depth :
  Initializing st = CsReady depth -> PrivateNamespace st <> NULL ->
  NamespaceRuntimeInit P st =
  Ok true (with_calls (CallLeaveCriticalSection :: CallEnterCriticalSection :: calls st) st).
Proof.
  destruct st as [ns0 bd0 cs alg0 le scr ans nh lv hs cl lg]. cbn.
  intros -> Hns. apply Z.eqb_neq in Hns.
  unfold NamespaceRuntimeInit. unfold_calls. cbn. rewrite Hns. reflexivity.
Qed.

Lemma deleted_section_faults st :
  Initializing st = CsDeleted ->
  NamespaceRuntimeInit P st = Fault BadCriticalSection /\
  (forall Pool, NamespaceTakePoolMutex P Pool st = Fault BadCriticalSection) /\
  NamespaceTakeDriverInstallationMutex P st = Fault BadCriticalSection.
Proof.
  intros Hcs.
  assert (H : NamespaceRuntimeInit P st = Fault BadCriticalSection).
  { unfold NamespaceRuntimeInit, EnterCriticalSection, bind, gets. rewrite Hcs. reflexivity. }
  repeat split; [exact H| |].
  - intros Pool. unfold NamespaceTakePoolMutex, bind. rewrite H. reflexivity.
  - unfold NamespaceTakeDriverInstallationMutex, bind. rewrite H. reflexivity.
Qed.

Lemma NamespaceTakePoolMutex_unhindered Pool n st depth :
  Initializing st = CsReady depth -> PrivateNamespace st = NULL -> script st = [] ->
  normalize P NormalizationC Pool = Some n ->
  exists ret st',
    NamespaceTakePoolMutex P Pool st = Ok ret st' /\
    ret <> NULL /\ PrivateNamespace st' <> NULL /\
    Initializing st' = CsReady depth /\
    In (KMutex, ret) (live st') /\
    mutex_names (calls_since st st') = [pool_mutex_name n].
Proof.
  destruct st as [ns0 bd0 cs alg0 le scr ans nh lv hs cl lg]. cbn.
  intros -> -> -> Hn.
  unfold NamespaceTakePoolMutex, NamespaceRuntimeInit, NormalizeStringAlloc,
    NormalizeString, cleanupPoolNorm, cleanupSha256.
  unfold_calls. cbn.
  rewrite PrivateNamespace_loop_unfold. unfold_calls. cbn.
  rewrite Hn. cbn.
  assert (Hlen : (Z.of_nat (Datatypes.length n) + 1 <=? 0) = false)
    by (apply Z.leb_gt; lia).
  rewrite Hlen. cbn.
  rewrite NormalizeStringAlloc_loop_unfold. unfold NormalizeString. unfold_calls. cbn.
  rewrite Hn. cbn.
  rewrite Z.add_0_r, Z.max_r by lia. rewrite Z.leb_refl. cbn.
  assert (Hpos : (0 <? Z.of_nat (Datatypes.length n) + 1) = true)
    by (apply Z.ltb_lt; lia).
  rewrite Hpos. cbn.
  do 2 eexists. split; [reflexivity|]. cbn -[calls_since].
  repeat split; try discriminate.
  - unfold without. cbn. auto.
  - erewrite calls_since_app; [|cbn; split_calls].
    cbn. rewrite !hash_data_put. reflexivity.
Qed.

End Unhindered.

(** *** The calls of an acquisition, counted from its start *)

Lemma pool_run_calls P Pool st ret st' :
  NamespaceTakePoolMutex P Pool st = Ok ret st' ->
  released (calls_since st st') = [] /\
  (mutex_names (calls_since st st') = [] \/
   exists n, normalize P NormalizationC Pool = Some n /\
             mutex_names (calls_since st st') = [pool_mutex_name n] /\
             hashed (calls_since st st') = [name_bytes_hashed n; label_bytes_hashed]).
Proof.
  intros Hrun. apply NamespaceTakePoolMutex_spec in Hrun.
  destruct Hrun as (b & st1 & Hinit & Hpost).
  apply NamespaceRuntimeInit_spec, init_post_calls in Hinit.
  destruct Hinit as (init & Hcalls1 & Hquiet).
  destruct (init_calls_quiet _ Hquiet) as (Q1 & Q2 & _ & Q4).
  destruct b.
  - destruct Hpost as (_ & _ & _ & _ & _ & _ & _ & new & Hcalls & Hrel & Habout).
    rewrite Hcalls1, app_assoc in Hcalls.
    rewrite (calls_since_app _ _ _ Hcalls).
    unfold released, mutex_names, hashed in *. rewrite !pick_app, Q1, Q2, Q4, !app_nil_r.
    split; [exact Hrel|].
    destruct Habout as [H | (n & Hn & Hnames & Hhashed)]; [left; exact H|].
    right. exists n. auto.
  - destruct Hpost as [_ ->]. rewrite (calls_since_app _ _ _ Hcalls1). auto.
Qed.

Lemma installation_run_calls P st ret st' :
  NamespaceTakeDriverInstallationMutex P st = Ok ret st' ->
  released (calls_since st st') = [] /\
  hashed (calls_since st st') = [] /\
  (mutex_names (calls_since st st') = [] \/
   mutex_names (calls_since st st') = [DriverInstallationMutexName]).
Proof.
  intros Hrun. apply NamespaceTakeDriverInstallationMutex_spec in Hrun.
  destruct Hrun as (b & st1 & Hinit & Hpost).
  apply NamespaceRuntimeInit_spec, init_post_calls in Hinit.
  destruct Hinit as (init & Hcalls1 & Hquiet).
  destruct (init_calls_quiet _ Hquiet) as (Q1 & Q2 & _ & Q4).
  destruct b.
  - destruct Hpost as (_ & _ & _ & _ & _ & _ & _ & new & Hcalls & Hrel & Hhashed & Hnames).
    rewrite Hcalls1, app_assoc in Hcalls.
    rewrite (calls_since_app _ _ _ Hcalls).
    unfold released, mutex_names, hashed in *. rewrite !pick_app, Q1, Q2, Q4, !app_nil_r.
    auto.
  - destruct Hpost as [_ ->]. rewrite (calls_since_app _ _ _ Hcalls1). auto.
Qed.

(** The answer that ends the rounds with an error is not one that the loop
    takes for a reason to go on. *)
Lemma namespace_rounds_end l e :
  namespace_rounds l (Some e) ->
  exists before,
    (l = before ++ [(ApiCreatePrivateNamespaceW, e)] /\ e <> 0 /\ e <> ERROR_ALREADY_EXISTS) \/
    (l = before ++ [(ApiCreatePrivateNamespaceW, ERROR_ALREADY_EXISTS);
                    (ApiOpenPrivateNamespaceW, e)] /\ e <> 0 /\ e <> ERROR_PATH_NOT_FOUND).
Proof.
  remember (Some e) as r eqn:Hr. intros H. revert e Hr.
  induction H as [| |e0 H0 Hx|e0 H0 Hp|j r Hj IH]; intros e Hr; try discriminate Hr.
  - injection Hr as <-. exists []. left. auto.
  - injection Hr as <-. exists []. right. auto.
  - destruct (IH e Hr) as (before & [(-> & H)|(-> & H)]).
    + exists ((ApiCreatePrivateNamespaceW, ERROR_ALREADY_EXISTS)
              :: (ApiOpenPrivateNamespaceW, ERROR_PATH_NOT_FOUND) :: before). left. auto.
    + exists ((ApiCreatePrivateNamespaceW, ERROR_ALREADY_EXISTS)
              :: (ApiOpenPrivateNamespaceW, ERROR_PATH_NOT_FOUND) :: before). right. auto.
Qed.

(** Every opening that does not find the namespace is followed by a new
    creation. *)
Lemma namespace_rounds_retry l r before after :
  namespace_rounds l r ->
  l = before ++ (ApiOpenPrivateNamespaceW, ERROR_PATH_NOT_FOUND) :: after ->
  exists z rest, after = (ApiCreatePrivateNamespaceW, z) :: rest.
Proof.
  intros H. revert before.
  induction H as [| |e0 H0 Hx|e0 H0 Hp|j r Hj IH]; intros before Heq.
  - destruct before as [|? [|? ?]]; discriminate Heq.
  - destruct before as [|? [|? [|? ?]]]; discriminate Heq.
  - destruct before as [|? [|? ?]]; discriminate Heq.
  - destruct before as [|? [|? [|? ?]]]; try discriminate Heq.
    injection Heq as _ He _. exfalso. apply Hp. exact He.
  - destruct before as [|? [|? before]].
    + discriminate Heq.
    + injection Heq as _ <-.
      inversion Hj; subst; eauto.
    + injection Heq as _ _ Heq. exact (IH before Heq).
Qed.

(** The length of what is hashed of a name: its length in elements and two,
    where the whole of it with its terminator has twice its length and two. *)
Lemma wcslen_terminated l r :
  Forall (fun c => c <> 0) l -> wcslen (l ++ 0 :: r) = Z.of_nat (List.length l).
Proof.
  induction 1 as [|c l Hc Hl IH]; [reflexivity|].
  cbn [app wcslen List.length]. destruct (c =? 0) eqn:E; [apply Z.eqb_eq in E; contradiction|].
  rewrite IH. lia.
Qed.

Lemma bytes_of_wchars_length l : List.length (bytes_of_wchars l) = (2 * List.length l)%nat.
Proof. unfold bytes_of_wchars. induction l as [|c l IH]; simpl; lia. Qed.

Lemma name_bytes_hashed_length n :
  Forall (fun c => c <> 0) n -> Z.of_nat (List.length n) + 2 < 2 ^ 31 ->
  List.length n <> O ->
  List.length (name_bytes_hashed n) = (List.length n + 2)%nat /\
  List.length (bytes_of_wchars (n ++ [0])) = (2 * List.length n + 2)%nat.
Proof.
  intros Hn Hlen Hpos. unfold name_bytes_hashed.
  rewrite length_firstn, bytes_of_wchars_length, length_app, wcslen_terminated by exact Hn.
  cbn [List.length].
  unfold int_of_size_t, ULONG_of_int.
  rewrite (Z.mod_small (_ + 2 ^ 31)) by lia.
  rewrite Z.mod_small by lia.
  split.
  - replace (Z.of_nat (List.length n) + 2 ^ 31 - 2 ^ 31 + 2)
      with (Z.of_nat (List.length n + 2)) by lia.
    rewrite Nat2Z.id. apply Nat.min_l. unfold WCHAR. lia.
  - rewrite bytes_of_wchars_length, length_app. cbn [List.length]. unfold WCHAR. lia.
Qed.

(* ================================================================== *)
(** ** What a run yields *)

(** *** The array [MutexName] (lines 161-165) *)

Lemma MutexName_text Hash :
  List.length Hash = 32%nat ->
  Forall (fun c => c <> 0 /\ c <> indeterminate)
         (wide "WireGuard\WireGuard-Name-Mutex-" ++ hex_of Hash).
Proof.
  intros _. apply Forall_app. split.
  - apply Forall_forall. intros c Hc. vm_compute in Hc.
    repeat (destruct Hc as [<-|Hc]; [split; discriminate|]). destruct Hc.
  - pose proof (hex_of_lower Hash) as Hlow. pose proof (hex_of_nonzero Hash) as Hnz.
    rewrite forallb_forall in Hlow. rewrite Forall_forall in Hnz.
    apply Forall_forall. intros c Hc. split; [exact (Hnz c Hc)|].
    specialize (Hlow c Hc). unfold is_lower_hex in Hlow. unfold indeterminate.
    apply orb_true_iff in Hlow.
    destruct Hlow as [H|H]; apply andb_true_iff in H; destruct H as [_ H];
      apply Z.leb_le in H; lia.
Qed.

Lemma hex_digit_inj d e : 0 <= d < 16 -> 0 <= e < 16 -> hex_digit d = hex_digit e -> d = e.
Proof.
  unfold hex_digit. intros Hd He.
  destruct (d <? 10) eqn:Ed; destruct (e <? 10) eqn:Ee;
    try apply Z.ltb_lt in Ed; try apply Z.ltb_ge in Ed;
    try apply Z.ltb_lt in Ee; try apply Z.ltb_ge in Ee; lia.
Qed.

Lemma hex_of_inj h1 : forall h2,
  Forall (fun b => 0 <= b < 256) h1 -> Forall (fun b => 0 <= b < 256) h2 ->
  hex_of h1 = hex_of h2 -> h1 = h2.
Proof.
  induction h1 as [|b h1 IH]; intros [|c h2] H1 H2 Heq; try discriminate Heq; [reflexivity|].
  inversion H1 as [|? ? Hb H1']; subst. inversion H2 as [|? ? Hc H2']; subst.
  cbn [hex_of flat_map app] in Heq. injection Heq as Hhi Hlo Hrest.
  rewrite (Z.mod_small b), (Z.mod_small c) in Hhi, Hlo by lia.
  apply hex_digit_inj in Hhi;
    [| split; [apply Z.div_pos; lia | apply Z.div_lt_upper_bound; lia]
     | split; [apply Z.div_pos; lia | apply Z.div_lt_upper_bound; lia]].
  apply hex_digit_inj in Hlo; [| apply Z.mod_pos_bound; lia | apply Z.mod_pos_bound; lia].
  f_equal.
  - rewrite (Z.div_mod b 16), (Z.div_mod c 16) by lia. rewrite Hhi, Hlo. reflexivity.
  - apply IH; assumption.
Qed.

(** *** The bytes of a name that are hashed (line 148) *)

Lemma firstn_bytes_of_wchars k l :
  firstn (2 * k) (bytes_of_wchars l) = bytes_of_wchars (firstn k l).
Proof.
  unfold bytes_of_wchars. revert l. induction k as [|k IH]; intros l; [reflexivity|].
  destruct l as [|c l]; [reflexivity|].
  replace (2 * S k)%nat with (S (S (2 * k))) by lia.
  cbn [flat_map firstn wchar_bytes app]. rewrite IH. reflexivity.
Qed.

Lemma bytes_of_wchars_inj l1 : forall l2,
  Forall (fun c => 0 <= c < 65536) l1 -> Forall (fun c => 0 <= c < 65536) l2 ->
  bytes_of_wchars l1 = bytes_of_wchars l2 -> l1 = l2.
Proof.
  unfold bytes_of_wchars.
  induction l1 as [|c l1 IH]; intros [|d l2] H1 H2 Heq; try discriminate Heq; [reflexivity|].
  inversion H1 as [|? ? Hc H1']; subst. inversion H2 as [|? ? Hd H2']; subst.
  cbn [flat_map wchar_bytes app] in Heq. injection Heq as Hlo Hhi Hrest.
  rewrite (Z.mod_small (c / 256)), (Z.mod_small (d / 256)) in Hhi
    by (split; [apply Z.div_pos; lia | apply Z.div_lt_upper_bound; lia]).
  f_equal.
  - rewrite (Z.div_mod c 256), (Z.div_mod d 256) by lia. rewrite Hlo, Hhi. reflexivity.
  - apply IH; assumption.
Qed.

Lemma name_bytes_hashed_count n :
  Forall (fun c => c <> 0) n -> Z.of_nat (List.length n) + 2 < 2 ^ 31 ->
  name_bytes_hashed n = firstn (List.length n + 2) (bytes_of_wchars (n ++ [0])).
Proof.
  intros Hn Hlen. unfold name_bytes_hashed.
  rewrite wcslen_terminated by exact Hn.
  unfold int_of_size_t, ULONG_of_int.
  rewrite (Z.mod_small (_ + 2 ^ 31)) by lia.
  rewrite Z.mod_small by lia.
  replace (Z.of_nat (List.length n) + 2 ^ 31 - 2 ^ 31 + 2)
    with (Z.of_nat (List.length n + 2)) by lia.
  rewrite Nat2Z.id. reflexivity.
Qed.

(** *** [NormalizeStringAlloc] (lines 26-45) *)

Lemma list_base {A} (base : list A) : base = [] ++ base.
Proof. reflexivity. Qed.

Lemma list_cons {A} (x : A) l w base : l = w ++ base -> x :: l = (x :: w) ++ base.
Proof. intros ->. reflexivity. Qed.

Lemma list_app {A} (m l w base : list A) : l = w ++ base -> m ++ l = (m ++ w) ++ base.
Proof. intros ->. apply app_assoc. Qed.

(** A list found as what was put before a given end. *)
Ltac split_list :=
  repeat first [ apply list_base | apply list_cons | apply list_app ].

Ltac api_list :=
  repeat first [ apply Forall_nil
               | apply Forall_cons; [first [left; reflexivity | right; reflexivity] |] ].

Lemma fresh_not_held (k : Kind) (nh : positive) (lv : list Resource) :
  (forall x, In x lv -> snd x < Z.pos nh) -> ~ In (k, Z.pos nh) lv.
Proof. intros H Hin. specialize (H _ Hin). cbn in H. lia. Qed.

Section NormalizeYield.

Variable P : Platform.

Lemma NormalizeStringAlloc_loop_yield NormForm Source fuel : forall st Len r st',
  NormalizeStringAlloc_loop P fuel NormForm Source Len st = Ok r st' ->
  normalize_yield P NormForm Source st r st'.
Proof.
  induction fuel as [|fuel IH]; intros st Len r st'; [discriminate|].
  destruct st as [ns0 bd0 cs alg0 le scr ans nh lv hs cl lg].
  rewrite NormalizeStringAlloc_loop_unfold.
  unfold NormalizeString. unfold_calls. cbn.
  destruct (take ApiAllocArray scr) as [e s1] eqn:Ealloc. cbn.
  destruct (e =? 0) eqn:Ee; cbn.
  2:{ (* no memory *)
      apply Z.eqb_neq in Ee.
      intros H. apply Ok_inj in H. destruct H as [<- <-].
      unfold normalize_yield, normalize_failure, handles_fresh. cbn.
      split; [eexists [_]; split; [reflexivity | api_list]|].
      split; [reflexivity|].
      intros _. left. exists e, []. repeat split; assumption. }
  destruct (normalize P NormForm Source) as [n|] eqn:En.
  - destruct (Z.of_nat (List.length n) + 1 <=? Len) eqn:Efit; cbn.
    + (* the block is large enough *)
      replace (0 <? Z.of_nat (List.length n) + 1) with true
        by (symmetry; apply Z.ltb_lt; lia).
      cbn. intros H. apply Ok_inj in H. destruct H as [<- <-].
      unfold normalize_yield, handles_fresh. cbn.
      split; [eexists [_]; split; [reflexivity | api_list]|].
      split; [intros _; split; [reflexivity | lia]|]. discriminate.
    + destruct (take ApiNormalizeString s1) as [z s2] eqn:Enorm. cbn.
      destruct (Len =? 0) eqn:ELen; cbn.
      * (* a size is returned for an empty block *)
        replace (0 <? Z.max 1 (Z.of_nat (List.length n) + 1 + z)) with true
          by (symmetry; apply Z.ltb_lt; lia).
        cbn. intros H. apply Ok_inj in H. destruct H as [<- <-].
        unfold normalize_yield, handles_fresh. cbn.
        split; [eexists [_; _]; split; [reflexivity | api_list]|].
        split; [intros _; split; [reflexivity | lia]|]. discriminate.
      * (* the block is too small *)
        replace (0 <? - Z.max 1 (Z.of_nat (List.length n) + 1 + z)) with false
          by (symmetry; apply Z.ltb_ge; lia).
        cbn. intros Hrun. apply IH in Hrun.
        unfold normalize_yield, handles_fresh in *. cbn in Hrun |- *.
        destruct Hrun as ((j & Hj & Hapis) & Hlive & Hfail).
        split; [|split].
        -- exists (j ++ [(ApiNormalizeString, z); (ApiAllocArray, e)]).
           rewrite Hj, <- app_assoc. split; [reflexivity|].
           apply Forall_app. split; [exact Hapis | api_list].
        -- intros Hfresh.
           pose proof (fresh_not_held KHeap nh lv Hfresh) as Hnew.
           rewrite without_head, (without_absent _ _ Hnew) in Hlive.
           assert (Hfresh' : forall x, In x lv -> snd x < Z.pos (Pos.succ nh))
             by (intros x Hx; specialize (Hfresh x Hx); lia).
           specialize (Hlive Hfresh').
           destruct r as [[Str mem]|]; [|exact Hlive].
           destruct Hlive as [Hl Hb]. split; [exact Hl | lia].
        -- intros Hr. specialize (Hfail Hr).
           unfold normalize_failure in *. cbn in Hfail |- *.
           destruct Hfail as [(e' & j' & H1 & H2 & H3 & H4) | (z' & j' & H1 & _)].
           ++ left. exists e', (j' ++ [(ApiNormalizeString, z); (ApiAllocArray, e)]).
              rewrite H1, <- app_assoc. repeat split; assumption.
           ++ rewrite En in H1. discriminate H1.
  - (* the text cannot be normalized *)
    cbn. destruct (take ApiNormalizeString s1) as [z s2] eqn:Enorm. cbn.
    replace (0 <? - Z.abs z) with false by (symmetry; apply Z.ltb_ge; lia).
    cbn. intros H. apply Ok_inj in H. destruct H as [<- <-].
    unfold normalize_yield, normalize_failure, handles_fresh. cbn.
    split; [eexists [_; _]; split; [reflexivity | api_list]|].
    split.
    + intros Hfresh. rewrite without_head.
      apply without_absent, (fresh_not_held KHeap nh lv Hfresh).
    + intros _. right. exists z, [(ApiAllocArray, e)]. repeat split. exact En.
Qed.

Lemma NormalizeStringAlloc_yield NormForm Source st r st' :
  NormalizeStringAlloc P NormForm Source st = Ok r st' ->
  normalize_yield P NormForm Source st r st'.
Proof.
  destruct st as [ns0 bd0 cs alg0 le scr ans nh lv hs cl lg].
  unfold NormalizeStringAlloc, NormalizeString. unfold_calls. cbn.
  assert (Hstep : forall z s1 le1 cl1,
    normalize_yield P NormForm Source
      (mkState ns0 bd0 cs alg0 le1 s1 ((ApiNormalizeString, z) :: ans) nh lv hs cl1 lg) r st' ->
    normalize_yield P NormForm Source
      (mkState ns0 bd0 cs alg0 le scr ans nh lv hs cl lg) r st').
  { intros z s1 le1 cl1 ((j & Hj & Hapis) & Hlive & Hfail).
    unfold normalize_yield, normalize_failure, handles_fresh in *. cbn in *.
    split; [|split; [exact Hlive|]].
    - exists (j ++ [(ApiNormalizeString, z)]). rewrite Hj, <- app_assoc.
      split; [reflexivity|]. apply Forall_app. split; [exact Hapis | api_list].
    - intros Hr. destruct (Hfail Hr) as [(e' & j' & H1 & H2) | (z' & j' & H0 & H1 & H2)].
      + left. exists e', (j' ++ [(ApiNormalizeString, z)]).
        rewrite H1, <- app_assoc. split; [reflexivity | exact H2].
      + right. exists z', (j' ++ [(ApiNormalizeString, z)]).
        rewrite H1, <- app_assoc. split; [exact H0|]. split; [reflexivity | exact H2]. }
  destruct (normalize P NormForm Source) as [n|] eqn:En.
  - replace (Z.of_nat (List.length n) + 1 <=? 0) with false
      by (symmetry; apply Z.leb_gt; lia).
    cbn. destruct (take ApiNormalizeString scr) as [z s1] eqn:Enorm. cbn.
    intros Hrun. apply NormalizeStringAlloc_loop_yield in Hrun.
    eapply Hstep. exact Hrun.
  - cbn. destruct (take ApiNormalizeString scr) as [z s1] eqn:Enorm. cbn.
    intros Hrun. apply NormalizeStringAlloc_loop_yield in Hrun.
    eapply Hstep. exact Hrun.
Qed.

End NormalizeYield.

(** *** [NamespaceRuntimeInit] (lines 48-115) *)

Lemma filter_without (f : Resource -> bool) r l :
  f r = false -> filter f (without r l) = filter f l.
Proof.
  intros Hr. unfold without. induction l as [|x l IH]; [reflexivity|].
  cbn [remove]. destruct (Resource_eq_dec r x) as [<-|Hne].
  - cbn [filter]. rewrite Hr. exact IH.
  - cbn [filter]. rewrite IH. reflexivity.
Qed.

Lemma split_keeps_tail {A} (e : A) (tail : list A) (l : list A) : forall after before,
  l ++ tail = after ++ e :: before -> ~ In e tail ->
  exists m, before = m ++ tail.
Proof.
  induction l as [|x l IH]; intros after before Heq Hno.
  - exfalso. apply Hno. cbn in Heq. rewrite Heq. apply in_elt.
  - destruct after as [|y after].
    + cbn in Heq. injection Heq as _ <-. exists l. reflexivity.
    + cbn in Heq. injection Heq as _ Heq. exact (IH _ _ Heq Hno).
Qed.

Lemma failed_attempts_calls P bd old :
  bd <> NULL ->
  Forall (failed_attempt bd) old ->
  filter is_lock_call old = [] /\ Forall (init_call_ok P bd) old.
Proof.
  intros Hbd. induction 1 as [|e old He Hold [IH1 IH2]]; [split; constructor|].
  destruct He as [-> | ->]; cbn; (split; [exact IH1 | constructor; [repeat split; auto | exact IH2]]).
Qed.

Lemma namespace_apis_init j :
  Forall (fun a => fst a = ApiCreatePrivateNamespaceW \/ fst a = ApiOpenPrivateNamespaceW) j ->
  Forall (fun a => is_init_api a = true) j.
Proof.
  apply Forall_impl. intros a [H | H]; unfold is_init_api; rewrite H; reflexivity.
Qed.

(** No call in a list of calls is one on the namespace. *)
Ltac no_namespace_call :=
  let after := fresh "after" in let e := fresh "e" in let before := fresh "before" in
  let Hsplit := fresh "Hsplit" in let He := fresh "He" in
  intros after e before Hsplit He; exfalso;
  assert (Hin : In e (after ++ e :: before)) by apply in_elt;
  rewrite <- Hsplit in Hin; cbn in Hin;
  repeat (destruct Hin as [<-|Hin]; [discriminate He|]); exact Hin.

Section InitYield.

Variable P : Platform.

Lemma NamespaceRuntimeInit_yield st b st' :
  NamespaceRuntimeInit P st = Ok b st' -> init_yield P st st'.
Proof.
  unfold NamespaceRuntimeInit, cleanupBoundaryDescriptor, cleanupBCryptCloseAlgorithmProvider,
    cleanupLeaveCriticalSection.
  fold (chosen_sid P).
  unfold_calls.
  destruct st as [ns0 bd0 cs alg0 le scr ans nh lv hs cl lg].
  run.
  - (* the loop *)
    match goal with |- context [PrivateNamespace_loop ?f ?s] =>
      destruct (PrivateNamespace_loop_spec f s) as (r & st2 & Hrun & Hpost);
      [cbn; lia | rewrite Hrun; clear Hrun] end.
    unfold namespace_loop_post in Hpost.
    destruct st2 as [ns2 bd2 cs2 alg2 le2 scr2 ans2 nh2 lv2 hs2 cl2 lg2].
    cbn in Hpost.
    destruct Hpost as (Hb & Hi & Ha & Hh & (j & Hj & Hr & Hf) & Hcase).
    subst.
    assert (Hbd : Z.pos (Pos.succ nh) <> NULL) by discriminate.
    destruct r as [e|]; run.
    + destruct Hcase as (Hns & Hnext & Hlive & Herr & (msg & Hlog) & old & Hcalls & Hold).
      subst.
      destruct (failed_attempts_calls P _ _ Hbd Hold) as [Hq1 Hq2].
      unfold init_yield. cbn.
      eexists _, _.
      split; [split_list|]. split; [split_list|].
      split; [apply Forall_app; split; [exact (namespace_apis_init _ Hf) | forall_list]|].
      split; [cbn; rewrite filter_app, Hq1; reflexivity|].
      split.
      { repeat (apply Forall_cons; [exact I|]).
        apply Forall_app. split; [exact Hq2|]. repeat constructor; auto. }
      split.
      { intros after e0 before Hsplit He.
        change (?a :: ?b :: ?c :: ?d :: old ++ ?t) with ([a; b; c; d] ++ old ++ t) in Hsplit.
        rewrite app_assoc in Hsplit.
        apply split_keeps_tail in Hsplit.
        - destruct Hsplit as (m & ->). apply in_or_app. right. left. reflexivity.
        - intros Hin. cbn in Hin.
          repeat (destruct Hin as [<-|Hin]; [discriminate He|]). exact Hin. }
      rewrite !filter_without by reflexivity. reflexivity.
    + destruct Hcase as (Hns & Hnext & Hlive & Hlog & c & old & Hcalls & Hc & Hold).
      subst.
      destruct (failed_attempts_calls P _ _ Hbd Hold) as [Hq1 Hq2].
      unfold init_yield. cbn.
      eexists _, _.
      split; [split_list|]. split; [split_list|].
      split; [apply Forall_app; split; [exact (namespace_apis_init _ Hf) | forall_list]|].
      split; [destruct Hc as [-> | ->]; cbn; rewrite filter_app, Hq1; reflexivity|].
      split.
      { apply Forall_cons; [exact I|].
        apply Forall_cons; [destruct Hc as [-> | ->]; cbn; auto|].
        apply Forall_app. split; [exact Hq2|]. repeat constructor; auto. }
      split.
      { intros after e0 before Hsplit He.
        change (?a :: c :: old ++ ?t) with ((a :: c :: old) ++ t) in Hsplit.
        apply split_keeps_tail in Hsplit.
        - destruct Hsplit as (m & ->). apply in_or_app. right. left. reflexivity.
        - intros Hin. cbn in Hin.
          repeat (destruct Hin as [<-|Hin]; [discriminate He|]). exact Hin. }
      reflexivity.
  - unfold init_yield. cbn. eexists _, _.
    split; [split_list|]. split; [split_list|].
    split; [forall_list|]. split; [reflexivity|].
    split; [repeat constructor; auto; discriminate|].
    split; [no_namespace_call|].
    rewrite !filter_without by reflexivity. reflexivity.
  - unfold init_yield. cbn. eexists _, _.
    split; [split_list|]. split; [split_list|].
    split; [forall_list|]. split; [reflexivity|].
    split; [repeat constructor; auto; discriminate|].
    split; [no_namespace_call|].
    rewrite !filter_without by reflexivity. reflexivity.
  - unfold init_yield. cbn. eexists _, _.
    split; [split_list|]. split; [split_list|].
    split; [forall_list|]. split; [reflexivity|].
    split; [repeat constructor; auto; discriminate|].
    split; [no_namespace_call|].
    rewrite !filter_without by reflexivity. reflexivity.
  - unfold init_yield. cbn. eexists _, _.
    split; [split_list|]. split; [split_list|].
    split; [forall_list|]. split; [reflexivity|].
    split; [repeat constructor; auto; discriminate|].
    split; [no_namespace_call|].
    reflexivity.
  - unfold init_yield. cbn. eexists _, _.
    split; [split_list|]. split; [split_list|].
    split; [forall_list|]. split; [reflexivity|].
    split; [repeat constructor; auto; discriminate|].
    split; [no_namespace_call|].
    reflexivity.
Qed.

End InitYield.

(** *** The acquisitions after the initialization (lines 124-189, 198-214) *)

Lemma normalize_calls_pool alg l :
  Forall (fun c => is_normalize_call c = true) l -> Forall (pool_call_ok alg) l.
Proof.
  apply Forall_impl. intros e He. destruct e; try discriminate He; split; reflexivity.
Qed.

(** What is held, after the resources of a run are given back. *)
Ltac not_held :=
  let Hin := fresh "Hin" in
  intros Hin;
  repeat (apply in_without in Hin; destruct Hin as [Hin _]);
  cbn in Hin;
  repeat (destruct Hin as [Hin|Hin]; [first [discriminate Hin | injection Hin; intros; unfold HANDLE in *; lia] |]);
  match goal with
  | Hfresh : forall x, In x _ -> snd x < _ |- _ =>
      specialize (Hfresh _ Hin); cbn [snd] in Hfresh; unfold HANDLE in *; lia
  end.

Ltac held_simpl :=
  repeat first [ rewrite without_head
               | rewrite without_other by discriminate
               | rewrite without_nil
               | rewrite without_absent by not_held ].

(** The step that has failed, read off the tests of the run. *)
Ltac failed_step :=
  cbn; unfold BCRYPT_SUCCESS in *;
  repeat match goal with
         | H : (_ || _) = false |- _ => apply orb_false_iff in H; destruct H
         | H : (_ =? _) = false |- _ => apply Z.eqb_neq in H
         | H : (_ <=? _) = false |- _ => apply Z.leb_gt in H
         end;
  first [assumption | split; assumption | lia | exact I].

Ltac failure_goal :=
  let Hret := fresh "Hret" in
  intros Hret;
  first
    [ discriminate Hret
    | split;
      [ first [ eexists [], _, _; cbn [app];
                split; [reflexivity|]; split; [apply Forall_nil|];
                split; [failed_step | reflexivity]
              | eexists [_], _, _; cbn [app];
                split; [reflexivity|];
                split; [apply Forall_cons; [reflexivity | apply Forall_nil]|];
                split; [failed_step | reflexivity] ]
      | try (eexists; reflexivity) ] ].

(** The mutex whose handle is returned was made in the run. *)
Ltac created_goal :=
  let Hne := fresh "Hne" in
  intros Hne;
  first [ exfalso; apply Hne; reflexivity
        | eexists; repeat first [left; reflexivity | right]
        | repeat first [left; reflexivity | right] ].

Section AcquireYield.

Variable P : Platform.

Lemma NamespaceTakePoolMutex_yield Pool st ret st' :
  NamespaceTakePoolMutex P Pool st = Ok ret st' ->
  exists b st1,
    NamespaceRuntimeInit P st = Ok b st1 /\
    if b then pool_yield P st1 ret st' else ret = NULL /\ st' = st1.
Proof.
  unfold NamespaceTakePoolMutex, cleanupPoolNorm, cleanupSha256.
  unfold_calls.
  destruct (NamespaceRuntimeInit P st) as [b st1|k] eqn:Hinit; [|discriminate].
  destruct b; cbn.
  2:{ intros H. apply Ok_inj in H. destruct H as [<- <-]. exists false, st1. auto. }
  intros H. exists true, st1. split; [reflexivity|]. revert H.
  destruct st1 as [ns1 bd1 cs1 alg1 le1 scr1 ans1 nh1 lv1 hs1 cl1 lg1].
  run.
  - (* the name is normalized *)
    match goal with |- context [NormalizeStringAlloc P ?f ?src ?s] =>
      destruct (NormalizeStringAlloc_spec P f src s) as (r & st3 & Hrun & Hpost);
      pose proof (NormalizeStringAlloc_yield P _ _ _ _ _ Hrun) as Hyield;
      rewrite Hrun; clear Hrun end.
    destruct st3 as [ns3 bd3 cs3 alg3 le3 scr3 ans3 nh3 lv3 hs3 cl3 lg3].
    unfold normalize_post, quiet_change in Hpost. cbn in Hpost.
    destruct Hpost as ((E1 & E2 & E3 & E4 & Hnh & _ & _) & Hh & (newn & Hcalls & Hnewn) & Hr).
    unfold normalize_yield, normalize_failure, handles_fresh in Hyield. cbn in Hyield.
    destruct Hyield as ((jn & Hjn & _) & Hheld & Hfail).
    subst ns3 bd3 cs3 alg3 hs3 cl3.
    pose proof (normalize_calls_pool alg1 _ Hnewn) as Hok.
    destruct r as [[PoolNorm mem]|].
    + subst ans3. destruct Hr as (n & Hn & -> & HPoolNorm & HPoolNorm').
      run.
      all: unfold pool_yield, held_after, failure_in, handles_fresh; cbn.
      all: eexists _, _.
      all: (split; [split_list|]). 
      all: (split; [split_list|]).
      all: (split; [repeat (apply Forall_cons; [split; reflexivity|]);
                    apply Forall_app; split; [exact Hok|];
                    repeat (apply Forall_cons; [split; reflexivity|]); apply Forall_nil|]).
      all: split;
        [ intros Hfresh;
          assert (Hfresh2 : forall x, (KHash, Z.pos nh1) = x \/ In x lv1 ->
                                      snd x < Z.pos (Pos.succ nh1))
            by (intros x [<-|Hx]; [cbn [snd]; lia | specialize (Hfresh x Hx); unfold HANDLE in *; lia]);
          destruct (Hheld Hfresh2) as [-> Hp];
          held_simpl;
          first [ split; [reflexivity | lia]
                | left; reflexivity
                | right; eexists _, _; split; [reflexivity|];
                  split; [left; reflexivity | failed_step] ]
        | split; [failure_goal | created_goal] ].
    + destruct (Hfail eq_refl)
        as [(e & j' & Hans & He & Hle & Hlg) | (z1 & j' & Hnone & Hans & Hle & Hlg)];
        subst ans3 le3 lg3;
        rewrite app_comm_cons in Hans;
        change (?x :: ?y :: ans1) with ([x; y] ++ ans1) in Hans;
        rewrite !app_assoc in Hans; apply app_inv_tail in Hans;
        apply app_inv_tail in Hans; subst jn; run.
      all: unfold pool_yield, held_after, failure_in, handles_fresh; cbn.
      all: eexists _, _.
      all: (split; [split_list|]).
      all: (split; [split_list|]).
      all: (split; [repeat (apply Forall_cons; [split; reflexivity|]);
                    apply Forall_app; split; [exact Hok|];
                    repeat (apply Forall_cons; [split; reflexivity|]); apply Forall_nil|]).
      all: split;
        [ intros Hfresh;
          assert (Hfresh2 : forall x, (KHash, Z.pos nh1) = x \/ In x lv1 ->
                                      snd x < Z.pos (Pos.succ nh1))
            by (intros x [<-|Hx]; [cbn [snd]; lia
                                  | specialize (Hfresh x Hx); unfold HANDLE in *; lia]);
          rewrite (Hheld Hfresh2);
          held_simpl; left; reflexivity
        | split; [failure_goal | created_goal] ].
  - (* the label cannot be hashed *)
    unfold pool_yield, held_after, failure_in, handles_fresh; cbn.
    eexists _, _.
    split; [split_list|]. split; [split_list|].
    split; [repeat (apply Forall_cons; [split; reflexivity|]); apply Forall_nil|].
    split; [intros Hfresh; held_simpl; left; reflexivity|].
    split; [failure_goal | created_goal].
  - (* the hash object cannot be created *)
    unfold pool_yield, held_after, failure_in, handles_fresh; cbn.
    eexists _, _.
    split; [split_list|]. split; [split_list|].
    split; [repeat (apply Forall_cons; [split; reflexivity|]); apply Forall_nil|].
    split; [intros Hfresh; left; reflexivity|].
    split; [failure_goal | created_goal].
Qed.

Lemma NamespaceTakeDriverInstallationMutex_yield st ret st' :
  NamespaceTakeDriverInstallationMutex P st = Ok ret st' ->
  exists b st1,
    NamespaceRuntimeInit P st = Ok b st1 /\
    if b then installation_yield st1 ret st' else ret = NULL /\ st' = st1.
Proof.
  unfold NamespaceTakeDriverInstallationMutex.
  unfold_calls.
  destruct (NamespaceRuntimeInit P st) as [b st1|k] eqn:Hinit; [|discriminate].
  destruct b; cbn.
  2:{ intros H. apply Ok_inj in H. destruct H as [<- <-]. exists false, st1. auto. }
  intros H. exists true, st1. split; [reflexivity|]. revert H.
  destruct st1 as [ns1 bd1 cs1 alg1 le1 scr1 ans1 nh1 lv1 hs1 cl1 lg1].
  run.
  all: unfold installation_yield, installation_failure, held_after, handles_fresh; cbn.
  all: eexists _, _.
  all: (split; [split_list|]).
  all: (split; [split_list|]).
  all: (split; [repeat (apply Forall_cons; [reflexivity|]); apply Forall_nil|]).
  all: split;
    [ intros Hfresh; held_simpl;
      first [ split; [reflexivity | lia]
            | left; reflexivity
            | right; eexists _, _; split; [reflexivity|];
              split; [left; reflexivity | failed_step] ]
    | split; [|created_goal] ].
  all: intros Hret; try discriminate Hret.
  all: try (apply Z.eqb_eq in Eif; subst).
  all: first [ left; eexists; split; [reflexivity|]; split; [failed_step|];
               repeat split; reflexivity
             | right; eexists _, _, _; split; [reflexivity|];
               apply orb_false_iff in Eif0; destruct Eif0 as [W1 W2];
               apply Z.eqb_neq in W1; apply Z.eqb_neq in W2;
               repeat split; first [assumption | reflexivity | discriminate] ].
Qed.

End AcquireYield.

(** *** Whole calls *)

Lemma NamespaceRuntimeInit_fresh P st b st' :
  NamespaceRuntimeInit P st = Ok b st' -> handles_fresh st ->
  handles_fresh st' /\ (next_handle st <= next_handle st')%positive.
Proof.
  intros Hrun Hfresh. apply NamespaceRuntimeInit_spec in Hrun.
  unfold handles_fresh in *.
  destruct Hrun as (_ & _ & [Hfast | [Hdone | Hfail]]).
  - destruct Hfast as (_ & _ & ->). destruct st. cbn in *. split; [exact Hfresh | lia].
  - destruct Hdone as (_ & _ & Ha & Hb & Hn & Hnh & Hlive & _).
    rewrite Hlive, Hnh, Hn, Hb, Ha. split; [|lia].
    intros x [<-|[<-|[<-|Hx]]]; cbn [snd]; try lia.
    specialize (Hfresh x Hx). unfold HANDLE in *. lia.
  - destruct Hfail as (_ & _ & _ & Hincl & Hnh & _). split; [|exact Hnh].
    intros x Hx. specialize (Hfresh x (Hincl x Hx)). unfold HANDLE in *. lia.
Qed.

Lemma NamespaceReleaseMutex_exact Mutex st :
  exists e1 e2 st',
    NamespaceReleaseMutex Mutex st = Ok tt st' /\
    answered st' = (ApiCloseHandle, e2) :: (ApiReleaseMutex, e1) :: answered st /\
    live st' = (if e2 =? 0
                then without (KNamespace, Mutex) (without (KMutex, Mutex) (live st))
                else live st) /\
    PrivateNamespace st' = PrivateNamespace st /\
    next_handle st' = next_handle st.
Proof.
  destruct st as [ns0 bd0 cs alg0 le scr ans nh lv hs cl lg].
  unfold NamespaceReleaseMutex. unfold_calls.
  run.
  all: match goal with
       | E1 : take ApiReleaseMutex _ = (?a, _), E2 : take ApiCloseHandle _ = (?b, _) |- _ =>
           exists a, b; eexists; (split; [reflexivity|]); cbn;
           match goal with H : (b =? 0) = _ |- _ => rewrite H end
       end.
  all: repeat split.
Qed.

Lemma filter_filter_sub {A} (f g : A -> bool) l :
  (forall x, f x = true -> g x = true) ->
  filter f (filter g l) = filter f l.
Proof.
  intros Hsub. induction l as [|x l IH]; [reflexivity|].
  cbn [filter]. destruct (g x) eqn:Eg.
  - cbn [filter]. rewrite IH. reflexivity.
  - destruct (f x) eqn:Ef; [rewrite (Hsub x Ef) in Eg; discriminate Eg | exact IH].
Qed.

Lemma scratch_is_other x : is_scratch_kind x = true -> is_other_kind x = true.
Proof. destruct x as [[] h]; cbn; congruence. Qed.

(** Taking the three resources of the context out of what is held leaves
    what is not of the context. *)
Lemma without_context a b c l :
  filter is_context_kind l = [a; b; c] ->
  without b (without a (without c l)) = filter is_other_kind l.
Proof.
  intros Hctx.
  assert (Hin : forall x, In x l -> is_context_kind x = true -> x = a \/ x = b \/ x = c).
  { intros x Hx Hk.
    assert (H : In x (filter is_context_kind l)) by (apply filter_In; auto).
    rewrite Hctx in H. cbn in H. intuition. }
  assert (Ha : is_context_kind a = true)
    by (apply (proj1 (filter_In is_context_kind a l)); rewrite Hctx; cbn; auto).
  assert (Hb : is_context_kind b = true)
    by (apply (proj1 (filter_In is_context_kind b l)); rewrite Hctx; cbn; auto).
  assert (Hc : is_context_kind c = true)
    by (apply (proj1 (filter_In is_context_kind c l)); rewrite Hctx; cbn; auto).
  clear Hctx. induction l as [|x l IH]; [reflexivity|].
  assert (IH' := IH (fun y Hy => Hin y (or_intror Hy))). clear IH.
  unfold is_other_kind in *. cbn [filter].
  destruct (is_context_kind x) eqn:Ex; cbn [negb].
  - rewrite <- IH'.
    destruct (Resource_eq_dec c x) as [->|Hcx]; [rewrite without_head; reflexivity|].
    rewrite (without_other c x) by exact Hcx.
    destruct (Resource_eq_dec a x) as [->|Hax]; [rewrite without_head; reflexivity|].
    rewrite (without_other a x) by exact Hax.
    destruct (Resource_eq_dec b x) as [->|Hbx]; [rewrite without_head; reflexivity|].
    exfalso. destruct (Hin x (or_introl eq_refl) Ex) as [H|[H|H]]; congruence.
  - rewrite (without_other c x) by congruence.
    rewrite (without_other a x) by congruence.
    rewrite (without_other b x) by congruence.
    rewrite IH'. reflexivity.
Qed.

Lemma filter_none {A} (f : A -> bool) l :
  filter (fun x => negb (f x)) l = l <-> filter f l = [].
Proof.
  induction l as [|x l IH]; [split; reflexivity|].
  cbn [filter]. destruct (f x) eqn:Ef; cbn [negb].
  - split; [|discriminate]. intros H.
    assert (Hlen : (List.length (filter (fun y => negb (f y)) l) <= List.length l)%nat)
      by apply filter_length_le.
    rewrite H in Hlen. cbn in Hlen. lia.
  - split; intros H.
    + injection H as H. apply IH. exact H.
    + f_equal. apply IH. exact H.
Qed.

Lemma NamespaceRuntimeInit_unhindered P st depth :
  Initializing st = CsReady depth -> PrivateNamespace st = NULL -> script st = [] ->
  exists st',
    NamespaceRuntimeInit P st = Ok true st' /\
    PrivateNamespace st' <> NULL /\ script st' = [] /\
    Initializing st' = CsReady depth.
Proof.
  destruct st as [ns0 bd0 cs alg0 le scr ans nh lv hs cl lg]. cbn.
  intros -> -> ->.
  unfold NamespaceRuntimeInit. unfold_calls. cbn.
  rewrite PrivateNamespace_loop_unfold. unfold_calls. cbn.
  eexists. split; [reflexivity|]. cbn. repeat split. discriminate.
Qed.

Lemma handles_freshb_sound st : handles_freshb st = true -> handles_fresh st.
Proof.
  unfold handles_freshb, handles_fresh. intros H x Hx.
  rewrite forallb_forall in H. apply Z.ltb_lt. exact (H x Hx).
Qed.

Lemma context_consistentb_sound st : context_consistentb st = true -> context_consistent st.
Proof.
  unfold context_consistentb, context_consistent. intros H.
  apply andb_true_iff in H. destruct H as [Hf Hc].
  split; [exact (handles_freshb_sound st Hf)|].
  destruct (PrivateNamespace st =? NULL).
  - destruct (list_eq_dec Resource_eq_dec (context_live st) []); [assumption | discriminate Hc].
  - destruct (list_eq_dec Resource_eq_dec (context_live st) _); [assumption | discriminate Hc].
Qed.

Lemma split_in_front {A} (e : A) (tail : list A) (l : list A) : forall after before,
  l ++ tail = after ++ e :: before -> ~ In e tail ->
  exists m, l = after ++ e :: m /\ before = m ++ tail.
Proof.
  induction l as [|x l IH]; intros after before Heq Hno.
  - exfalso. apply Hno. cbn in Heq. rewrite Heq. apply in_elt.
  - destruct after as [|y after].
    + cbn in Heq. injection Heq as -> <-. exists l. split; reflexivity.
    + cbn in Heq. injection Heq as -> Heq.
      destruct (IH _ _ Heq Hno) as (m & -> & ->). exists m. split; reflexivity.
Qed.

Lemma filter_nothing {A} (f : A -> bool) l :
  Forall (fun x => f x = false) l -> filter f l = [].
Proof.
  induction 1 as [|x l Hx Hl IH]; [reflexivity|]. cbn [filter]. rewrite Hx. exact IH.
Qed.

Lemma init_calls_no_mutex l :
  Forall (fun c => is_init_call c = true) l ->
  Forall (fun c => is_mutex_call c = false) l /\
  Forall (fun c => match c with CallBCryptCreateHash _ _ => False | _ => True end) l.
Proof.
  induction 1 as [|c l Hc Hl [IH1 IH2]]; [split; constructor|].
  destruct c; try discriminate Hc; split; constructor; auto.
Qed.

Lemma init_failure_acquire P a :
  is_init_api a = true -> call_failed a ->
  acquire_failed a /\ acquire_surfaced P a = surfaced P a.
Proof.
  unfold is_init_api, call_failed, acquire_failed, acquire_surfaced, surfaced.
  destruct (fst a); intros Hapi Hf; try discriminate Hapi; split; auto.
Qed.

(** The calls and answers of a whole acquisition: those of the
    initialization and those that follow. *)
Lemma whole_run_calls st st1 st' (new1 new : list Event) :
  calls st1 = new1 ++ calls st -> calls st' = new ++ calls st1 ->
  calls_since st st' = new ++ new1.
Proof.
  intros H1 H2. apply calls_since_app. rewrite H2, H1, app_assoc. reflexivity.
Qed.

Lemma whole_run_answers st st1 st' (j1 j : list (Api * Z)) :
  answered st1 = j1 ++ answered st -> answered st' = j ++ answered st1 ->
  answers_since st st' = rev j1 ++ rev j.
Proof.
  intros H1 H2. rewrite (answers_since_app st st' (j ++ j1)).
  - apply rev_app_distr.
  - rewrite H2, H1, app_assoc. reflexivity.
Qed.


Lemma created_mutex_named Name h l :
  In (CallCreateMutexW Name h) l -> In Name (mutex_names l).
Proof.
  unfold mutex_names. induction l as [|e l IH]; [intros []|].
  intros [-> | Hin]; [left; reflexivity|].
  cbn [pick]. destruct e; auto. right. auto.
Qed.

(** *** Acquisitions that nothing hinders *)

Section Created.

Variable P : Platform.

Lemma NamespaceTakePoolMutex_created Pool n st depth :
  Initializing st = CsReady depth -> script st = [] ->
  normalize P NormalizationC Pool = Some n ->
  exists ret st',
    NamespaceTakePoolMutex P Pool st = Ok ret st' /\
    ret <> NULL /\
    In (CallCreateMutexW (pool_mutex_name n) ret) (calls_since st st').
Proof.
  destruct st as [ns0 bd0 cs alg0 le scr ans nh lv hs cl lg]. cbn.
  intros -> -> Hn.
  assert (Hlen : (Z.of_nat (Datatypes.length n) + 1 <=? 0) = false)
    by (apply Z.leb_gt; lia).
  assert (Hpos : (0 <? Z.of_nat (Datatypes.length n) + 1) = true)
    by (apply Z.ltb_lt; lia).
  unfold NamespaceTakePoolMutex, NamespaceRuntimeInit, NormalizeStringAlloc,
    NormalizeString, cleanupPoolNorm, cleanupSha256.
  unfold_calls. cbn.
  destruct (ns0 =? NULL) eqn:Ens; cbn.
  - rewrite PrivateNamespace_loop_unfold. unfold_calls. cbn.
    rewrite Hn. cbn. rewrite Hlen. cbn.
    rewrite NormalizeStringAlloc_loop_unfold. unfold NormalizeString. unfold_calls. cbn.
    rewrite Hn. cbn.
    rewrite Z.add_0_r, Z.max_r by lia. rewrite Z.leb_refl. cbn.
    rewrite Hpos. cbn.
    do 2 eexists. split; [reflexivity|]. cbn -[calls_since].
    split; [discriminate|].
    erewrite calls_since_app; [|cbn; split_calls].
    cbn. rewrite !hash_data_put. auto 10.
  - rewrite Hn. cbn. rewrite Hlen. cbn.
    rewrite NormalizeStringAlloc_loop_unfold. unfold NormalizeString. unfold_calls. cbn.
    rewrite Hn. cbn.
    rewrite Z.add_0_r, Z.max_r by lia. rewrite Z.leb_refl. cbn.
    rewrite Hpos. cbn.
    do 2 eexists. split; [reflexivity|]. cbn -[calls_since].
    split; [discriminate|].
    erewrite calls_since_app; [|cbn; split_calls].
    cbn. rewrite !hash_data_put. auto 10.
Qed.

Lemma NamespaceTakeDriverInstallationMutex_created st depth :
  Initializing st = CsReady depth -> script st = [] ->
  exists ret st',
    NamespaceTakeDriverInstallationMutex P st = Ok ret st' /\
    ret <> NULL /\
    In (CallCreateMutexW DriverInstallationMutexName ret) (calls_since st st').
Proof.
  destruct st as [ns0 bd0 cs alg0 le scr ans nh lv hs cl lg]. cbn.
  intros -> ->.
  unfold NamespaceTakeDriverInstallationMutex, NamespaceRuntimeInit.
  unfold_calls. cbn.
  destruct (ns0 =? NULL) eqn:Ens; cbn.
  - rewrite PrivateNamespace_loop_unfold. unfold_calls. cbn.
    do 2 eexists. split; [reflexivity|]. cbn -[calls_since].
    split; [discriminate|].
    erewrite calls_since_app; [|cbn; split_calls].
    cbn. auto 10.
  - do 2 eexists. split; [reflexivity|]. cbn -[calls_since].
    split; [discriminate|].
    erewrite calls_since_app; [|cbn; split_calls].
    cbn. auto 10.
Qed.

End Created.

(* ================================================================== *)
(** ** The claims of the specification *)

(** C1: for the pool name [L"Pool1"], which is its own normal form and has
    twelve bytes with its terminator, the run hashes the whole label with
    its terminator and then seven bytes of the name: the count given to
    [BCryptHashData] is the length in elements and two, not the size in
    bytes. *)
Theorem pool_name_hashed_in_part :
  normalize sample_platform NormalizationC Pool1 = Some Pool1 /\
  bytes_of_wchars (Pool1 ++ [0]) = [80; 0; 111; 0; 111; 0; 108; 0; 49; 0; 0; 0] /\
  returned (run_pool [] Pool1) = Some 6 /\
  hashed (calls_of (run_pool [] Pool1)) =
    [ [80; 0; 111; 0; 111; 0; 108]; bytes_of_wchars (mutex_label) ] /\
  List.length mutex_label = 62%nat /\ last mutex_label 1 = 0.
Proof. repeat split; vm_compute; reflexivity. Qed.

(** C2: [L"Pool1"] and [L"Pool2"] are two distinct normal forms, and the
    runs for them create the mutex of one and the same name. *)
Theorem pool_names_share_mutex :
  normalize sample_platform NormalizationC Pool1 = Some Pool1 /\
  normalize sample_platform NormalizationC Pool2 = Some Pool2 /\
  Pool1 <> Pool2 /\
  mutex_names (calls_of (run_pool [] Pool1)) =
    [wide "WireGuard\WireGuard-Name-Mutex-2d41ab7fbbfc814898ee55a94856326fd9fe40b71b151a94a72cd8c08d2268fe"] /\
  mutex_names (calls_of (run_pool [] Pool2)) =
    [wide "WireGuard\WireGuard-Name-Mutex-2d41ab7fbbfc814898ee55a94856326fd9fe40b71b151a94a72cd8c08d2268fe"].
Proof.
  split; [reflexivity|]. split; [reflexivity|]. split; [discriminate|].
  split; vm_compute; reflexivity.
Qed.

(** C3: every name that a pool acquisition gives to [CreateMutexW] is the
    prefix [WireGuard\WireGuard-Name-Mutex-] followed by the 64 lower case
    hexadecimal digits of the 32 bytes of the SHA-256 digest, and the handle
    it returns is that of the one mutex it has created, of such a name; an
    acquisition of the installation mutex hashes nothing, gives only the
    name [WireGuard\WireGuard-Driver-Installation-Mutex], creates the mutex
    of that name whenever its initialization succeeds, and returns the
    handle of that mutex.  When nothing hinders, both acquisitions create
    the mutex of their name and return its handle. *)
Theorem mutex_name_format (P : Platform) (st : State) (ret : HANDLE) (st' : State) :
  (forall Pool,
     NamespaceTakePoolMutex P Pool st = Ok ret st' ->
     (forall Name, In Name (mutex_names (calls_since st st')) ->
                   pool_name_format P Pool Name) /\
     (ret <> NULL ->
      exists Name,
        pool_name_format P Pool Name /\
        mutex_names (calls_since st st') = [Name] /\
        In (CallCreateMutexW Name ret) (calls_since st st'))) /\
  (NamespaceTakeDriverInstallationMutex P st = Ok ret st' ->
     hashed (calls_since st st') = [] /\
     (forall Name, In Name (mutex_names (calls_since st st')) ->
                   Name = wide "WireGuard\WireGuard-Driver-Installation-Mutex") /\
     (forall st1, NamespaceRuntimeInit P st = Ok true st1 ->
        mutex_names (calls_since st st') =
          [wide "WireGuard\WireGuard-Driver-Installation-Mutex"]) /\
     (ret <> NULL ->
      In (CallCreateMutexW (wide "WireGuard\WireGuard-Driver-Installation-Mutex") ret)
         (calls_since st st'))) /\
  (forall depth,
     Initializing st = CsReady depth -> script st = [] ->
     (forall Pool n,
        normalize P NormalizationC Pool = Some n ->
        exists r s Name,
          NamespaceTakePoolMutex P Pool st = Ok r s /\ r <> NULL /\
          pool_name_format P Pool Name /\
          In (CallCreateMutexW Name r) (calls_since st s)) /\
     (exists r s,
        NamespaceTakeDriverInstallationMutex P st = Ok r s /\ r <> NULL /\
        In (CallCreateMutexW (wide "WireGuard\WireGuard-Driver-Installation-Mutex") r)
           (calls_since st s))).
Proof.
  assert (Hformat : forall Pool s r s',
            NamespaceTakePoolMutex P Pool s = Ok r s' ->
            forall Name, In Name (mutex_names (calls_since s s')) ->
                         pool_name_format P Pool Name /\
                         mutex_names (calls_since s s') = [Name]).
  { intros Pool s r s' Hrun Name HName.
    destruct (pool_run_calls _ _ _ _ _ Hrun) as (_ & [Hnone | (n & Hn & Hnames & _)]).
    - rewrite Hnone in HName. destruct HName.
    - rewrite Hnames in HName. destruct HName as [<- | []].
      split; [|exact Hnames].
      exists n, (SHA256.digest (label_bytes_hashed ++ name_bytes_hashed n)).
      split; [exact Hn|]. split; [reflexivity|].
      split; [apply digest_length|].
      split; [apply pool_mutex_name_format|].
      split; [rewrite hex_of_length, digest_length; reflexivity | apply hex_of_lower]. }
  split; [|split].
  - intros Pool Hrun. split.
    + intros Name HName. exact (proj1 (Hformat _ _ _ _ Hrun Name HName)).
    + intros Hret. pose proof Hrun as Hy. apply NamespaceTakePoolMutex_yield in Hy.
      destruct Hy as (b & st1 & Hinit & Hy).
      destruct b; [|destruct Hy as [Hnull _]; contradiction].
      pose proof (NamespaceRuntimeInit_yield P _ _ _ Hinit) as (new1 & j1 & Hcalls1 & _).
      destruct Hy as (new & j & Hcalls & _ & _ & _ & _ & Hmade).
      destruct (Hmade Hret) as (Name & HName). exists Name.
      assert (Hin : In (CallCreateMutexW Name ret) (calls_since st st')).
      { rewrite (whole_run_calls _ _ _ _ _ Hcalls1 Hcalls).
        apply in_or_app. left. exact HName. }
      destruct (Hformat _ _ _ _ Hrun Name (created_mutex_named _ _ _ Hin)) as [Hf Hn].
      split; [exact Hf|]. split; [exact Hn | exact Hin].
  - intros Hrun.
    destruct (installation_run_calls _ _ _ _ Hrun) as (_ & Hhashed & Hnames).
    assert (Honly : forall Name, In Name (mutex_names (calls_since st st')) ->
                                 Name = DriverInstallationMutexName).
    { intros Name HName. destruct Hnames as [Hnames | Hnames]; rewrite Hnames in HName.
      - destruct HName.
      - destruct HName as [<- | []]. reflexivity. }
    assert (Hone : forall h, In (CallCreateMutexW DriverInstallationMutexName h)
                                (calls_since st st') ->
                             mutex_names (calls_since st st') = [DriverInstallationMutexName]).
    { intros h Hin. apply created_mutex_named in Hin.
      destruct Hnames as [Hnames | Hnames]; [|exact Hnames].
      rewrite Hnames in Hin. destruct Hin. }
    apply NamespaceTakeDriverInstallationMutex_yield in Hrun.
    destruct Hrun as (b & st1 & Hinit & Hy).
    pose proof (NamespaceRuntimeInit_yield P _ _ _ Hinit) as (new1 & j1 & Hcalls1 & _).
    split; [exact Hhashed|]. split; [exact Honly|]. split.
    + intros st2 Hinit2. rewrite Hinit in Hinit2. apply Ok_inj in Hinit2.
      destruct Hinit2 as [-> _].
      destruct Hy as (new & j & Hcalls & _ & _ & _ & Hfail & Hmade).
      rewrite (whole_run_calls _ _ _ _ _ Hcalls1 Hcalls) in Hone |- *.
      destruct (Z.eq_dec ret NULL) as [Hret | Hret].
      * destruct (Hfail Hret) as [(e & _ & _ & _ & -> & _)
                                 | (r & c & m & _ & _ & _ & _ & _ & ->)].
        -- apply (Hone NULL). left. reflexivity.
        -- apply (Hone m). cbn. auto.
      * apply (Hone ret). apply in_or_app. left. exact (Hmade Hret).
    + intros Hret. destruct b; [|destruct Hy as [Hnull _]; contradiction].
      destruct Hy as (new & j & Hcalls & _ & _ & _ & _ & Hmade).
      rewrite (whole_run_calls _ _ _ _ _ Hcalls1 Hcalls).
      apply in_or_app. left. exact (Hmade Hret).
  - intros depth Hready Hscript. split.
    + intros Pool n Hn.
      destruct (NamespaceTakePoolMutex_created P Pool n st depth Hready Hscript Hn)
        as (r & s & Hrun & Hr & Hin).
      exists r, s, (pool_mutex_name n). split; [exact Hrun|]. split; [exact Hr|].
      split; [|exact Hin].
      exact (proj1 (Hformat _ _ _ _ Hrun _ (created_mutex_named _ _ _ Hin))).
    + exact (NamespaceTakeDriverInstallationMutex_created P st depth Hready Hscript).
Qed.

(** The name made for [L"Pool1"] on the sample platform has this form and
    is that of the mutex whose handle is returned; the installation mutex
    whose handle is returned has the fixed name. *)
Lemma mutex_name_format_witness :
  (exists Name,
     pool_name_format sample_platform Pool1 Name /\
     mutex_names (calls_since (set_up [])
                    (state_of (NamespaceTakePoolMutex sample_platform Pool1 (set_up [])))) =
       [Name] /\
     In (CallCreateMutexW Name 6)
        (calls_since (set_up [])
           (state_of (NamespaceTakePoolMutex sample_platform Pool1 (set_up []))))) /\
  In (CallCreateMutexW (wide "WireGuard\WireGuard-Driver-Installation-Mutex") 4)
     (calls_since (set_up [])
        (state_of (NamespaceTakeDriverInstallationMutex sample_platform (set_up [])))).
Proof.
  split.
  - refine (proj2 (proj1 (mutex_name_format sample_platform (set_up []) 6
                     (state_of (NamespaceTakePoolMutex sample_platform Pool1 (set_up []))))
                   Pool1 _) _).
    + vm_compute. reflexivity.
    + discriminate.
  - refine (proj2 (proj2 (proj2 (proj1 (proj2
              (mutex_name_format sample_platform (set_up []) 4
                 (state_of (NamespaceTakeDriverInstallationMutex sample_platform
                              (set_up []))))) _))) _).
    + vm_compute. reflexivity.
    + discriminate.
Defined.

(** C4: two pool names with one and the same normal form get the mutex of
    one and the same name, made of the same bytes hashed. *)
Theorem equivalent_names_one_mutex (P : Platform) (a b : list WCHAR)
    (sa sb : State) (ra rb : HANDLE) (sa' sb' : State) :
  normalize P NormalizationC a = normalize P NormalizationC b ->
  NamespaceTakePoolMutex P a sa = Ok ra sa' ->
  NamespaceTakePoolMutex P b sb = Ok rb sb' ->
  forall Na Nb,
    In Na (mutex_names (calls_since sa sa')) ->
    In Nb (mutex_names (calls_since sb sb')) ->
    Na = Nb /\ hashed (calls_since sa sa') = hashed (calls_since sb sb').
Proof.
  intros Hnorm Ha Hb Na Nb HNa HNb.
  destruct (pool_run_calls _ _ _ _ _ Ha) as (_ & [Hnone | (na & Hna & Hnames_a & Hhashed_a)]);
    [rewrite Hnone in HNa; destruct HNa|].
  destruct (pool_run_calls _ _ _ _ _ Hb) as (_ & [Hnone | (nb & Hnb & Hnames_b & Hhashed_b)]);
    [rewrite Hnone in HNb; destruct HNb|].
  rewrite Hna, Hnb in Hnorm. injection Hnorm as ->.
  rewrite Hnames_a in HNa. rewrite Hnames_b in HNb.
  destruct HNa as [<- | []]. destruct HNb as [<- | []].
  rewrite Hhashed_a, Hhashed_b. split; reflexivity.
Qed.

(** The two spellings of one name get one mutex name. *)
Lemma equivalent_names_one_mutex_witness :
  cafe_decomposed <> cafe_composed /\
  hd [] (mutex_names (calls_of (NamespaceTakePoolMutex sample_platform cafe_decomposed (set_up [])))) =
  hd [] (mutex_names (calls_of (NamespaceTakePoolMutex sample_platform cafe_composed (set_up [])))).
Proof.
  split; [discriminate|].
  refine (proj1 (equivalent_names_one_mutex sample_platform cafe_decomposed cafe_composed
            (set_up []) (set_up []) 6 6
            (state_of (NamespaceTakePoolMutex sample_platform cafe_decomposed (set_up [])))
            (state_of (NamespaceTakePoolMutex sample_platform cafe_composed (set_up [])))
            _ _ _ _ _ _ _)).
  - reflexivity.
  - vm_compute. reflexivity.
  - vm_compute. reflexivity.
  - vm_compute. left. reflexivity.
  - vm_compute. left. reflexivity.
Defined.

(** C5, the claim refuted: when the wait fails, the handle of the mutex is
    given to [CloseHandle] and to nothing else; no [ReleaseMutex] is called.
    So it is for a pool and for the installation mutex. *)
Lemma failed_wait_closes_without_release :
  (returned (run_pool [(ApiWaitForSingleObject, WAIT_FAILED)] Pool1) = Some NULL /\
   waited (calls_of (run_pool [(ApiWaitForSingleObject, WAIT_FAILED)] Pool1)) = [6] /\
   closed (calls_of (run_pool [(ApiWaitForSingleObject, WAIT_FAILED)] Pool1)) = [6] /\
   released (calls_of (run_pool [(ApiWaitForSingleObject, WAIT_FAILED)] Pool1)) = []) /\
  (returned (run_installation [(ApiWaitForSingleObject, WAIT_FAILED)]) = Some NULL /\
   waited (calls_of (run_installation [(ApiWaitForSingleObject, WAIT_FAILED)])) = [4] /\
   closed (calls_of (run_installation [(ApiWaitForSingleObject, WAIT_FAILED)])) = [4] /\
   released (calls_of (run_installation [(ApiWaitForSingleObject, WAIT_FAILED)])) = []).
Proof. repeat split; vm_compute; reflexivity. Qed.

(** C5, amended: a wait that ends signaled and one that ends abandoned give
    runs with no observable difference, which return the handle of the
    mutex; after any other end of the wait the handle is closed (no
    ownership was got, and none is released), then the error
    [ERROR_GEN_FAILURE] is set and the acquisition returns no handle. *)
Theorem wait_outcomes (P : Platform) (st : State) :
  (forall Pool,
     observable (NamespaceTakePoolMutex P Pool (awaiting WAIT_OBJECT_0 st)) =
     observable (NamespaceTakePoolMutex P Pool (awaiting WAIT_ABANDONED st))) /\
  observable (NamespaceTakeDriverInstallationMutex P (awaiting WAIT_OBJECT_0 st)) =
  observable (NamespaceTakeDriverInstallationMutex P (awaiting WAIT_ABANDONED st)) /\
  (forall Pool r ret st',
     NamespaceTakePoolMutex P Pool (awaiting r st) = Ok ret st' ->
     wait_outcome r st ret st') /\
  (forall r ret st',
     NamespaceTakeDriverInstallationMutex P (awaiting r st) = Ok ret st' ->
     wait_outcome r st ret st').
Proof.
  split; [intros Pool; apply pool_abandoned_as_signaled|].
  split; [apply installation_abandoned_as_signaled|].
  split.
  - intros Pool r ret st'. apply NamespaceTakePoolMutex_wait.
  - intros r ret st'. apply NamespaceTakeDriverInstallationMutex_wait.
Qed.

(** A wait that times out, and one that ends abandoned. *)
Lemma wait_outcomes_witness :
  wait_outcome WAIT_TIMEOUT (set_up []) NULL
    (state_of (NamespaceTakePoolMutex sample_platform Pool1 (awaiting WAIT_TIMEOUT (set_up [])))) /\
  wait_outcome WAIT_ABANDONED (set_up []) 4
    (state_of (NamespaceTakeDriverInstallationMutex sample_platform
                 (awaiting WAIT_ABANDONED (set_up [])))).
Proof.
  split.
  - apply (proj1 (proj2 (proj2 (wait_outcomes sample_platform (set_up [])))) Pool1).
    vm_compute. reflexivity.
  - apply (proj2 (proj2 (proj2 (wait_outcomes sample_platform (set_up []))))).
    vm_compute. reflexivity.
Defined.

(** C6: [NamespaceRuntimeInit] returns; the answers it gets for the
    creations and openings of the namespace are rounds in which a creation
    that finds the namespace existing is followed by an opening, and an
    opening that does not find it by a new creation; the rounds end with a
    success, or with an error that is not the one that sends the loop on,
    and it is this error that the call leaves as the last error. *)
Theorem namespace_open_retried (P : Platform) (st : State) :
  (forall depth, Initializing st = CsReady depth ->
                 exists b st', NamespaceRuntimeInit P st = Ok b st') /\
  (forall b st',
     NamespaceRuntimeInit P st = Ok b st' ->
     rounds_outcome (filter is_namespace_api (answers_since st st')) b st' /\
     retried (filter is_namespace_api (answers_since st st'))).
Proof.
  split; [intros depth H; exact (NamespaceRuntimeInit_returns P st depth H)|].
  intros b st' Hrun.
  assert (Hout : rounds_outcome (filter is_namespace_api (answers_since st st')) b st').
  { apply NamespaceRuntimeInit_spec in Hrun.
    destruct Hrun as (_ & _ & [Hfast | [Hdone | Hfail]]).
    - destruct Hfast as (_ & _ & ->). left.
      rewrite (answers_since_app _ _ []); [reflexivity|].
      destruct st; reflexivity.
    - destruct Hdone as (_ & -> & _ & _ & Hn & _ & _ & _ & body & j & _ & _ & _ & Hans & Hrounds).
      right. exists None. rewrite (answers_since_app _ _ _ Hans).
      split; [exact Hrounds|]. split; [reflexivity|]. rewrite Hn. discriminate.
    - destruct Hfail as (_ & -> & Hn & _ & _ & _ & rel & body & a & j
                         & _ & _ & _ & _ & _ & Hans & _ & _ & [Hnil | Hrounds]).
      + left. rewrite (answers_since_app _ _ (a :: j) Hans). exact Hnil.
      + right. exists (Some (last_error st')).
        rewrite (answers_since_app _ _ (a :: j) Hans).
        split; [exact Hrounds|].
        repeat (split; [first [reflexivity | exact Hn]|]).
        apply namespace_rounds_end. exact Hrounds. }
  split; [exact Hout|].
  intros before after Heq.
  destruct Hout as [Hnil | (r & Hrounds & _)].
  - rewrite Hnil in Heq. destruct before; discriminate Heq.
  - exact (namespace_rounds_retry _ _ _ _ Hrounds Heq).
Qed.

(** A namespace found existing, then gone, then existing, then not to be
    opened for want of access. *)
Lemma namespace_open_retried_witness :
  rounds_outcome open_denied false
    (state_of (NamespaceRuntimeInit sample_platform (set_up open_denied))).
Proof.
  assert (Hrun : NamespaceRuntimeInit sample_platform (set_up open_denied) =
                 Ok false (state_of (NamespaceRuntimeInit sample_platform (set_up open_denied))))
    by (vm_compute; reflexivity).
  exact (proj1 (proj2 (namespace_open_retried sample_platform (set_up open_denied)) _ _ Hrun)).
Defined.

(** C7: when [NamespaceRuntimeInit] fails, what the call had acquired is
    given back, last first, and is no longer held; then the critical
    section is left and the error of the failed step is set; no namespace is
    recorded, and an acquisition that meets this failure returns no handle. *)
Theorem failed_initialization_unwinds (P : Platform) (st st' : State) :
  NamespaceRuntimeInit P st = Ok false st' -> unwound P st st'.
Proof.
  intros Hrun. pose proof (NamespaceRuntimeInit_spec P _ _ _ Hrun) as Hpost.
  destruct Hpost as (Hcs & _ & [Hfast | [Hdone | Hfail]]).
  - destruct Hfast as (_ & Hb & _). discriminate Hb.
  - destruct Hdone as (_ & Hb & _). discriminate Hb.
  - destruct Hfail as (_ & _ & Hn & Hincl & _ & _ & rel & body & a & j
                       & Hcalls & Hrel & Hbody & Hrev & Hgone & Hans & Hfailed & Herr & _).
    unfold unwound.
    split; [exact Hn|]. split; [exact Hcs|]. split; [exact Hincl|].
    split.
    { exists rel, body.
      split.
      { apply calls_since_app. rewrite Hcalls. cbn. do 2 f_equal.
        rewrite <- !app_assoc. reflexivity. }
      split; [eapply Forall_impl; [|exact Hrel]; intros c [H _]; exact H|].
      split; [eapply Forall_impl; [|exact Hbody]; intros c [H _]; exact H|].
      split; [exact Hrev | exact Hgone]. }
    split.
    { exists (rev j), a. rewrite (answers_since_app _ _ (a :: j) Hans).
      split; [reflexivity|]. split; [exact Hfailed | exact Herr]. }
    split.
    + intros Pool. unfold NamespaceTakePoolMutex, bind. rewrite Hrun. reflexivity.
    + unfold NamespaceTakeDriverInstallationMutex, bind. rewrite Hrun. reflexivity.
Qed.

(** The creation of the namespace is denied. *)
Lemma failed_initialization_unwinds_witness :
  unwound sample_platform (set_up [(ApiCreatePrivateNamespaceW, 5)])
    (state_of (NamespaceRuntimeInit sample_platform (set_up [(ApiCreatePrivateNamespaceW, 5)]))).
Proof.
  apply (failed_initialization_unwinds sample_platform).
  vm_compute. reflexivity.
Defined.

(** C8: a call of [NamespaceRuntimeInit] that follows a successful one
    returns success with nothing done but entering and leaving the critical
    section, and the state is as it was but for the record of these two
    calls; the context is whole at the start of the process, and every
    function of the module leaves it whole. *)
Theorem initialization_idempotent_context_whole (P : Platform) :
  (forall st st',
     NamespaceRuntimeInit P st = Ok true st' ->
     PrivateNamespace st' <> NULL /\
     NamespaceRuntimeInit P st' =
       Ok true (with_calls (CallLeaveCriticalSection :: CallEnterCriticalSection
                            :: calls st') st')) /\
  (forall answers, context_consistent (boot answers)) /\
  (forall st, context_consistent st -> keeps_context P st).
Proof.
  split; [|split].
  - intros st st' Hrun.
    destruct (NamespaceRuntimeInit_ready P _ _ _ Hrun) as (depth & Hready).
    pose proof (NamespaceRuntimeInit_spec P _ _ _ Hrun) as (Hcs & _ & Hcase).
    assert (Hns : PrivateNamespace st' <> NULL).
    { destruct Hcase as [Hfast | [Hdone | Hfail]].
      - destruct Hfast as (Hns & _ & ->). destruct st; exact Hns.
      - destruct Hdone as (_ & _ & _ & _ & Hn & _). rewrite Hn. discriminate.
      - destruct Hfail as (_ & Hb & _). discriminate Hb. }
    split; [exact Hns|].
    apply (NamespaceRuntimeInit_again P st' depth); [|exact Hns].
    rewrite Hcs. exact Hready.
  - intros answers. split; [intros r []|reflexivity].
  - intros st Hst. unfold keeps_context.
    split; [intros st' H; exact (NamespaceInit_consistent _ _ H Hst)|].
    split; [intros b st' H; exact (NamespaceRuntimeInit_consistent P _ _ _ H Hst)|].
    split; [intros Pool ret st' H; exact (NamespaceTakePoolMutex_consistent P _ _ _ _ H Hst)|].
    split; [intros ret st' H;
            exact (NamespaceTakeDriverInstallationMutex_consistent P _ _ _ H Hst)|].
    split; [intros Mutex st' Hne H; exact (NamespaceReleaseMutex_consistent _ _ _ H Hne Hst)|].
    intros st' H. exact (NamespaceDone_consistent _ _ H Hst).
Qed.

(** A second call after a first that the system does not hinder. *)
Lemma initialization_idempotent_context_whole_witness :
  PrivateNamespace (state_of (NamespaceRuntimeInit sample_platform (set_up []))) <> NULL /\
  NamespaceRuntimeInit sample_platform
    (state_of (NamespaceRuntimeInit sample_platform (set_up []))) =
  Ok true
    (with_calls (CallLeaveCriticalSection :: CallEnterCriticalSection
                 :: calls (state_of (NamespaceRuntimeInit sample_platform (set_up []))))
       (state_of (NamespaceRuntimeInit sample_platform (set_up [])))).
Proof.
  apply (proj1 (initialization_idempotent_context_whole sample_platform) (set_up [])).
  vm_compute. reflexivity.
Defined.

(** C9, the claim refuted: set up, acquire (which initializes and returns
    the handle 6), tear down, acquire again: the second acquisition enters
    a critical section that [NamespaceDone] has deleted. *)
Lemma acquire_after_teardown_faults :
  returned (run_pool [] Pool1) = Some 6 /\
  (NamespaceInit ;;
   NamespaceTakePoolMutex sample_platform Pool1 ;;
   NamespaceDone ;;
   NamespaceTakePoolMutex sample_platform Pool1) (boot []) = Fault BadCriticalSection.
Proof. split; vm_compute; reflexivity. Qed.

(** C9, amended: [NamespaceDone] leaves no namespace recorded and the
    critical section deleted, so that an acquisition then has no defined
    behaviour; after [NamespaceInit] has run again an acquisition returns,
    and where the system hinders nothing it initializes anew and returns a
    mutex. *)
Theorem teardown_then_setup_reinitializes (P : Platform) (st st1 : State) :
  NamespaceDone st = Ok tt st1 -> torn_down P st1.
Proof.
  intros Hdone. apply NamespaceDone_spec in Hdone.
  destruct Hdone as (_ & Hcs & Hns & _ & _ & _).
  destruct (deleted_section_faults P st1 Hcs) as (_ & Hpool & Hinst).
  unfold torn_down.
  split; [exact Hns|]. split; [exact Hcs|]. split; [exact Hpool|]. split; [exact Hinst|].
  intros st2 Hinit Pool. rewrite NamespaceInit_runs in Hinit.
  apply Ok_inj in Hinit. destruct Hinit as [_ <-].
  split.
  - apply (NamespaceTakePoolMutex_returns P Pool _ 0%nat). destruct st1; reflexivity.
  - intros n Hscript Hn.
    destruct (NamespaceTakePoolMutex_unhindered P Pool n
                (with_Initializing (CsReady 0)
                   (with_calls (CallInitializeCriticalSection :: calls st1) st1)) 0%nat)
      as (ret & st3 & Hrun & Hret & Hns3 & _ & Hlive & Hnames);
      try (destruct st1; cbn in *; congruence).
    exists ret, st3. auto.
Qed.

(** Teardown after an acquisition. *)
Lemma teardown_then_setup_reinitializes_witness :
  torn_down sample_platform (state_of (NamespaceDone (state_of (run_pool [] Pool1)))).
Proof.
  apply (teardown_then_setup_reinitializes sample_platform (state_of (run_pool [] Pool1))).
  vm_compute. reflexivity.
Defined.

(** C10: [NamespaceReleaseMutex] returns, with no status, for every handle
    and whatever the system answers: it calls [ReleaseMutex] and then
    [CloseHandle] on the handle, and leaves the variables of the module as
    they are. *)
Theorem release_surfaces_nothing (Mutex : HANDLE) (st : State) :
  exists st',
    NamespaceReleaseMutex Mutex st = Ok tt st' /\
    calls_since st st' = [CallCloseHandle Mutex; CallReleaseMutex Mutex] /\
    PrivateNamespace st' = PrivateNamespace st /\
    BoundaryDescriptor st' = BoundaryDescriptor st /\
    Initializing st' = Initializing st /\
    AlgProvider st' = AlgProvider st.
Proof.
  destruct (NamespaceReleaseMutex_runs Mutex st)
    as (st' & Hrun & Hcalls & E1 & E2 & E3 & E4 & _).
  exists st'. split; [exact Hrun|].
  split; [apply calls_since_app; rewrite Hcalls; reflexivity|].
  auto.
Qed.

(** A release in which [ReleaseMutex] and [CloseHandle] both fail. *)
Lemma release_surfaces_nothing_witness :
  returned (NamespaceReleaseMutex 6
              (with_script [(ApiReleaseMutex, 288); (ApiCloseHandle, 6)]
                 (state_of (run_pool [] Pool1)))) = Some tt.
Proof.
  destruct (release_surfaces_nothing 6
              (with_script [(ApiReleaseMutex, 288); (ApiCloseHandle, 6)]
                 (state_of (run_pool [] Pool1)))) as (st' & Hrun & _).
  rewrite Hrun. reflexivity.
Defined.

(* ================================================================== *)
(** ** Further properties of the code *)



(** X2: when [NormalizeStringAlloc] returns, every block it has allocated
    is freed but the one it returns: what is held is what was held before
    and that block. *)
Theorem NormalizeStringAlloc_keeps_no_block (P : Platform) (NormForm : NORM_FORM)
    (Source : list WCHAR) (st : State) (r : option (HANDLE * list WCHAR)) (st' : State) :
  handles_fresh st ->
  NormalizeStringAlloc P NormForm Source st = Ok r st' ->
  live st' = match r with
             | Some (Str, _) => (KHeap, Str) :: live st
             | None => live st
             end.
Proof.
  intros Hfresh Hrun. apply NormalizeStringAlloc_yield in Hrun.
  destruct Hrun as (_ & Hheld & _). specialize (Hheld Hfresh).
  destruct r as [[Str mem]|]; [exact (proj1 Hheld) | exact Hheld].
Qed.

(** Two sizes that are too small are tried before the block fits. *)
Lemma NormalizeStringAlloc_keeps_no_block_witness :
  live (state_of (NormalizeStringAlloc sample_platform NormalizationC Pool1
                    (set_up [(ApiNormalizeString, -3); (ApiNormalizeString, -1)]))) =
  [(KHeap, 3)].
Proof.
  apply (NormalizeStringAlloc_keeps_no_block sample_platform NormalizationC Pool1
           (set_up [(ApiNormalizeString, -3); (ApiNormalizeString, -1)])
           (Some (3, Pool1 ++ [0]))).
  - apply handles_freshb_sound. vm_compute. reflexivity.
  - vm_compute. reflexivity.
Defined.



(** X9: for a digest of 32 bytes the array [MutexName] is written in full
    and not beyond: it keeps its 96 elements, none is left as it was, and
    the only terminator is the last element. *)
Theorem MutexName_exactly_filled (Hash : list BYTE) :
  List.length Hash = 32%nat ->
  List.length (MutexName_of Hash) = (countof MutexNamePrefix + sizeof_Hash * 2)%nat /\
  ~ In indeterminate (MutexName_of Hash) /\
  wcslen (MutexName_of Hash) = 95 /\
  nth 95 (MutexName_of Hash) indeterminate = 0.
Proof.
  intros Hlen. pose proof (MutexName_text Hash Hlen) as Htext.
  rewrite (MutexName_of_digest Hash Hlen), app_assoc.
  assert (Hl : List.length (wide "WireGuard\WireGuard-Name-Mutex-" ++ hex_of Hash) = 95%nat).
  { rewrite length_app, hex_of_length, Hlen. reflexivity. }
  split; [rewrite length_app; unfold WCHAR in *; rewrite Hl; reflexivity|].
  split.
  { intros Hin. apply in_app_or in Hin. destruct Hin as [Hin|[Hin|[]]].
    - rewrite Forall_forall in Htext. exact (proj2 (Htext _ Hin) eq_refl).
    - discriminate Hin. }
  split.
  { rewrite wcslen_terminated.
    - unfold WCHAR in *. rewrite Hl. reflexivity.
    - eapply Forall_impl; [|exact Htext]. intros c [H _]. exact H. }
  unfold WCHAR in *.
  rewrite app_nth2; rewrite Hl; [reflexivity | lia].
Qed.

Lemma MutexName_exactly_filled_witness :
  wcslen (MutexName_of (SHA256.digest [])) = 95.
Proof.
  apply (MutexName_exactly_filled (SHA256.digest [])). vm_compute. reflexivity.
Defined.

(** X10: the name of the mutex tells the digest: two digests of 32 bytes
    that give the same mutex name are the same. *)
Theorem mutex_name_determines_digest (h1 h2 : list BYTE) :
  List.length h1 = 32%nat -> List.length h2 = 32%nat ->
  Forall is_byte h1 -> Forall is_byte h2 ->
  c_str (MutexName_of h1) = c_str (MutexName_of h2) -> h1 = h2.
Proof.
  intros L1 L2 B1 B2 Heq.
  rewrite (MutexName_of_digest h1 L1), (MutexName_of_digest h2 L2), !app_assoc in Heq.
  rewrite !c_str_terminated in Heq
    by (eapply Forall_impl; [|apply MutexName_text; assumption]; intros c [H _]; exact H).
  apply app_inv_head in Heq. exact (hex_of_inj h1 h2 B1 B2 Heq).
Qed.

Lemma mutex_name_determines_digest_witness :
  SHA256.digest [1] = SHA256.digest [1].
Proof.
  apply (mutex_name_determines_digest (SHA256.digest [1]) (SHA256.digest [1])).
  - vm_compute. reflexivity.
  - vm_compute. reflexivity.
  - vm_compute. repeat constructor; discriminate.
  - vm_compute. repeat constructor; discriminate.
  - reflexivity.
Defined.

Lemma Forall_front {A} (Q : A -> Prop) k l : Forall Q l -> Forall Q (firstn k l).
Proof.
  intros H. rewrite <- (firstn_skipn k l) in H. apply Forall_app in H. exact (proj1 H).
Qed.

Lemma name_bytes_hashed_front na nb :
  is_name na -> is_name nb ->
  List.length na = List.length nb ->
  firstn ((List.length na + 3) / 2) na = firstn ((List.length na + 3) / 2) nb ->
  name_bytes_hashed na = name_bytes_hashed nb.
Proof.
  intros [Hza Hla] [Hzb Hlb] Hlen Hfront.
  rewrite (name_bytes_hashed_count na Hza Hla), (name_bytes_hashed_count nb Hzb Hlb).
  unfold WCHAR, BYTE in *. rewrite <- Hlen.
  set (L := List.length na) in *. set (k := ((L + 3) / 2)%nat) in *.
  assert (Hk : (L + 2 <= 2 * k)%nat).
  { pose proof (Nat.div_mod_eq (L + 3) 2) as H1.
    pose proof (Nat.mod_upper_bound (L + 3) 2 ltac:(lia)) as H2.
    fold k in H1. lia. }
  rewrite <- (Nat.min_l (L + 2) (2 * k) Hk).
  rewrite <- !firstn_firstn, !firstn_bytes_of_wchars, !firstn_app.
  rewrite <- Hlen. fold L. rewrite Hfront. reflexivity.
Qed.

Lemma name_bytes_hashed_tells na nb :
  is_name na -> is_name nb -> Forall is_wchar na -> Forall is_wchar nb ->
  name_bytes_hashed na = name_bytes_hashed nb ->
  List.length na = List.length nb /\
  firstn ((List.length na + 2) / 2) na = firstn ((List.length na + 2) / 2) nb.
Proof.
  intros [Hza Hla] [Hzb Hlb] Hwa Hwb Heq.
  rewrite (name_bytes_hashed_count na Hza Hla), (name_bytes_hashed_count nb Hzb Hlb) in Heq.
  unfold WCHAR, BYTE in *.
  assert (Hlen : List.length na = List.length nb).
  { apply (f_equal (@List.length Z)) in Heq.
    rewrite !length_firstn, !bytes_of_wchars_length, !length_app in Heq.
    cbn [List.length] in Heq. unfold WCHAR, BYTE in *. lia. }
  split; [exact Hlen|].
  rewrite <- Hlen in Heq.
  set (L := List.length na) in *. set (j := ((L + 2) / 2)%nat) in *.
  assert (Hj : (2 * j <= L + 2)%nat).
  { pose proof (Nat.div_mod_eq (L + 2) 2) as H1. fold j in H1. lia. }
  apply (f_equal (firstn (2 * j))) in Heq.
  rewrite !firstn_firstn, (Nat.min_l _ _ Hj), !firstn_bytes_of_wchars in Heq.
  apply bytes_of_wchars_inj in Heq.
  - destruct (Nat.eq_dec L 0) as [H0|H0].
    + assert (Ha : na = []) by (apply length_zero_iff_nil; exact H0).
      assert (Hb : nb = []) by (apply length_zero_iff_nil; rewrite <- Hlen; exact H0).
      rewrite Ha, Hb. reflexivity.
    + assert (HjL : (j <= L)%nat).
      { pose proof (Nat.div_mod_eq (L + 2) 2) as H1. fold j in H1. lia. }
      rewrite !firstn_app in Heq. rewrite <- Hlen in Heq. fold L in Heq.
      replace (j - L)%nat with O in Heq by lia.
      cbn [firstn] in Heq. rewrite !app_nil_r in Heq. exact Heq.
  - apply Forall_front, Forall_app. split; [exact Hwa|].
    constructor; [unfold is_wchar; lia | constructor].
  - apply Forall_front, Forall_app. split; [exact Hwb|].
    constructor; [unfold is_wchar; lia | constructor].
Qed.

(** X11: two pools whose normal forms have the same length and the same
    code units in the first half (rounded up, with the terminator counted)
    get the mutex of the same name: the count given to [BCryptHashData] at
    line 148 lets the second half of a name out of the hash. *)
Theorem shared_front_shares_mutex (P : Platform) (a b na nb : list WCHAR)
    (sa sb : State) (ra rb : HANDLE) (sa' sb' : State) :
  normalize P NormalizationC a = Some na ->
  normalize P NormalizationC b = Some nb ->
  is_name na -> is_name nb ->
  List.length na = List.length nb ->
  firstn ((List.length na + 3) / 2) na = firstn ((List.length na + 3) / 2) nb ->
  NamespaceTakePoolMutex P a sa = Ok ra sa' ->
  NamespaceTakePoolMutex P b sb = Ok rb sb' ->
  forall Na Nb,
    In Na (mutex_names (calls_since sa sa')) ->
    In Nb (mutex_names (calls_since sb sb')) ->
    Na = Nb.
Proof.
  intros Hna Hnb Ha Hb Hlen Hfront Hruna Hrunb Na Nb HNa HNb.
  destruct (pool_run_calls _ _ _ _ _ Hruna) as (_ & [Hnone | (n1 & Hn1 & Hnames_a & _)]);
    [rewrite Hnone in HNa; destruct HNa|].
  destruct (pool_run_calls _ _ _ _ _ Hrunb) as (_ & [Hnone | (n2 & Hn2 & Hnames_b & _)]);
    [rewrite Hnone in HNb; destruct HNb|].
  rewrite Hna in Hn1. injection Hn1 as <-. rewrite Hnb in Hn2. injection Hn2 as <-.
  rewrite Hnames_a in HNa. rewrite Hnames_b in HNb.
  destruct HNa as [<- | []]. destruct HNb as [<- | []].
  unfold pool_mutex_name. rewrite (name_bytes_hashed_front na nb Ha Hb Hlen Hfront).
  reflexivity.
Qed.

Lemma shared_front_shares_mutex_witness :
  hd [] (mutex_names (calls_of (NamespaceTakePoolMutex sample_platform
                                  (wide "Tunnel-A") (set_up [])))) =
  hd [] (mutex_names (calls_of (NamespaceTakePoolMutex sample_platform
                                  (wide "Tunnel-B") (set_up [])))).
Proof.
  refine (shared_front_shares_mutex sample_platform (wide "Tunnel-A") (wide "Tunnel-B")
            (wide "Tunnel-A") (wide "Tunnel-B") (set_up []) (set_up []) 6 6
            (state_of (NamespaceTakePoolMutex sample_platform (wide "Tunnel-A") (set_up [])))
            (state_of (NamespaceTakePoolMutex sample_platform (wide "Tunnel-B") (set_up [])))
            _ _ _ _ _ _ _ _ _ _ _ _).
  - vm_compute. reflexivity.
  - vm_compute. reflexivity.
  - split; [|vm_compute; reflexivity].
    apply Forall_forall; intros c Hc; vm_compute in Hc;
    repeat (destruct Hc as [<-|Hc]; [discriminate|]); destruct Hc.
  - split; [|vm_compute; reflexivity].
    apply Forall_forall; intros c Hc; vm_compute in Hc;
    repeat (destruct Hc as [<-|Hc]; [discriminate|]); destruct Hc.
  - vm_compute. reflexivity.
  - vm_compute. reflexivity.
  - vm_compute. reflexivity.
  - vm_compute. reflexivity.
  - vm_compute. left. reflexivity.
  - vm_compute. left. reflexivity.
Defined.

(** X12: what is still told apart: two pools for which the same bytes are
    hashed have normal forms of the same length with the same code units
    in the first half (rounded down, with the terminator counted). *)
Theorem hash_input_tells_front (P : Platform) (a b na nb : list WCHAR)
    (sa sb : State) (ra rb : HANDLE) (sa' sb' : State) :
  normalize P NormalizationC a = Some na ->
  normalize P NormalizationC b = Some nb ->
  is_name na -> is_name nb -> Forall is_wchar na -> Forall is_wchar nb ->
  NamespaceTakePoolMutex P a sa = Ok ra sa' ->
  NamespaceTakePoolMutex P b sb = Ok rb sb' ->
  mutex_names (calls_since sa sa') <> [] ->
  mutex_names (calls_since sb sb') <> [] ->
  hashed (calls_since sa sa') = hashed (calls_since sb sb') ->
  List.length na = List.length nb /\
  firstn ((List.length na + 2) / 2) na = firstn ((List.length na + 2) / 2) nb.
Proof.
  intros Hna Hnb Ha Hb Hwa Hwb Hruna Hrunb Hma Hmb Hhashed.
  destruct (pool_run_calls _ _ _ _ _ Hruna) as (_ & [Hnone | (n1 & Hn1 & _ & Hhashed_a)]);
    [contradiction|].
  destruct (pool_run_calls _ _ _ _ _ Hrunb) as (_ & [Hnone | (n2 & Hn2 & _ & Hhashed_b)]);
    [contradiction|].
  rewrite Hna in Hn1. injection Hn1 as <-. rewrite Hnb in Hn2. injection Hn2 as <-.
  rewrite Hhashed_a, Hhashed_b in Hhashed. injection Hhashed as Heq.
  exact (name_bytes_hashed_tells na nb Ha Hb Hwa Hwb Heq).
Qed.

Lemma hash_input_tells_front_witness :
  List.length (wide "Tunnel-A") = List.length (wide "Tunnel-B") /\
  firstn ((List.length (wide "Tunnel-A") + 2) / 2) (wide "Tunnel-A") =
  firstn ((List.length (wide "Tunnel-A") + 2) / 2) (wide "Tunnel-B").
Proof.
  apply (hash_input_tells_front sample_platform (wide "Tunnel-A") (wide "Tunnel-B")
           (wide "Tunnel-A") (wide "Tunnel-B") (set_up []) (set_up []) 6 6
           (state_of (NamespaceTakePoolMutex sample_platform (wide "Tunnel-A") (set_up [])))
           (state_of (NamespaceTakePoolMutex sample_platform (wide "Tunnel-B") (set_up [])))).
  - vm_compute. reflexivity.
  - vm_compute. reflexivity.
  - split; [|vm_compute; reflexivity].
    apply Forall_forall; intros c Hc; vm_compute in Hc;
    repeat (destruct Hc as [<-|Hc]; [discriminate|]); destruct Hc.
  - split; [|vm_compute; reflexivity].
    apply Forall_forall; intros c Hc; vm_compute in Hc;
    repeat (destruct Hc as [<-|Hc]; [discriminate|]); destruct Hc.
  - apply Forall_forall; intros c Hc; vm_compute in Hc;
    repeat (destruct Hc as [<-|Hc]; [unfold is_wchar; lia|]); destruct Hc.
  - apply Forall_forall; intros c Hc; vm_compute in Hc;
    repeat (destruct Hc as [<-|Hc]; [unfold is_wchar; lia|]); destruct Hc.
  - vm_compute. reflexivity.
  - vm_compute. reflexivity.
  - vm_compute. discriminate.
  - vm_compute. discriminate.
  - vm_compute. reflexivity.
Defined.

(** X4: [NamespaceTakePoolMutex] keeps no hash object and no block of
    memory: when it returns, with a mutex or without, the hash objects and
    blocks that are held are those that were held before.  A handle it
    returns is that of a mutex that is held now and was not before, and
    that [CreateMutexW] has made in this call. *)
Theorem pool_acquisition_keeps_no_scratch (P : Platform) (Pool : list WCHAR)
    (st : State) (ret : HANDLE) (st' : State) :
  handles_fresh st ->
  NamespaceTakePoolMutex P Pool st = Ok ret st' ->
  filter is_scratch_kind (live st') = filter is_scratch_kind (live st) /\
  (ret <> NULL ->
   In (KMutex, ret) (live st') /\ ~ In (KMutex, ret) (live st) /\
   exists Name, In (CallCreateMutexW Name ret) (calls_since st st')).
Proof.
  intros Hfresh Hrun. apply NamespaceTakePoolMutex_yield in Hrun.
  destruct Hrun as (b & st1 & Hinit & Hy).
  destruct (NamespaceRuntimeInit_fresh P _ _ _ Hinit Hfresh) as [Hfresh1 Hnh].
  pose proof (NamespaceRuntimeInit_yield P _ _ _ Hinit)
    as (new1 & j1 & Hcalls1 & _ & _ & _ & _ & _ & Hother).
  assert (Hscratch : filter is_scratch_kind (live st1) = filter is_scratch_kind (live st)).
  { rewrite <- (filter_filter_sub is_scratch_kind is_other_kind (live st1) scratch_is_other).
    rewrite <- (filter_filter_sub is_scratch_kind is_other_kind (live st) scratch_is_other).
    rewrite Hother. reflexivity. }
  destruct b.
  - destruct Hy as (new & j & Hcalls & _ & _ & Hheld & _ & Hmade). specialize (Hheld Hfresh1).
    unfold held_after in Hheld. destruct (ret =? NULL) eqn:Eret.
    + apply Z.eqb_eq in Eret. split; [|intros Hne; contradiction].
      destruct Hheld as [-> | (m & e & -> & _)]; [exact Hscratch|].
      cbn [filter is_scratch_kind fst]. exact Hscratch.
    + destruct Hheld as [-> Hret]. split.
      * cbn [filter is_scratch_kind fst]. exact Hscratch.
      * intros Hne. split; [left; reflexivity|]. split.
        -- intros Hin. specialize (Hfresh _ Hin). cbn [snd] in Hfresh.
           unfold HANDLE in *. lia.
        -- destruct (Hmade Hne) as (Name & HName). exists Name.
           rewrite (whole_run_calls _ _ _ _ _ Hcalls1 Hcalls).
           apply in_or_app. left. exact HName.
  - destruct Hy as [-> ->]. split; [exact Hscratch|]. intros Hne. contradiction.
Qed.

(** The wait fails after a block was tried that was too small. *)
Lemma pool_acquisition_keeps_no_scratch_witness :
  filter is_scratch_kind
    (live (state_of (NamespaceTakePoolMutex sample_platform Pool1
                       (set_up [(ApiNormalizeString, -2);
                                (ApiWaitForSingleObject, WAIT_FAILED)])))) =
  filter is_scratch_kind
    (live (set_up [(ApiNormalizeString, -2); (ApiWaitForSingleObject, WAIT_FAILED)])).
Proof.
  apply (pool_acquisition_keeps_no_scratch sample_platform Pool1
           (set_up [(ApiNormalizeString, -2); (ApiWaitForSingleObject, WAIT_FAILED)]) NULL).
  - apply handles_freshb_sound. vm_compute. reflexivity.
  - vm_compute. reflexivity.
Defined.

(** X5: when [NamespaceTakePoolMutex] returns no handle, one answer of the
    system was a failure, after which the system was asked for nothing but
    to close the handle of the mutex; the last call of the run sets the
    last error, to the error of that failure: the translated status of a
    failed hash call, the error of a failed allocation, creation or
    initialization step, [ERROR_GEN_FAILURE] for a failed wait. *)
Theorem pool_failure_surfaced (P : Platform) (Pool : list WCHAR) (st st' : State) :
  NamespaceTakePoolMutex P Pool st = Ok NULL st' ->
  exists earlier a later,
    answers_since st st' = earlier ++ a :: later /\
    Forall (fun x => fst x = ApiCloseHandle) later /\
    acquire_failed a /\
    last_error st' = acquire_surfaced P a /\
    exists rest, calls_since st st' = CallSetLastError (last_error st') :: rest.
Proof.
  intros Hrun. apply NamespaceTakePoolMutex_yield in Hrun.
  destruct Hrun as (b & st1 & Hinit & Hy).
  pose proof (NamespaceRuntimeInit_yield P _ _ _ Hinit)
    as (new1 & j1 & Hcalls1 & Hans1 & Hapis & _).
  destruct b.
  - destruct Hy as (new & j & Hcalls & Hans & _ & _ & Hfail & _).
    destruct (Hfail eq_refl) as ((after & a & before & -> & Hafter & Hfailed & Herr)
                                 & rest & ->).
    exists (rev j1 ++ rev before), a, (rev after).
    split.
    { rewrite (whole_run_answers _ _ _ _ _ Hans1 Hans).
      rewrite rev_app_distr. cbn [rev]. rewrite <- !app_assoc. reflexivity. }
    split; [apply Forall_rev; exact Hafter|].
    split; [exact Hfailed|]. split; [exact Herr|].
    exists (rest ++ new1). exact (whole_run_calls _ _ _ _ _ Hcalls1 Hcalls).
  - destruct Hy as [_ ->].
    pose proof (NamespaceRuntimeInit_spec P _ _ _ Hinit) as (_ & _ & [Hfast | [Hdone | Hf]]).
    + destruct Hfast as (_ & Hb & _). discriminate Hb.
    + destruct Hdone as (_ & Hb & _). discriminate Hb.
    + destruct Hf as (_ & _ & _ & _ & _ & _ & rel & body & a & j
                      & Hcalls & _ & _ & _ & _ & Hans & Hfailed & Herr & _).
      rewrite Hans1 in Hans. rewrite app_comm_cons in Hans. apply app_inv_tail in Hans.
      subst j1. inversion Hapis as [|? ? Ha _]; subst.
      destruct (init_failure_acquire P a Ha Hfailed) as [Hf1 Hf2].
      exists (rev j), a, [].
      split; [rewrite (answers_since_app _ _ _ Hans1); reflexivity|].
      split; [constructor|]. split; [exact Hf1|].
      split; [rewrite Hf2; exact Herr|].
      eexists. apply calls_since_app. rewrite Hcalls. cbn [app]. f_equal.
      split_list.
Qed.

(** The digest cannot be finished. *)
Lemma pool_failure_surfaced_witness :
  exists earlier a later,
    answers_since (set_up [(ApiBCryptFinishHash, -1073741823)])
      (state_of (NamespaceTakePoolMutex sample_platform Pool1
                   (set_up [(ApiBCryptFinishHash, -1073741823)]))) =
    earlier ++ a :: later /\
    Forall (fun x => fst x = ApiCloseHandle) later /\
    acquire_failed a /\
    last_error (state_of (NamespaceTakePoolMutex sample_platform Pool1
                            (set_up [(ApiBCryptFinishHash, -1073741823)]))) =
    acquire_surfaced sample_platform a /\
    exists rest,
      calls_since (set_up [(ApiBCryptFinishHash, -1073741823)])
        (state_of (NamespaceTakePoolMutex sample_platform Pool1
                     (set_up [(ApiBCryptFinishHash, -1073741823)]))) =
      CallSetLastError
        (last_error (state_of (NamespaceTakePoolMutex sample_platform Pool1
                                 (set_up [(ApiBCryptFinishHash, -1073741823)])))) :: rest.
Proof.
  apply (pool_failure_surfaced sample_platform Pool1).
  vm_compute. reflexivity.
Defined.

(** X6: [NamespaceTakeDriverInstallationMutex] returns no handle in three
    ways.  The initialization has failed.  Or [CreateMutexW] has failed:
    nothing is waited for, the failure is logged, and the last error is
    left as [CreateMutexW] has set it, no [SetLastError] being called.  Or
    the wait has not ended signaled or abandoned: the handle is closed and
    then the last error is set to [ERROR_GEN_FAILURE]. *)
Theorem installation_failure_cases (P : Platform) (st st' : State) :
  NamespaceTakeDriverInstallationMutex P st = Ok NULL st' ->
  NamespaceRuntimeInit P st = Ok false st' \/
  exists st1 new j,
    NamespaceRuntimeInit P st = Ok true st1 /\
    calls st' = new ++ calls st1 /\
    answered st' = j ++ answered st1 /\
    installation_failure st1 new j st'.
Proof.
  intros Hrun. apply NamespaceTakeDriverInstallationMutex_yield in Hrun.
  destruct Hrun as (b & st1 & Hinit & Hy). destruct b.
  - right. destruct Hy as (new & j & Hcalls & Hans & _ & _ & Hfail & _).
    exists st1, new, j. auto.
  - left. destruct Hy as [_ ->]. exact Hinit.
Qed.

(** The mutex cannot be created: access is denied. *)
Lemma installation_failure_cases_witness :
  NamespaceRuntimeInit sample_platform (set_up [(ApiCreateMutexW, 5)]) =
    Ok false (state_of (NamespaceTakeDriverInstallationMutex sample_platform
                          (set_up [(ApiCreateMutexW, 5)]))) \/
  exists st1 new j,
    NamespaceRuntimeInit sample_platform (set_up [(ApiCreateMutexW, 5)]) = Ok true st1 /\
    calls (state_of (NamespaceTakeDriverInstallationMutex sample_platform
                       (set_up [(ApiCreateMutexW, 5)]))) = new ++ calls st1 /\
    answered (state_of (NamespaceTakeDriverInstallationMutex sample_platform
                          (set_up [(ApiCreateMutexW, 5)]))) = j ++ answered st1 /\
    installation_failure st1 new j
      (state_of (NamespaceTakeDriverInstallationMutex sample_platform
                   (set_up [(ApiCreateMutexW, 5)]))).
Proof.
  apply (installation_failure_cases sample_platform).
  vm_compute. reflexivity.
Defined.

(** X7: in every run of [NamespaceRuntimeInit] the well-known SID is that
    of the local system if [IsLocalSystem] and that of the administrators
    otherwise; the boundary descriptor and the namespace are named
    [WireGuard]; the SID is added to, and the namespace created or opened
    with, the boundary descriptor that the variable holds; and no namespace
    is created or opened before the SID was added to it. *)
Theorem initialization_builds_boundary_with_sid (P : Platform) (st : State)
    (b : bool) (st' : State) :
  NamespaceRuntimeInit P st = Ok b st' ->
  Forall (init_call_ok P (BoundaryDescriptor st')) (calls_since st st') /\
  forall after e before,
    calls_since st st' = after ++ e :: before -> is_namespace_call e = true ->
    In (CallAddSIDToBoundaryDescriptor (BoundaryDescriptor st') (chosen_sid P)) before.
Proof.
  intros Hrun. apply NamespaceRuntimeInit_yield in Hrun.
  destruct Hrun as (new & j & Hcalls & _ & _ & _ & Hok & Horder & _).
  rewrite (calls_since_app _ _ _ Hcalls). split; [exact Hok | exact Horder].
Qed.

(** The namespace exists and is opened. *)
Lemma initialization_builds_boundary_with_sid_witness :
  Forall (init_call_ok sample_platform
            (BoundaryDescriptor
               (state_of (NamespaceRuntimeInit sample_platform
                            (set_up [(ApiCreatePrivateNamespaceW, ERROR_ALREADY_EXISTS)])))))
    (calls_since (set_up [(ApiCreatePrivateNamespaceW, ERROR_ALREADY_EXISTS)])
       (state_of (NamespaceRuntimeInit sample_platform
                    (set_up [(ApiCreatePrivateNamespaceW, ERROR_ALREADY_EXISTS)])))).
Proof.
  apply (initialization_builds_boundary_with_sid sample_platform
           (set_up [(ApiCreatePrivateNamespaceW, ERROR_ALREADY_EXISTS)]) true).
  vm_compute. reflexivity.
Defined.

Lemma acquisition_outside_lock st st1 st' (new1 new : list Event) :
  calls st1 = new1 ++ calls st -> calls st' = new ++ calls st1 ->
  filter is_lock_call new1 = [CallLeaveCriticalSection; CallEnterCriticalSection] ->
  Forall (fun c => is_mutex_call c = false) new1 ->
  Forall (fun c => is_lock_call c = false) new ->
  forall after e before,
    calls_since st st' = after ++ e :: before -> is_mutex_call e = true ->
    filter is_lock_call before = [CallLeaveCriticalSection; CallEnterCriticalSection].
Proof.
  intros H1 H2 Hlock Hquiet Hnew after e before Hsplit He.
  rewrite (whole_run_calls _ _ _ _ _ H1 H2) in Hsplit.
  apply split_in_front in Hsplit.
  - destruct Hsplit as (m & -> & ->).
    apply Forall_app in Hnew. destruct Hnew as [_ Hnew].
    inversion Hnew as [|? ? _ Hm]; subst.
    rewrite filter_app, (filter_nothing _ _ Hm), Hlock. reflexivity.
  - intros Hin. rewrite Forall_forall in Hquiet. rewrite (Hquiet e Hin) in He.
    discriminate He.
Qed.

(** X8: neither acquisition makes a mutex or waits for one inside the
    critical section: before each such call the critical section was
    entered once and left once; and the critical section is, when the
    acquisition returns, as it was before. *)
Theorem mutex_taken_outside_critical_section (P : Platform) (st : State)
    (ret : HANDLE) (st' : State) :
  (exists Pool, NamespaceTakePoolMutex P Pool st = Ok ret st') \/
  NamespaceTakeDriverInstallationMutex P st = Ok ret st' ->
  Initializing st' = Initializing st /\
  forall after e before,
    calls_since st st' = after ++ e :: before -> is_mutex_call e = true ->
    filter is_lock_call before = [CallLeaveCriticalSection; CallEnterCriticalSection].
Proof.
  intros [[Pool Hrun] | Hrun].
  - pose proof (NamespaceTakePoolMutex_spec P _ _ _ _ Hrun) as (b0 & st0 & Hinit0 & Hpost).
    apply NamespaceTakePoolMutex_yield in Hrun.
    destruct Hrun as (b & st1 & Hinit & Hy).
    rewrite Hinit in Hinit0. apply Ok_inj in Hinit0. destruct Hinit0 as [<- <-].
    pose proof (NamespaceRuntimeInit_spec P _ _ _ Hinit) as Hipost.
    pose proof (init_post_calls _ _ _ _ Hipost) as (new0 & Hcalls0 & Hquiet).
    destruct Hipost as (Hcs & _).
    pose proof (NamespaceRuntimeInit_yield P _ _ _ Hinit)
      as (new1 & j1 & Hcalls1 & _ & _ & Hlock & _).
    rewrite Hcalls1 in Hcalls0. apply app_inv_tail in Hcalls0. subst new0.
    destruct (init_calls_no_mutex _ Hquiet) as [Hnomutex _].
    destruct b.
    + destruct Hpost as (_ & _ & Hcs' & _).
      split; [rewrite Hcs'; exact Hcs|].
      destruct Hy as (new & j & Hcalls & _ & Hok & _).
      apply (acquisition_outside_lock st st1 st' new1 new Hcalls1 Hcalls Hlock Hnomutex).
      eapply Forall_impl; [|exact Hok]. intros c [H _]. exact H.
    + destruct Hy as [_ ->]. split; [exact Hcs|].
      apply (acquisition_outside_lock st st1 st1 new1 [] Hcalls1 eq_refl Hlock Hnomutex).
      constructor.
  - pose proof (NamespaceTakeDriverInstallationMutex_spec P _ _ _ Hrun)
      as (b0 & st0 & Hinit0 & Hpost).
    apply NamespaceTakeDriverInstallationMutex_yield in Hrun.
    destruct Hrun as (b & st1 & Hinit & Hy).
    rewrite Hinit in Hinit0. apply Ok_inj in Hinit0. destruct Hinit0 as [<- <-].
    pose proof (NamespaceRuntimeInit_spec P _ _ _ Hinit) as Hipost.
    pose proof (init_post_calls _ _ _ _ Hipost) as (new0 & Hcalls0 & Hquiet).
    destruct Hipost as (Hcs & _).
    pose proof (NamespaceRuntimeInit_yield P _ _ _ Hinit)
      as (new1 & j1 & Hcalls1 & _ & _ & Hlock & _).
    rewrite Hcalls1 in Hcalls0. apply app_inv_tail in Hcalls0. subst new0.
    destruct (init_calls_no_mutex _ Hquiet) as [Hnomutex _].
    destruct b.
    + destruct Hpost as (_ & _ & Hcs' & _).
      split; [rewrite Hcs'; exact Hcs|].
      destruct Hy as (new & j & Hcalls & _ & Hok & _).
      exact (acquisition_outside_lock st st1 st' new1 new Hcalls1 Hcalls Hlock Hnomutex Hok).
    + destruct Hy as [_ ->]. split; [exact Hcs|].
      apply (acquisition_outside_lock st st1 st1 new1 [] Hcalls1 eq_refl Hlock Hnomutex).
      constructor.
Qed.

Lemma mutex_taken_outside_critical_section_witness :
  Initializing (state_of (NamespaceTakePoolMutex sample_platform Pool1 (set_up []))) =
  Initializing (set_up []).
Proof.
  refine (proj1 (mutex_taken_outside_critical_section sample_platform (set_up []) 6
                   (state_of (NamespaceTakePoolMutex sample_platform Pool1 (set_up []))) _)).
  left. exists Pool1. vm_compute. reflexivity.
Defined.

(** X13: [NamespaceDone] gives back the algorithm provider, the namespace
    and the boundary descriptor of the context, and nothing else: what is
    held afterwards is what was held before that is not of the context,
    so that a mutex that is still held stays held. *)
Theorem teardown_releases_context_only (st st' : State) :
  context_consistent st ->
  NamespaceDone st = Ok tt st' ->
  live st' = filter is_other_kind (live st) /\
  (forall r, In r (pick released_by (calls_since st st')) <-> In r (context_live st)).
Proof.
  intros [_ Hshape] Hrun. apply NamespaceDone_spec in Hrun.
  destruct Hrun as (_ & _ & _ & _ & _ & Hcase).
  unfold context_live in *.
  destruct (PrivateNamespace st =? NULL).
  - destruct Hcase as [-> Hcalls]. split.
    + symmetry. apply filter_none. exact Hshape.
    + rewrite (calls_since_app st st' [_; _; _] Hcalls), Hshape. cbn. tauto.
  - destruct Hcase as [-> Hcalls]. split.
    + apply without_context. exact Hshape.
    + rewrite (calls_since_app st st' [_; _; _; _; _; _] Hcalls), Hshape. cbn. tauto.
Qed.

(** Teardown while the mutex of a pool is held. *)
Lemma teardown_releases_context_only_witness :
  live (state_of (NamespaceDone (state_of (run_pool [] Pool1)))) =
  filter is_other_kind (live (state_of (run_pool [] Pool1))).
Proof.
  refine (proj1 (teardown_releases_context_only (state_of (run_pool [] Pool1))
                   (state_of (NamespaceDone (state_of (run_pool [] Pool1)))) _ _)).
  - apply context_consistentb_sound. vm_compute. reflexivity.
  - vm_compute. reflexivity.
Defined.

(** X14: an acquisition of a pool's mutex and the release of the handle
    it has returned, when [CloseHandle] succeeds, leave held exactly what
    the initialization has left held: the mutex is gone, the context
    stays, and nothing is kept of what was held besides the context. *)
Theorem acquire_release_round_trip (P : Platform) (Pool : list WCHAR)
    (st : State) (ret : HANDLE) (st1 st2 : State) :
  handles_fresh st ->
  NamespaceTakePoolMutex P Pool st = Ok ret st1 ->
  ret <> NULL ->
  NamespaceReleaseMutex ret st1 = Ok tt st2 ->
  (exists e, answers_since st1 st2 = [(ApiReleaseMutex, e); (ApiCloseHandle, 0)]) ->
  exists sti,
    NamespaceRuntimeInit P st = Ok true sti /\
    live st2 = live sti /\
    PrivateNamespace st2 = PrivateNamespace st1 /\
    filter is_other_kind (live st2) = filter is_other_kind (live st).
Proof.
  intros Hfresh Hrun Hret Hrel (e & Hanswers).
  apply NamespaceTakePoolMutex_yield in Hrun.
  destruct Hrun as (b & sti & Hinit & Hy).
  destruct b; [|destruct Hy as [Hnull _]; contradiction].
  destruct (NamespaceRuntimeInit_fresh P _ _ _ Hinit Hfresh) as [Hfreshi _].
  pose proof (NamespaceRuntimeInit_yield P _ _ _ Hinit)
    as (new1 & j1 & _ & _ & _ & _ & _ & _ & Hother).
  destruct Hy as (new & j & _ & _ & _ & Hheld & _ & _). specialize (Hheld Hfreshi).
  unfold held_after in Hheld.
  destruct (ret =? NULL) eqn:Eret; [apply Z.eqb_eq in Eret; contradiction|].
  destruct Hheld as [Hlive1 Hnew].
  destruct (NamespaceReleaseMutex_exact ret st1) as (e1 & e2 & st2' & Hrel' & Hans & Hlive2 & Hns & _).
  rewrite Hrel in Hrel'. apply Ok_inj in Hrel'. destruct Hrel' as [_ <-].
  rewrite (answers_since_app st1 st2 [_; _] Hans) in Hanswers.
  cbn in Hanswers. injection Hanswers as _ He2. subst e2.
  cbn in Hlive2. rewrite Hlive1 in Hlive2. rewrite without_head in Hlive2.
  assert (Hgone : forall k, ~ In (k, ret) (live sti)).
  { intros k Hin. specialize (Hfreshi _ Hin). cbn [snd] in Hfreshi.
    unfold HANDLE in *. lia. }
  rewrite (without_absent (KMutex, ret) (live sti) (Hgone _)) in Hlive2.
  rewrite (without_absent (KNamespace, ret) (live sti) (Hgone _)) in Hlive2.
  exists sti. split; [exact Hinit|]. split; [exact Hlive2|]. split; [exact Hns|].
  rewrite Hlive2. exact Hother.
Qed.

Lemma acquire_release_round_trip_witness :
  exists sti,
    NamespaceRuntimeInit sample_platform (set_up []) = Ok true sti /\
    live (state_of (NamespaceReleaseMutex 6 (state_of (run_pool [] Pool1)))) = live sti /\
    PrivateNamespace (state_of (NamespaceReleaseMutex 6 (state_of (run_pool [] Pool1)))) =
      PrivateNamespace (state_of (run_pool [] Pool1)) /\
    filter is_other_kind
      (live (state_of (NamespaceReleaseMutex 6 (state_of (run_pool [] Pool1))))) =
    filter is_other_kind (live (set_up [])).
Proof.
  apply (acquire_release_round_trip sample_platform Pool1 (set_up []) 6
           (state_of (run_pool [] Pool1))).
  - apply handles_freshb_sound. vm_compute. reflexivity.
  - vm_compute. reflexivity.
  - discriminate.
  - vm_compute. reflexivity.
  - exists 0. vm_compute. reflexivity.
Defined.

(** X15: a failed initialization is not remembered: when the system no
    longer hinders, the next call of [NamespaceRuntimeInit] builds the
    context, and an acquisition for a pool whose name has a normal form
    returns the handle of a mutex. *)
Theorem failed_initialization_not_remembered (P : Platform) (st st1 : State) :
  NamespaceRuntimeInit P st = Ok false st1 ->
  script st1 = [] ->
  (exists st2, NamespaceRuntimeInit P st1 = Ok true st2 /\ PrivateNamespace st2 <> NULL) /\
  (forall Pool n,
     normalize P NormalizationC Pool = Some n ->
     exists ret st2,
       NamespaceTakePoolMutex P Pool st1 = Ok ret st2 /\
       ret <> NULL /\ In (KMutex, ret) (live st2)).
Proof.
  intros Hrun Hscript.
  destruct (NamespaceRuntimeInit_ready P _ _ _ Hrun) as (depth & Hready).
  pose proof (NamespaceRuntimeInit_spec P _ _ _ Hrun) as (Hcs & _ & [Hfast | [Hdone | Hf]]).
  - destruct Hfast as (_ & Hb & _). discriminate Hb.
  - destruct Hdone as (_ & Hb & _). discriminate Hb.
  - destruct Hf as (_ & _ & Hns & _).
    rewrite Hready in Hcs.
    split.
    + destruct (NamespaceRuntimeInit_unhindered P st1 depth Hcs Hns Hscript)
        as (st2 & Hrun2 & Hns2 & _).
      exists st2. split; assumption.
    + intros Pool n Hn.
      destruct (NamespaceTakePoolMutex_unhindered P Pool n st1 depth Hcs Hns Hscript Hn)
        as (ret & st2 & Hrun2 & Hret & _ & _ & Hlive & _).
      exists ret, st2. auto.
Qed.

(** The boundary descriptor cannot be created at first. *)
Lemma failed_initialization_not_remembered_witness :
  exists st2,
    NamespaceRuntimeInit sample_platform
      (state_of (NamespaceRuntimeInit sample_platform
                   (set_up [(ApiCreateBoundaryDescriptorW, 8)]))) = Ok true st2 /\
    PrivateNamespace st2 <> NULL.
Proof.
  refine (proj1 (failed_initialization_not_remembered sample_platform
                   (set_up [(ApiCreateBoundaryDescriptorW, 8)])
                   (state_of (NamespaceRuntimeInit sample_platform
                                (set_up [(ApiCreateBoundaryDescriptorW, 8)]))) _ _)).
  - vm_compute. reflexivity.
  - vm_compute. reflexivity.
Defined.

(** X16: [NamespaceTakePoolMutex] makes its hash object with an algorithm
    provider that is held: the one of the context, which the call does not
    give back.  After a failed initialization, whose algorithm provider is
    closed, no hash object is made. *)
Theorem hash_made_with_held_provider (P : Platform) (Pool : list WCHAR)
    (st : State) (ret : HANDLE) (st' : State) :
  context_consistent st ->
  NamespaceTakePoolMutex P Pool st = Ok ret st' ->
  forall alg h,
    In (CallBCryptCreateHash alg h) (calls_since st st') ->
    alg = AlgProvider st' /\ In (KAlgorithm, alg) (live st').
Proof.
  intros Hst Hrun alg h Hin.
  pose proof (NamespaceTakePoolMutex_consistent P _ _ _ _ Hrun Hst) as Hst'.
  pose proof (NamespaceTakePoolMutex_spec P _ _ _ _ Hrun) as (b0 & st0 & Hinit0 & Hpost).
  apply NamespaceTakePoolMutex_yield in Hrun.
  destruct Hrun as (b & st1 & Hinit & Hy).
  rewrite Hinit in Hinit0. apply Ok_inj in Hinit0. destruct Hinit0 as [<- <-].
  pose proof (NamespaceRuntimeInit_spec P _ _ _ Hinit) as Hipost.
  pose proof (init_post_calls _ _ _ _ Hipost) as (new1 & Hcalls1 & Hquiet).
  destruct (init_calls_no_mutex _ Hquiet) as [_ Hnohash].
  rewrite Forall_forall in Hnohash.
  destruct b.
  - destruct Hy as (new & j & Hcalls & _ & Hok & _).
    rewrite (whole_run_calls _ _ _ _ _ Hcalls1 Hcalls) in Hin.
    apply in_app_or in Hin. destruct Hin as [Hin | Hin]; [|destruct (Hnohash _ Hin)].
    rewrite Forall_forall in Hok. destruct (Hok _ Hin) as [_ Halg]. cbn in Halg.
    destruct Hpost as (Hns & _ & _ & Ha & _).
    assert (Hinit' : PrivateNamespace st1 <> NULL).
    { destruct Hipost as (_ & _ & [Hfast | [Hdone | Hf]]).
      - destruct Hfast as (H & _ & ->). destruct st; exact H.
      - destruct Hdone as (_ & _ & _ & _ & Hn & _). rewrite Hn. discriminate.
      - destruct Hf as (_ & Hb & _). discriminate Hb. }
    rewrite <- Ha in Halg. split; [exact Halg|].
    destruct Hst' as [_ Hshape]. rewrite Hns in Hshape.
    apply Z.eqb_neq in Hinit'. rewrite Hinit' in Hshape.
    assert (Hctx : In (KAlgorithm, AlgProvider st') (context_live st'))
      by (rewrite Hshape; right; right; left; reflexivity).
    unfold context_live in Hctx. apply filter_In in Hctx. rewrite Halg. exact (proj1 Hctx).
  - destruct Hy as [_ ->]. rewrite (calls_since_app _ _ _ Hcalls1) in Hin.
    destruct (Hnohash _ Hin).
Qed.

Lemma hash_made_with_held_provider_witness :
  1 = AlgProvider (state_of (NamespaceTakePoolMutex sample_platform Pool1 (set_up []))) /\
  In (KAlgorithm, 1)
     (live (state_of (NamespaceTakePoolMutex sample_platform Pool1 (set_up [])))).
Proof.
  apply (hash_made_with_held_provider sample_platform Pool1 (set_up []) 6
           (state_of (NamespaceTakePoolMutex sample_platform Pool1 (set_up []))) 
           ltac:(apply context_consistentb_sound; vm_compute; reflexivity)
           ltac:(vm_compute; reflexivity) 1 4).
  vm_compute. repeat first [left; reflexivity | right].
Defined.

(** X17: for a pool whose name has no normal form, [NamespaceTakePoolMutex]
    returns no handle and makes no mutex, whatever else the system
    answers. *)
Theorem unnormalizable_pool_gets_no_mutex (P : Platform) (Pool : list WCHAR)
    (st : State) (ret : HANDLE) (st' : State) :
  normalize P NormalizationC Pool = None ->
  NamespaceTakePoolMutex P Pool st = Ok ret st' ->
  ret = NULL /\ mutex_names (calls_since st st') = [].
Proof.
  intros Hnone Hrun.
  assert (Hnames : mutex_names (calls_since st st') = []).
  { destruct (pool_run_calls _ _ _ _ _ Hrun) as (_ & [H | (n & Hn & _)]); [exact H|].
    rewrite Hnone in Hn. discriminate Hn. }
  split; [|exact Hnames].
  destruct (Z.eq_dec ret NULL) as [Hret | Hret]; [exact Hret|]. exfalso.
  apply NamespaceTakePoolMutex_yield in Hrun.
  destruct Hrun as (b & st1 & Hinit & Hy).
  destruct b; [|destruct Hy as [Hnull _]; contradiction].
  pose proof (NamespaceRuntimeInit_yield P _ _ _ Hinit) as (new1 & j1 & Hcalls1 & _).
  destruct Hy as (new & j & Hcalls & _ & _ & _ & _ & Hmade).
  destruct (Hmade Hret) as (Name & HName).
  assert (Hin : In Name (mutex_names (calls_since st st'))).
  { apply (created_mutex_named Name ret).
    rewrite (whole_run_calls _ _ _ _ _ Hcalls1 Hcalls). apply in_or_app. left. exact HName. }
  rewrite Hnames in Hin. destruct Hin.
Qed.

(** A surrogate that stands alone. *)
Lemma unnormalizable_pool_gets_no_mutex_witness :
  NULL = NULL /\
  mutex_names (calls_since (set_up [])
                 (state_of (NamespaceTakePoolMutex sample_platform [0xD800] (set_up [])))) = [].
Proof.
  apply (unnormalizable_pool_gets_no_mutex sample_platform [0xD800] (set_up []) NULL).
  - vm_compute. reflexivity.
  - vm_compute. reflexivity.
Defined.

(** X18: on a module that is initialized an acquisition leaves the context
    as it is: the three variables keep their handles, and the resources of
    the context that are held stay the same. *)
Theorem initialized_context_stays (P : Platform) (st : State) (ret : HANDLE) (st' : State) :
  PrivateNamespace st <> NULL ->
  handles_fresh st ->
  (exists Pool, NamespaceTakePoolMutex P Pool st = Ok ret st') \/
  NamespaceTakeDriverInstallationMutex P st = Ok ret st' ->
  PrivateNamespace st' = PrivateNamespace st /\
  BoundaryDescriptor st' = BoundaryDescriptor st /\
  AlgProvider st' = AlgProvider st /\
  context_live st' = context_live st.
Proof.
  intros Hns Hfresh Hrun.
  assert (Hpost : exists st1 about,
            NamespaceRuntimeInit P st = Ok true st1 /\ acquire_post about st1 ret st').
  { destruct Hrun as [[Pool Hrun] | Hrun].
    - apply NamespaceTakePoolMutex_spec in Hrun. destruct Hrun as (b & st1 & Hinit & Hpost).
      destruct (NamespaceRuntimeInit_ready P _ _ _ Hinit) as (depth & Hready).
      rewrite (NamespaceRuntimeInit_again P st depth Hready Hns) in Hinit.
      apply Ok_inj in Hinit. destruct Hinit as [<- <-].
      eexists _, _. split; [apply (NamespaceRuntimeInit_again P st depth Hready Hns)|].
      exact Hpost.
    - apply NamespaceTakeDriverInstallationMutex_spec in Hrun.
      destruct Hrun as (b & st1 & Hinit & Hpost).
      destruct (NamespaceRuntimeInit_ready P _ _ _ Hinit) as (depth & Hready).
      rewrite (NamespaceRuntimeInit_again P st depth Hready Hns) in Hinit.
      apply Ok_inj in Hinit. destruct Hinit as [<- <-].
      eexists _, _. split; [apply (NamespaceRuntimeInit_again P st depth Hready Hns)|].
      exact Hpost. }
  destruct Hpost as (st1 & about & Hinit & E1 & E2 & _ & E4 & _ & Hctx & _).
  destruct (NamespaceRuntimeInit_ready P _ _ _ Hinit) as (depth & Hready).
  rewrite (NamespaceRuntimeInit_again P st depth Hready Hns) in Hinit.
  apply Ok_inj in Hinit. destruct Hinit as [_ <-].
  destruct st as [ns0 bd0 cs alg0 le scr ans nh lv hs cl lg]. cbn in *.
  rewrite E1, E2, E4. repeat split. exact (Hctx Hfresh).
Qed.

(** A second acquisition, for the installation mutex. *)
Lemma initialized_context_stays_witness :
  PrivateNamespace
    (state_of (NamespaceTakeDriverInstallationMutex sample_platform
                 (state_of (run_pool [] Pool1)))) =
  PrivateNamespace (state_of (run_pool [] Pool1)).
Proof.
  refine (proj1 (initialized_context_stays sample_platform (state_of (run_pool [] Pool1)) 7
                   (state_of (NamespaceTakeDriverInstallationMutex sample_platform
                                (state_of (run_pool [] Pool1)))) _ _ _)).
  - vm_compute. discriminate.
  - apply handles_freshb_sound. vm_compute. reflexivity.
  - right. vm_compute. reflexivity.
Defined.
